(** * The analysis pipeline of the news aggregator (server/index.js)

    A shallow embedding of the backend pipeline: the vector helpers, the
    single-pass clusterer, the labeler, the statistics of a story, the
    article upsert, the selection of unclustered articles and the coherence
    refiner with its split transaction, followed by the properties of the
    specification that these definitions settle.

    JavaScript numbers are IEEE-754 binary64 values and are modelled by
    Rocq's primitive floats, which compute with the same rounding.  The
    SQLite tables are modelled by their rows: [news_articles] as the list
    of rows in the order in which a query without [ORDER BY] meets them
    (new rows are appended), [news_clusters] as a finite map from the
    primary key, each row with its rowid.  A string is the sequence of its
    UTF-16 code units, for the strings whose code units are below 256.
    Everything the program obtains from outside (the clock, the embedding
    model, the generative model, fresh identifiers, and how the writes
    that the route does not await fall among its own) is an explicit
    argument. *)

From Stdlib Require Import ZArith Lia Bool Ascii String DecimalString.
From Stdlib Require Import Floats Uint63.
From stdpp Require Import base option list sorting gmap strings.

Open Scope Z_scope.

(* Decimal literals such as 0.55 denote the nearest binary64 value, as in
   JavaScript. *)
Set Warnings "-inexact-float".

(** ** JavaScript numbers *)

Module JS.

(** [x !== x]: the only number different from itself. *)
Definition isNaN (x : float) : bool := negb (x =? x)%float.

(** Truthiness of a number: everything but [0], [-0] and [NaN]. *)
Definition truthy (x : float) : bool := negb (x =? 0)%float && (x =? x)%float.

(** [x || y] on numbers. *)
Definition or (x y : float) : float := if truthy x then x else y.

Definition isFinite (x : float) : bool :=
  (x =? x)%float && negb (x =? infinity)%float && negb (x =? neg_infinity)%float.

(** An integer as a number; exact for magnitudes below 2^53. *)
Definition of_Z (z : Z) : float :=
  if z <? 0 then (- PrimFloat.of_uint63 (Uint63.of_Z (- z)))%float
  else PrimFloat.of_uint63 (Uint63.of_Z z).

Definition of_nat (n : nat) : float := of_Z (Z.of_nat n).

(** [Math.round]: the nearest integer, ties towards positive infinity;
    an integral argument, an infinity and [NaN] are returned unchanged,
    and a negative argument that rounds to zero gives [-0]. *)
Definition Math_round (x : float) : float :=
  match Prim2SF x with
  | S754_finite s m e =>
      if 0 <=? e then x
      else
        let d := 2 ^ (- e) in
        let v := if s then Z.neg m else Z.pos m in
        let n := (2 * v + d) / (2 * d) in
        if (n =? 0) && s then neg_zero else of_Z n
  | _ => x
  end.

End JS.

(** ** Math utils *)

(** A JavaScript array of numbers.  A value that may be [null] or
    [undefined] is an [option vector]. *)
Definition vector := list float.

(** The body of the [for] loop of [cosineSimilarity], which runs over the
    indices of [vecA] when both arrays have the same length. *)
Fixpoint cosine_loop (vecA vecB : vector) (acc : float * float * float)
  : float * float * float :=
  match vecA, vecB with
  | a :: vecA', b :: vecB' =>
      let '(dot, magA, magB) := acc in
      cosine_loop vecA' vecB' (dot + a * b, magA + a * a, magB + b * b)%float
  | _, _ => acc
  end.

(** The divisor of [cosineSimilarity]:
    [(Math.sqrt(magA) * Math.sqrt(magB)) || 1]. *)
Definition cosine_divisor (magA magB : float) : float :=
  JS.or (PrimFloat.sqrt magA * PrimFloat.sqrt magB)%float 1%float.

Definition cosineSimilarity (vecA vecB : option vector) : float :=
  match vecA, vecB with
  | Some a, Some b =>
      if decide (length a = length b) then
        let '(dot, magA, magB) := cosine_loop a b (0, 0, 0)%float in
        (dot / cosine_divisor magA magB)%float
      else 0%float
  | _, _ => 0%float
  end.

(** [vecB[i]] past the end of [vecB] is [undefined], which arithmetic
    turns into [NaN]. *)
Definition weightedVectorAdd (vecA vecB : option vector) (weightA weightB : float)
  : option vector :=
  match vecA, vecB with
  | None, _ => vecB
  | _, None => vecA
  | Some a, Some b =>
      Some (imap (fun i val => (val * weightA + default nan (b !! i) * weightB)%float) a)
  end.

Definition magnitude (vec : vector) : float :=
  PrimFloat.sqrt (foldl (fun sum val => (sum + val * val)%float) 0%float vec).

Definition normalizeVector (vec : vector) : vector :=
  let mag := magnitude vec in
  map (fun val => (val / JS.or mag 1)%float) vec.

(** ** Strings *)

(** A string is the sequence of the UTF-16 code units of the JavaScript
    string, one character of the Rocq string per code unit.  The type
    holds the code units below 256, so the strings modelled are those of
    the Latin-1 range (U+0000 to U+00FF); on them [toLowerCase], [trim],
    [includes], [length] and [substring] below are those of JavaScript,
    unit by unit.  A text with other characters is outside the model; in
    particular a character is not a byte of an encoding of the text. *)

(** [toLowerCase] on a code unit below 256: the letters A to Z and the
    letters U+00C0 to U+00DE (the multiplication sign U+00D7 apart) are
    lowered by 32, and every other unit of the range is its own lower
    case. *)
Definition lower_unit (c : ascii) : ascii :=
  let n := nat_of_ascii c in
  if (((65 <=? n) && (n <=? 90))
      || ((192 <=? n) && (n <=? 222) && negb (n =? 215)))%nat
  then ascii_of_nat (n + 32) else c.

Fixpoint toLowerCase (s : string) : string :=
  match s with
  | EmptyString => EmptyString
  | String c s' => String (lower_unit c) (toLowerCase s')
  end.

(** The white space and the line terminators that [trim] strips, below
    256: U+0009 to U+000D, the space, and the no-break space U+00A0. *)
Definition is_space (c : ascii) : bool :=
  let n := nat_of_ascii c in
  (((9 <=? n) && (n <=? 13)) || (n =? 32) || (n =? 160))%nat.

Fixpoint trimStart (s : string) : string :=
  match s with
  | String c s' => if is_space c then trimStart s' else s
  | EmptyString => EmptyString
  end.

Fixpoint trimEnd (s : string) : string :=
  match s with
  | EmptyString => EmptyString
  | String c s' =>
      match trimEnd s' with
      | EmptyString => if is_space c then EmptyString else String c EmptyString
      | r => String c r
      end
  end.

Definition trim (s : string) : string := trimEnd (trimStart s).

Fixpoint includes (s sub : string) : bool :=
  String.prefix sub s ||
  match s with
  | EmptyString => false
  | String _ s' => includes s' sub
  end.

(** ** The tables *)

(** What [JSON.parse] makes of the text of the [embedding] column: the
    pipeline writes [JSON.stringify] of an array of numbers there; any
    other text makes [JSON.parse] throw. *)
Inductive EmbeddingText :=
| JsonArray (v : vector)
| Unparsable.

(** A row of [news_articles]; [None] is SQL [NULL]. *)
Record ArticleRow := {
  id : string;
  source_id : option string;
  source_name : option string;
  bias_rating : option string;
  factuality : option string;
  headline : option string;
  url : option string;
  pub_date : option string;
  fetched_at : option string;
  summary : option string;
  image_url : option string;
  cluster_id : option string;
  embedding : option EmbeddingText;
  entities : option (list string)
}.

(** The [stats] object of a cluster, stored as JSON text. *)
Module Blindspot.
Inductive t := Left | Right | None.
End Blindspot.

Module BiasDistribution.
Record t := { left : float; center : float; right : float }.
End BiasDistribution.

Record Stats := {
  totalSources : nat;
  biasDistribution : BiasDistribution.t;
  blindspot : Blindspot.t
}.

(** A row of [news_clusters], without its primary key [id], which is the
    key of the map; [rowid] is the row number SQLite keeps for the row, and
    [headline] is [NOT NULL] and so carries a value. *)
Record ClusterRow := {
  rowid : nat;
  cl_headline : string;
  cl_summary : option string;
  cl_category : option string;
  main_image_url : option string;
  created_at : string;
  stats : Stats
}.

Record Store := {
  news_articles : list ArticleRow;
  news_clusters : gmap string ClusterRow
}.

(** ** Article objects *)

(** The object the pipeline works on: [{...row, embedding, entities}].
    [pubDate] is the camel-case property read by the clusterer, given by
    the time [new Date(pubDate).getTime()] when the property is set and
    truthy; an object spread from a row has no such property. *)
Module Article.
Record t := {
  row : ArticleRow;
  pubDate : option float;
  embedding : option vector;
  entities : option (list string)
}.
End Article.

Coercion Article.row : Article.t >-> ArticleRow.

(** [JSON.parse(text)]: [None] when it throws, [Some None] for [null]
    (also the result on a [NULL] column). *)
Definition JSON_parse (col : option EmbeddingText) : option (option vector) :=
  match col with
  | None => Some None
  | Some (JsonArray v) => Some (Some v)
  | Some Unparsable => None
  end.

(** ** The clusterer *)

Definition CLUSTERING_THRESHOLD : float := 0.55%float.
Definition DUPLICATE_THRESHOLD : float := 0.90%float.

(** [48 * 60 * 60 * 1000] *)
Definition MAX_TIME_DIFF_MS : float := (48 * 60 * 60 * 1000)%float.

Record MicroCluster := {
  centroid : vector;
  articles : list Article.t;
  latestTime : float
}.

(** [article.pubDate ? new Date(article.pubDate).getTime() : Date.now()],
    where [now] is the reading of the clock at that moment. *)
Definition articleTime (now : float) (article : Article.t) : float :=
  match Article.pubDate article with
  | Some t => t
  | None => now
  end.

(** [existing.headline.toLowerCase().trim() === article.headline.toLowerCase().trim()];
    [None] is the [TypeError] raised on a [null] headline, that of
    [existing] being read first. *)
Definition sameHeadline (existing article : Article.t) : option bool :=
  e ← headline existing;
  h ← headline article;
  Some (bool_decide (trim (toLowerCase e) = trim (toLowerCase h))).

(** The callback of [cluster.articles.some(...)], run over the members in
    order until one answers [true]. *)
Fixpoint duplicateMatch (members : list Article.t) (article : Article.t) : option bool :=
  match members with
  | [] => Some false
  | existing :: rest =>
      match sameHeadline existing article with
      | None => None
      | Some true => Some true
      | Some false =>
          let pairSim :=
            cosineSimilarity (Article.embedding article) (Article.embedding existing) in
          if (DUPLICATE_THRESHOLD <=? pairSim)%float then Some true
          else duplicateMatch rest article
      end
  end.

(** How the scan of [microClusters] for one article ends: by [break] at
    the cluster of index [i], or at the end of the list with [bestIdx]
    ([None] for [-1]) and [maxSim]. *)
Inductive Scan :=
| IsDuplicate (i : nat)
| Scanned (bestIdx : option nat) (maxSim : float).

(** The inner [for] loop from index [i] on, [clusters] being
    [microClusters] from that index. *)
Fixpoint scanClusters (clusters : list MicroCluster) (i : nat) (article : Article.t)
    (time : float) (bestIdx : option nat) (maxSim : float) : option Scan :=
  match clusters with
  | [] => Some (Scanned bestIdx maxSim)
  | cluster :: rest =>
      let timeDiff := abs (time - latestTime cluster)%float in
      if (MAX_TIME_DIFF_MS <? timeDiff)%float then
        scanClusters rest (S i) article time bestIdx maxSim
      else
        match duplicateMatch (articles cluster) article with
        | None => None
        | Some true => Some (IsDuplicate i)
        | Some false =>
            let sim := cosineSimilarity (Article.embedding article) (Some (centroid cluster)) in
            if (maxSim <? sim)%float then scanClusters rest (S i) article time (Some i) sim
            else scanClusters rest (S i) article time bestIdx maxSim
        end
  end.

(** [cluster.articles.push(article)] *)
Definition pushArticle (article : Article.t) (cluster : MicroCluster) : MicroCluster :=
  {| centroid := centroid cluster;
     articles := articles cluster ++ [article];
     latestTime := latestTime cluster |}.

(** The semantic merge: push, move the centroid, advance [latestTime]. *)
Definition mergeArticle (article : Article.t) (time : float) (cluster : MicroCluster)
  : MicroCluster :=
  {| centroid :=
       match weightedVectorAdd (Some (centroid cluster)) (Article.embedding article)
               0.8%float 0.2%float with
       | Some v => normalizeVector v
       | None => centroid cluster
       end;
     articles := articles cluster ++ [article];
     latestTime := if (latestTime cluster <? time)%float then time else latestTime cluster |}.

Definition newCluster (article : Article.t) (time : float) : MicroCluster :=
  {| centroid := default [] (Article.embedding article);
     articles := [article];
     latestTime := time |}.

(** One iteration of the outer loop: the article [article], whose time is
    [time], against the clusters built so far. *)
Definition processArticle (microClusters : list MicroCluster) (article : Article.t)
    (time : float) : option (list MicroCluster) :=
  scan ← scanClusters microClusters 0 article time None (-1)%float;
  Some
    match scan with
    | IsDuplicate i => alter (pushArticle article) i microClusters
    | Scanned (Some bestIdx) maxSim =>
        if (CLUSTERING_THRESHOLD <=? maxSim)%float
        then alter (mergeArticle article time) bestIdx microClusters
        else microClusters ++ [newCluster article time]
    | Scanned None _ => microClusters ++ [newCluster article time]
    end.

(** The outer loop over [validArticles]; [clock k] is what [Date.now()]
    reads during the iteration of index [k]. *)
Fixpoint clusterLoop (clock : nat → float) (k : nat) (validArticles : list Article.t)
    (microClusters : list MicroCluster) : option (list MicroCluster) :=
  match validArticles with
  | [] => Some microClusters
  | article :: rest =>
      microClusters' ← processArticle microClusters article (articleTime (clock k) article);
      clusterLoop clock (S k) rest microClusters'
  end.

(** [None] when a [null] headline makes the duplicate check throw. *)
Definition clusterArticles (clock : nat → float) (articles : list Article.t)
  : option (list MicroCluster) :=
  let validArticles := filter (λ a, is_Some (Article.embedding a)) articles in
  clusterLoop clock 0 validArticles [].

(** ** The enricher *)

Definition TEXT_WEIGHT : float := 0.7%float.
Definition ENTITY_WEIGHT : float := 0.3%float.

(** A nullable text inside a template literal. *)
Definition interpolate (s : option string) : string := default "null"%string s.

Fixpoint join (sep : string) (l : list string) : string :=
  match l with
  | [] => EmptyString
  | [s] => s
  | s :: rest => (s ++ sep ++ join sep rest)%string
  end.

(** The body of the [for] loop of [enrichArticles].  [embedder text] is the
    pooled output of the embedding model and [nerModel text] the entity list
    that the decoding of the tagger's tokens yields; [None] is a thrown
    exception, and [nerModel] itself is [None] when the tagger is disabled. *)
Definition enrichArticle (embedder : string → option vector)
    (nerModel : option (string → option (list string))) (article : Article.t) : Article.t :=
  let fullText := (interpolate (headline article) ++ ". " ++ interpolate (summary article))%string in
  match embedder fullText with
  | None => article
  | Some textVector =>
      let entityList :=
        match nerModel with
        | Some ner => default [] (ner fullText)
        | None => []
        end in
      let entityVector :=
        match entityList with
        | [] => Some textVector
        | _ => embedder (join " " entityList)
        end in
      match entityVector with
      | None => article
      | Some entityVector =>
          let finalVector :=
            match nerModel, entityList with
            | Some _, _ :: _ =>
                default textVector
                  (weightedVectorAdd (Some textVector) (Some entityVector)
                     TEXT_WEIGHT ENTITY_WEIGHT)
            | _, _ => textVector
            end in
          {| Article.row := Article.row article;
             Article.pubDate := Article.pubDate article;
             Article.embedding := Some (normalizeVector finalVector);
             Article.entities := Some entityList |}
      end
  end.

(** [None] when [initModels] throws: no embedding model could be loaded. *)
Definition enrichArticles (embedder : option (string → option vector))
    (nerModel : option (string → option (list string))) (articles : list Article.t)
  : option (list Article.t) :=
  match embedder with
  | None => None
  | Some embedder => Some (map (enrichArticle embedder nerModel) articles)
  end.

(** ** The labeler *)

(** The value [JSON.parse] returns for the model's answer: an object, of
    which the pipeline reads the three properties below ([None] when the
    property is missing), or any other JSON value (a string, a number, an
    array, a boolean, [null]), whose spread has none of them. *)
Inductive JsonData :=
| JsonObject (headline summary category : option string)
| JsonOther.

(** How one request to the generative model ends. *)
Inductive Generation :=
| CallThrows    (* [generateContent] rejects: transport error, HTTP error status *)
| ParseThrows   (* the answer is not JSON *)
| Parsed (data : JsonData).

Module Labeled.
Record t := {
  headline : option string;
  summary : option string;
  category : option string;
  articles : list Article.t
}.
End Labeled.

(** The label of the [catch] branch. *)
Definition fallbackLabel (first : Article.t) (members : list Article.t) : Labeled.t :=
  {| Labeled.headline := headline first;
     Labeled.summary := summary first;
     Labeled.category := Some "General"%string;
     Labeled.articles := members |}.

(** [{ ...data, articles: cluster.articles }] *)
Definition spreadLabel (data : JsonData) (members : list Article.t) : Labeled.t :=
  match data with
  | JsonObject h s c =>
      {| Labeled.headline := h; Labeled.summary := s; Labeled.category := c;
         Labeled.articles := members |}
  | JsonOther =>
      {| Labeled.headline := None; Labeled.summary := None; Labeled.category := None;
         Labeled.articles := members |}
  end.

(** [processCluster]: [ai n] is the outcome of the [n]-th request made to
    the generative model, [calls] the number of requests made so far; the
    result carries the number of requests made afterwards. *)
Definition processCluster (ai : nat → Generation) (calls : nat) (cluster : MicroCluster)
  : option Labeled.t * nat :=
  match articles cluster with
  | [] => (None, calls)
  | first :: _ =>
      (Some match ai calls with
            | Parsed data => spreadLabel data (articles cluster)
            | CallThrows | ParseThrows => fallbackLabel first (articles cluster)
            end,
       S calls)
  end.

(** [generateLabels]: the clusters are taken five at a time, each batch
    issuing its requests in the order of the clusters, and the non-null
    results are appended in that order. *)
Fixpoint generateLabels (ai : nat → Generation) (calls : nat) (clusters : list MicroCluster)
  : list Labeled.t * nat :=
  match clusters with
  | [] => ([], calls)
  | cluster :: rest =>
      let '(result, calls') := processCluster ai calls cluster in
      let '(labeled, calls'') := generateLabels ai calls' rest in
      (match result with Some l => l :: labeled | None => labeled end, calls'')
  end.

(** ** The statistics of a cluster *)

Definition hasBias (side : string) (a : Article.t) : bool :=
  match bias_rating a with
  | Some b => includes b side
  | None => false
  end.

(** The [forEach] that counts [left], [right] and [center]. *)
Definition countBias (members : list Article.t) : nat * nat * nat :=
  foldl (fun '(nLeft, nRight, nCenter) a =>
           if hasBias "Left" a then (S nLeft, nRight, nCenter)
           else if hasBias "Right" a then (nLeft, S nRight, nCenter)
           else (nLeft, nRight, S nCenter))
        (0, 0, 0)%nat members.

(** [Math.round((count / total) * 100)] *)
Definition percentage (count total : nat) : float :=
  JS.Math_round (JS.of_nat count / JS.of_nat total * 100)%float.

Definition blindspotOf (leftPct rightPct : float) : Blindspot.t :=
  let blindspot := Blindspot.None in
  let blindspot :=
    if (rightPct <? 15)%float && (50 <? leftPct)%float then Blindspot.Right else blindspot in
  if (leftPct <? 15)%float && (50 <? rightPct)%float then Blindspot.Left else blindspot.

Definition computeStats (members : list Article.t) : Stats :=
  let total := length members in
  let '(nLeft, nRight, _) := countBias members in
  let leftPct := percentage nLeft total in
  let rightPct := percentage nRight total in
  {| totalSources := total;
     biasDistribution :=
       {| BiasDistribution.left := leftPct;
          BiasDistribution.center := (100 - leftPct - rightPct)%float;
          BiasDistribution.right := rightPct |};
     blindspot := blindspotOf leftPct rightPct |}.

(** [c.articles.find(a => a.image_url)?.image_url]: the first image URL
    that is neither [null] nor empty. *)
Fixpoint bestImage (members : list Article.t) : option string :=
  match members with
  | [] => None
  | a :: rest =>
      match image_url a with
      | Some u => if bool_decide (u = EmptyString) then bestImage rest else Some u
      | None => bestImage rest
      end
  end.

(** ** The store *)

(** An article as the ingestion endpoint receives it (the [DBArticle]
    interface); [None] is a property that is missing or [null]. *)
Module DBArticle.
Record t := {
  id : string;
  sourceId : option string;
  sourceName : option string;
  biasRating : option string;
  factuality : option string;
  headline : option string;
  url : option string;
  pubDate : option string;
  fetchedAt : option string;
  summary : option string;
  imageUrl : option string;
  clusterId : option string;
  embedding : option vector;
  entities : option (list string)
}.
End DBArticle.

(** The values bound to the [INSERT]: the row the statement would insert,
    which [ON CONFLICT] calls [excluded]. *)
Definition excludedRow (a : DBArticle.t) : ArticleRow :=
  {| id := DBArticle.id a;
     source_id := DBArticle.sourceId a;
     source_name := DBArticle.sourceName a;
     bias_rating := DBArticle.biasRating a;
     factuality := DBArticle.factuality a;
     headline := DBArticle.headline a;
     url := DBArticle.url a;
     pub_date := DBArticle.pubDate a;
     fetched_at := DBArticle.fetchedAt a;
     summary := DBArticle.summary a;
     image_url := DBArticle.imageUrl a;
     cluster_id :=
       match DBArticle.clusterId a with
       | Some c => if bool_decide (c = EmptyString) then None else Some c
       | None => None
       end;
     embedding := JsonArray <$> DBArticle.embedding a;
     entities := DBArticle.entities a |}.

(** SQL [COALESCE(x, y)] *)
Definition COALESCE {A} (x y : option A) : option A :=
  match x with
  | Some _ => x
  | None => y
  end.

(** [ON CONFLICT(id) DO UPDATE SET fetched_at = excluded.fetched_at,
    headline = excluded.headline,
    image_url = COALESCE(image_url, excluded.image_url)] *)
Definition doUpdate (existing excluded : ArticleRow) : ArticleRow :=
  {| id := id existing;
     source_id := source_id existing;
     source_name := source_name existing;
     bias_rating := bias_rating existing;
     factuality := factuality existing;
     headline := headline excluded;
     url := url existing;
     pub_date := pub_date existing;
     fetched_at := fetched_at excluded;
     summary := summary existing;
     image_url := COALESCE (image_url existing) (image_url excluded);
     cluster_id := cluster_id existing;
     embedding := embedding existing;
     entities := entities existing |}.

Definition hasId (i : string) (rows : list ArticleRow) : bool :=
  existsb (λ r, bool_decide (id r = i)) rows.

(** The [UNIQUE] constraint of [url]: a non-null URL that a stored row
    already has. *)
Definition urlTaken (u : option string) (rows : list ArticleRow) : bool :=
  match u with
  | Some _ => existsb (λ r, bool_decide (url r = u)) rows
  | None => false
  end.

(** What one [stmt.run] of the upsert does to the table.  The conflict on
    [id] is resolved by the update; an insert that breaks the uniqueness of
    [url] fails and leaves the table as it is (what becomes of the
    transaction then is in [runStatements]); the foreign key of
    [cluster_id] is declared but not enforced, the connection never turning
    [foreign_keys] on. *)
Definition upsertArticle (rows : list ArticleRow) (a : DBArticle.t) : list ArticleRow :=
  let excluded := excludedRow a in
  if hasId (id excluded) rows then
    map (λ r, if bool_decide (id r = id excluded) then doUpdate r excluded else r) rows
  else if urlTaken (url excluded) rows then rows
  else rows ++ [excluded].

(** The [INSERT] of a [stmt.run] breaks the [UNIQUE] constraint of [url]:
    no row has the id, and a row has the URL. *)
Definition breaksUnique (rows : list ArticleRow) (a : DBArticle.t) : bool :=
  negb (hasId (DBArticle.id a) rows) && urlTaken (DBArticle.url a) rows.

(** The statements of the transaction, one [stmt.run] per article.
    [stmt.run] is given no callback, so the error of a failing statement
    is emitted as an [error] event that nothing listens to: the process
    ends there, before the [COMMIT].  [None] is that outcome. *)
Fixpoint runStatements (rows : list ArticleRow) (incoming : list DBArticle.t)
  : option (list ArticleRow) :=
  match incoming with
  | [] => Some rows
  | a :: rest =>
      if breaksUnique rows a then None
      else runStatements (upsertArticle rows a) rest
  end.

(** The transaction of [POST /api/articles]: the store once it has
    committed, or [None] when the process ends before the [COMMIT], the
    transaction being lost and the store staying as it was. *)
Definition upsertArticles (s : Store) (incoming : list DBArticle.t) : option Store :=
  rows ← runStatements (news_articles s) incoming;
  Some {| news_articles := rows; news_clusters := news_clusters s |}.

(** The store that a later request finds. *)
Definition storeAfter (s : Store) (incoming : list DBArticle.t) : Store :=
  default s (upsertArticles s incoming).

(** [cluster_id IS NULL AND pub_date > ?]: text compared byte by byte, a
    [NULL] date never passing. *)
Definition unclusteredSince (cutoffDate : string) (r : ArticleRow) : bool :=
  match cluster_id r, pub_date r with
  | None, Some d => String.ltb cutoffDate d
  | _, _ => false
  end.

(** [SELECT * FROM news_articles WHERE cluster_id IS NULL AND pub_date > ?
    LIMIT 50], over the rows in the order the scan of the table meets
    them. *)
Definition selectUnclustered (scan : list ArticleRow) (cutoffDate : string)
  : list ArticleRow :=
  take 50 (filter (λ r, unclusteredSince cutoffDate r = true) scan).

(** [UPDATE news_articles SET cluster_id = ? WHERE id IN (...)] *)
Definition setClusterId (clusterId : option string) (r : ArticleRow) : ArticleRow :=
  {| id := id r;
     source_id := source_id r;
     source_name := source_name r;
     bias_rating := bias_rating r;
     factuality := factuality r;
     headline := headline r;
     url := url r;
     pub_date := pub_date r;
     fetched_at := fetched_at r;
     summary := summary r;
     image_url := image_url r;
     cluster_id := clusterId;
     embedding := embedding r;
     entities := entities r |}.

Definition assignCluster (clusterId : string) (articleIds : list string)
    (rows : list ArticleRow) : list ArticleRow :=
  map (λ r, if bool_decide (id r ∈ articleIds) then setClusterId (Some clusterId) r else r)
      rows.

(** [c.category || 'General'] *)
Definition categoryOrGeneral (c : Labeled.t) : option string :=
  match Labeled.category c with
  | Some k => if bool_decide (k = EmptyString) then Some "General"%string else Some k
  | None => Some "General"%string
  end.

(** The [rowid] of a row inserted into [news_clusters]: one more than
    the largest in the table. *)
Definition nextRowid (clusters : gmap string ClusterRow) : nat :=
  S (map_fold (λ _ row largest, Nat.max (rowid row) largest) 0%nat clusters).

(** The [INSERT INTO news_clusters] of one labeled cluster followed by the
    [UPDATE] of its articles.  [fresh] is the identifier and the creation
    time generated for it; [None] is the error of the [INSERT]: a [NULL]
    headline or an identifier already in the table. *)
Definition insertCluster (category : Labeled.t → option string) (fresh : string * string)
    (c : Labeled.t) (s : Store) : option Store :=
  let '(clusterId, createdAt) := fresh in
  match Labeled.headline c, news_clusters s !! clusterId with
  | Some h, None =>
      Some {| news_clusters :=
                <[clusterId := {| rowid := nextRowid (news_clusters s);
                                  cl_headline := h;
                                  cl_summary := Labeled.summary c;
                                  cl_category := category c;
                                  main_image_url := bestImage (Labeled.articles c);
                                  created_at := createdAt;
                                  stats := computeStats (Labeled.articles c) |}]>
                  (news_clusters s);
              news_articles :=
                assignCluster clusterId (map (λ a : Article.t, id a) (Labeled.articles c))
                  (news_articles s) |}
  | _, _ => None
  end.

(** The [for] loop of a transaction over the labeled clusters; [fresh k] is
    the [k]-th identifier generated, [minted] the number generated so far. *)
Fixpoint insertClusters (category : Labeled.t → option string)
    (fresh : nat → string * string) (minted : nat) (labeled : list Labeled.t) (s : Store)
  : option Store * nat :=
  match labeled with
  | [] => (Some s, minted)
  | c :: rest =>
      match insertCluster category (fresh minted) c s with
      | Some s' => insertClusters category fresh (S minted) rest s'
      | None => (None, S minted)
      end
  end.

(** The transaction of the pipeline: [COMMIT] when every statement
    succeeds, [ROLLBACK] to the store as it was and an error otherwise. *)
Definition commitClusters (fresh : nat → string * string) (minted : nat)
    (labeled : list Labeled.t) (s : Store) : option Store * nat :=
  insertClusters categoryOrGeneral fresh minted labeled s.

(** The transaction of a split: the [DELETE] of the old cluster, then the
    inserts; [COMMIT], or [ROLLBACK] to the store as it was. *)
Definition splitTransaction (fresh : nat → string * string) (minted : nat)
    (oldId : string) (labeledSubClusters : list Labeled.t) (s : Store) : Store * nat :=
  let deleted :=
    {| news_articles := news_articles s;
       news_clusters := delete oldId (news_clusters s) |} in
  match insertClusters Labeled.category fresh minted labeledSubClusters deleted with
  | (Some s', minted') => (s', minted')
  | (None, minted') => (s, minted')
  end.

(** ** The coherence refiner *)

Definition COHERENCE_THRESHOLD : float := 0.60%float.

(** What a run obtains from outside. *)
Record Env := {
  clock : nat → float;              (* the successive readings of [Date.now()] *)
  ai : nat → Generation;            (* the outcome of each request to the generative model *)
  fresh : nat → string * string;    (* each generated cluster identifier with its creation time *)
  embedder : option (string → option vector);
  nerModel : option (string → option (list string));
  cutoffDate : string;              (* 72 hours ago, as an ISO string *)
  oneDayAgo : string;               (* 24 hours ago, as an ISO string *)
  enrichmentSettles : bool;         (* see [processPipeline] *)
  enrichmentStored : Article.t → bool
}.

(** The store together with the counters of what has been consumed. *)
Record World := {
  db : Store;
  calls : nat;
  minted : nat;
  ticks : nat
}.

(** [{ ...a, embedding: JSON.parse(a.embedding) }], or [null] when the
    parse throws. *)
Definition parseMember (a : ArticleRow) : option Article.t :=
  match JSON_parse (embedding a) with
  | Some e =>
      Some {| Article.row := a; Article.pubDate := None; Article.embedding := e;
              Article.entities := entities a |}
  | None => None
  end.

(** [a && a.embedding && a.embedding.length > 0] *)
Definition hasEmbedding (a : Article.t) : bool :=
  match Article.embedding a with
  | Some (_ :: _) => true
  | _ => false
  end.

Definition parseMembers (articlesRaw : list ArticleRow) : list Article.t :=
  filter (λ a, hasEmbedding a = true) (omap parseMember articlesRaw).

(** The element-wise sum of the embeddings, normalized. *)
Definition coherenceCentroid (members : list Article.t) : vector :=
  let zero :=
    match members with
    | first :: _ => replicate (length (default [] (Article.embedding first))) 0%float
    | [] => []
    end in
  normalizeVector
    (foldl (λ centroid a,
              default centroid
                (weightedVectorAdd (Some centroid) (Article.embedding a) 1%float 1%float))
           zero members).

Definition averageSimilarity (members : list Article.t) : float :=
  let centroid := coherenceCentroid members in
  let totalSim :=
    foldl (λ totalSim a,
             (totalSim + cosineSimilarity (Article.embedding a) (Some centroid))%float)
          0%float members in
  (totalSim / JS.of_nat (length members))%float.

(** The clusterer as the pipeline calls it: the clock is read from the
    current tick on, once per valid article. *)
Definition runClusterer (env : Env) (t : nat) (members : list Article.t)
  : option (list MicroCluster) :=
  clusterArticles (λ k, clock env (t + k)%nat) members.

Definition validCount (members : list Article.t) : nat :=
  length (filter (λ a, is_Some (Article.embedding a)) members).

(** The body of the loop of [refineClusters] for the cluster [clusterId];
    [None] is an exception, which ends the whole check. *)
Definition refineCluster (env : Env) (w : World) (clusterId : string) : option World :=
  let articlesRaw :=
    filter (λ a, cluster_id a = Some clusterId) (news_articles (db w)) in
  if decide (length articlesRaw < 4)%nat then Some w
  else
    let members := parseMembers articlesRaw in
    if decide (length members < 4)%nat then Some w
    else if (averageSimilarity members <? COHERENCE_THRESHOLD)%float then
      match runClusterer env (ticks w) members with
      | None => None
      | Some newMicroClusters =>
          let t' := (ticks w + validCount members)%nat in
          if decide (1 < length newMicroClusters)%nat then
            let '(labeledSubClusters, calls') :=
              generateLabels (ai env) (calls w) newMicroClusters in
            let '(s', minted') :=
              splitTransaction (fresh env) (minted w) clusterId labeledSubClusters (db w) in
            Some {| db := s'; calls := calls'; minted := minted'; ticks := t' |}
          else Some {| db := db w; calls := calls w; minted := minted w; ticks := t' |}
      end
    else Some w.

(** The loop over the clusters selected at the start; an exception stops
    it, what was committed before staying. *)
Fixpoint refineLoop (env : Env) (w : World) (clusterIds : list string) : World :=
  match clusterIds with
  | [] => w
  | clusterId :: rest =>
      match refineCluster env w clusterId with
      | Some w' => refineLoop env w' rest
      | None => w
      end
  end.

(** The order of the index [idx_clusters_created], on [created_at DESC]:
    the later creation first, and the smaller [rowid] first among rows
    created at the same time. *)
Definition newerFirst (x y : string * ClusterRow) : Prop :=
  String.ltb (created_at y.2) (created_at x.2) = true
  ∨ (created_at x.2 = created_at y.2 ∧ (rowid x.2 ≤ rowid y.2)%nat).

Global Instance newerFirst_dec : RelDecision newerFirst :=
  λ x y,
    decide (String.ltb (created_at y.2) (created_at x.2) = true
            ∨ (created_at x.2 = created_at y.2 ∧ (rowid x.2 ≤ rowid y.2)%nat)).

(** [SELECT * FROM news_clusters WHERE created_at > ?]: the rows that
    pass, in the order of the index on [created_at] through which the
    range is read. *)
Definition recentClusters (oneDayAgo : string) (clusters : gmap string ClusterRow)
  : list string :=
  (merge_sort newerFirst
     (map_to_list (filter (λ kv, String.ltb oneDayAgo (created_at kv.2) = true) clusters))).*1.

Definition refineClusters (env : Env) (w : World) : World :=
  refineLoop env w (recentClusters (oneDayAgo env) (news_clusters (db w))).

(** ** The pipeline route *)

(** [{ ...row, embedding: row.embedding ? JSON.parse(row.embedding) : undefined, ... }];
    [None] when the parse throws. *)
Definition rowToArticle (r : ArticleRow) : option Article.t :=
  match JSON_parse (embedding r) with
  | Some e =>
      Some {| Article.row := r; Article.pubDate := None; Article.embedding := e;
              Article.entities := entities r |}
  | None => None
  end.

Fixpoint rowsToArticles (rows : list ArticleRow) : option (list Article.t) :=
  match rows with
  | [] => Some []
  | r :: rest =>
      match rowToArticle r, rowsToArticles rest with
      | Some a, Some l => Some (a :: l)
      | _, _ => None
      end
  end.

(** [UPDATE news_articles SET embedding = ?, entities = ? WHERE id = ?] *)
Definition persistEnrichment (enriched : list Article.t) (rows : list ArticleRow)
  : list ArticleRow :=
  foldl (λ rows (a : Article.t),
           map (λ r,
                  if bool_decide (id r = id a) then
                    {| id := id r; source_id := source_id r; source_name := source_name r;
                       bias_rating := bias_rating r; factuality := factuality r;
                       headline := headline r; url := url r; pub_date := pub_date r;
                       fetched_at := fetched_at r; summary := summary r;
                       image_url := image_url r; cluster_id := cluster_id r;
                       embedding := JsonArray <$> Article.embedding a;
                       entities := Article.entities a |}
                  else r) rows)
        rows enriched.

Inductive Response :=
| Maintenance
| Success (clustersGenerated : nat)
| Failure.

(** [POST /api/pipeline/process].

    The transaction that stores the enrichment is queued by [db.serialize]
    and not awaited: the route goes on while it runs.  When the route
    awaits no request to the generative model before it begins its own
    transaction (there is nothing to label), or when the requests return
    before the enrichment has committed ([enrichmentSettles env] is
    [false]), the [BEGIN] of the route meets a transaction that is still
    open and fails.  The run then answers with the error, without a
    cluster inserted and without the coherence check; which [UPDATE]s of
    the enrichment end up stored depends on where the [ROLLBACK] of the
    route falls among them, and is what [enrichmentStored env] tells. *)
Definition processPipeline (env : Env) (w : World) : World * Response :=
  let rows := selectUnclustered (news_articles (db w)) (cutoffDate env) in
  if decide (length rows < 2)%nat then (refineClusters env w, Maintenance)
  else
    match rowsToArticles rows with
    | None => (w, Failure)
    | Some articles =>
        match enrichArticles (embedder env) (nerModel env) articles with
        | None => (w, Failure)
        | Some enrichedArticles =>
            let persisted :=
              {| news_articles := persistEnrichment enrichedArticles (news_articles (db w));
                 news_clusters := news_clusters (db w) |} in
            match runClusterer env (ticks w) enrichedArticles with
            | None =>
                ({| db := persisted; calls := calls w; minted := minted w;
                    ticks := ticks w |}, Failure)
            | Some rawClusters =>
                let t' := (ticks w + validCount enrichedArticles)%nat in
                let '(labeled, calls') := generateLabels (ai env) (calls w) rawClusters in
                if enrichmentSettles env && negb (calls' =? calls w)%nat then
                  match commitClusters (fresh env) (minted w) labeled persisted with
                  | (Some s', minted') =>
                      (refineClusters env
                         {| db := s'; calls := calls'; minted := minted'; ticks := t' |},
                       Success (length labeled))
                  | (None, minted') =>
                      ({| db := persisted; calls := calls'; minted := minted'; ticks := t' |},
                       Failure)
                  end
                else
                  ({| db :=
                        {| news_articles :=
                             persistEnrichment
                               (filter (λ a, enrichmentStored env a = true) enrichedArticles)
                               (news_articles (db w));
                           news_clusters := news_clusters (db w) |};
                      calls := calls'; minted := minted w; ticks := t' |},
                   Failure)
            end
        end
    end.

(** ** The entity tagger of the enricher *)

(** A token of the tagger's output: its word piece and its tag. *)
Module Token.
Record t := { word : string; entity : string }.
End Token.

(** [word.replace('##', '')]: the first occurrence of [##] is removed. *)
Fixpoint removeFirstHashes (s : string) : string :=
  match s with
  | String "#" (String "#" rest) => rest
  | String c rest => String c (removeFirstHashes rest)
  | EmptyString => EmptyString
  end.

(** [entities.add(e)] on a [Set], which keeps the order of insertion. *)
Definition setAdd (e : string) (entities0 : list string) : list string :=
  if bool_decide (e ∈ entities0) then entities0 else entities0 ++ [e].

(** [if (currentEntity) entities.add(currentEntity)] *)
Definition flushEntity (currentEntity : string) (entities0 : list string) : list string :=
  match currentEntity with
  | EmptyString => entities0
  | _ => setAdd currentEntity entities0
  end.

(** The [for] loop over the tokens, from the set and the current entity
    built so far. *)
Fixpoint decodeTokens (tokens : list Token.t) (entities0 : list string)
    (currentEntity : string) : list string * string :=
  match tokens with
  | [] => (entities0, currentEntity)
  | token :: rest =>
      let word := removeFirstHashes (Token.word token) in
      if String.prefix "B-" (Token.entity token)
         || (String.prefix "I-" (Token.entity token) && String.eqb currentEntity "")
      then decodeTokens rest (flushEntity currentEntity entities0) word
      else if String.prefix "I-" (Token.entity token)
      then decodeTokens rest entities0 (currentEntity ++ word)
      else decodeTokens rest (flushEntity currentEntity entities0) EmptyString
  end.

(** The entity list of a text: the loop, the last flush, and
    [Array.from(entities).filter(e => e.length > 2)]. *)
Definition extractEntities (tokens : list Token.t) : list string :=
  let '(entities0, currentEntity) := decodeTokens tokens [] EmptyString in
  filter (λ e, (2 < String.length e)%nat) (flushEntity currentEntity entities0).

(** The [nerModel] argument of [enrichArticle] for a tagger: an exception
    of the tagger is an exception of the extraction. *)
Definition taggerModel (tagger : string → option (list Token.t))
  : string → option (list string) :=
  λ text, extractEntities <$> tagger text.

(** ** The browser side: requests to the backend *)

Module Http.

(** A response, with what [response.json()] gives ([None] when it
    throws). *)
Record Reply := { status : Z; json : option string }.

(** [response.ok]: a status from 200 to 299. *)
Definition ok (res : Reply) : bool := (200 <=? status res) && (status res <=? 299).

(** How a call of [fetch] ends: it rejects, or resolves with a response. *)
Inductive Outcome :=
| Rejects (reason : string)
| Responds (res : Reply).

Inductive Error :=
| FetchError (reason : string)
| ServerReturned (status : Z)     (* [new Error(`Server returned ${res.status}`)] *).

(** What [fetchWithRetry] comes to: the response it returns, or the error
    it throws ([None] for [undefined], when no attempt was made). *)
Inductive Fetched :=
| Returned (res : Reply)
| Threw (lastError : option Error).

End Http.

(** The [try] block of [fetchWithRetry]: the response, or the error that
    takes the [catch]. *)
Definition attempt (outcome : Http.Outcome) : Http.Reply + Http.Error :=
  match outcome with
  | Http.Rejects reason => inr (Http.FetchError reason)
  | Http.Responds res =>
      if negb (Http.ok res)
         && ((Http.status res =? 502) || (Http.status res =? 503) || (Http.status res =? 504))
      then inr (Http.ServerReturned (Http.status res))
      else inl res
  end.

(** The loop of [fetchWithRetry] from the iteration [i] on, with
    [remaining] iterations to go; [fetch i] is how the call of that
    iteration ends, and [waited] lists the delays slept so far, in
    milliseconds. *)
Fixpoint retryFrom (fetch : nat → Http.Outcome) (retries remaining i : nat)
    (lastError : option Http.Error) (waited : list Z) : Http.Fetched * list Z :=
  match remaining with
  | O => (Http.Threw lastError, waited)
  | S remaining' =>
      match attempt (fetch i) with
      | inl res => (Http.Returned res, waited)
      | inr e =>
          let waited' :=
            if Z.of_nat i <? Z.of_nat retries - 1 then waited ++ [500 * 2 ^ Z.of_nat i]
            else waited in
          retryFrom fetch retries remaining' (S i) (Some e) waited'
      end
  end.

Definition fetchWithRetry (fetch : nat → Http.Outcome) (retries : nat)
  : Http.Fetched * list Z :=
  retryFrom fetch retries retries 0 None [].

(** The answer of [triggerPipeline]: the JSON of the response, or
    [{ success: false, message: "Failed to trigger pipeline" }]. *)
Inductive Triggered :=
| PipelineResult (payload : string)
| FailedToTrigger.

(** The retry loop of [triggerPipeline] from the iteration [i] on:
    the last response assigned, the delays slept, and the number of
    requests made. *)
Fixpoint triggerLoop (fetch : nat → Http.Outcome) (remaining i : nat)
    (response : option Http.Reply) (waited : list Z)
  : option Http.Reply * list Z * nat :=
  match remaining with
  | O => (response, waited, i)
  | S remaining' =>
      let caught := if (i <? 2)%nat then waited ++ [2000] else waited in
      match fetch i with
      | Http.Responds res =>
          if Http.ok res then (Some res, waited, S i)
          else if 500 <=? Http.status res
          then triggerLoop fetch remaining' (S i) (Some res) caught
          else triggerLoop fetch remaining' (S i) (Some res) waited
      | Http.Rejects _ => triggerLoop fetch remaining' (S i) response caught
      end
  end.

Definition triggerPipeline (fetch : nat → Http.Outcome) : Triggered * list Z * nat :=
  let '(response, waited, requests) := triggerLoop fetch 3 0 None [] in
  (match response with
   | Some res =>
       if Http.ok res then
         match Http.json res with
         | Some payload => PipelineResult payload
         | None => FailedToTrigger
         end
       else FailedToTrigger
   | None => FailedToTrigger
   end, waited, requests).

(** ** The browser side: ingestion helpers *)

(** [ToInt32]: a number wrapped to a signed 32-bit integer. *)
Definition ToInt32 (z : Z) : Z := (z + 2 ^ 31) mod 2 ^ 32 - 2 ^ 31.

(** The callback of the [reduce] in [generateId]:
    [a = ((a << 5) - a) + b.charCodeAt(0); return a & a]. *)
Definition hashStep (a b : Z) : Z :=
  let a' := ToInt32 (ToInt32 a * 2 ^ 5) - a + b in
  Z.land (ToInt32 a') (ToInt32 a').

(** The number [generateId] prints, for the UTF-16 code units of the
    URL. *)
Definition hashCode (units : list Z) : Z := foldl hashStep 0 units.

Definition digit36 (d : Z) : ascii :=
  if d <? 10 then ascii_of_nat (48 + Z.to_nat d) else ascii_of_nat (87 + Z.to_nat d).

Fixpoint digits36 (fuel : nat) (n : Z) (acc : string) : string :=
  match fuel with
  | O => acc
  | S fuel' =>
      if n <? 36 then String (digit36 n) acc
      else digits36 fuel' (n / 36) (String (digit36 (n mod 36)) acc)
  end.

(** [n.toString(36)] for an integer. *)
Definition toString36 (n : Z) : string :=
  if n <? 0 then String "-" (digits36 (S (Z.to_nat (Z.log2 (- n)))) (- n) EmptyString)
  else digits36 (S (Z.to_nat (Z.log2 n))) n EmptyString.

(** [generateId]: the hash in base 36 followed by the length of the URL. *)
Definition generateId (units : list Z) : string :=
  (toString36 (hashCode units)
   ++ DecimalString.NilZero.string_of_uint (Nat.to_uint (length units)))%string.

(** [description.replace(/<[^>]*>/g, '')], in one pass: [pending] holds
    the text from an opening [<] on while no [>] has been met; a [>]
    discards it, and the end of the text gives it back. *)
Fixpoint stripFrom (s : string) (pending : option string) : string :=
  match s, pending with
  | EmptyString, None => EmptyString
  | EmptyString, Some held => held
  | String c s', None =>
      if Ascii.eqb c "<" then stripFrom s' (Some (String c EmptyString))
      else String c (stripFrom s' None)
  | String c s', Some held =>
      if Ascii.eqb c ">" then stripFrom s' None
      else stripFrom s' (Some (held ++ String c EmptyString)%string)
  end.

Definition stripTags (description : string) : string := stripFrom description None.

(** The summary of an ingested article:
    [description.replace(/<[^>]*>/g, '').trim().substring(0, 200) + "..."]. *)
Definition summaryOf (description : string) : string :=
  (String.substring 0 200 (trim (stripTags description)) ++ "...")%string.

(** * The vocabulary of the specification *)

(** ** The clusterer *)

(** The time check of the clusterer: [time] is more than 48 hours away
    from the latest time of the cluster. *)
Definition outOfWindow (time : float) (cluster : MicroCluster) : bool :=
  (MAX_TIME_DIFF_MS <? abs (time - latestTime cluster))%float.

(** The duplicate check between an incoming article and a member: equal
    headlines once lowered and trimmed, or a cosine similarity of at least
    0.90. *)
Definition isDuplicateOf (article existing : Article.t) : bool :=
  match headline existing, headline article with
  | Some e, Some h => bool_decide (trim (toLowerCase e) = trim (toLowerCase h))
  | _, _ => false
  end
  || (DUPLICATE_THRESHOLD <=?
        cosineSimilarity (Article.embedding article) (Article.embedding existing))%float.

(** ** Sample data *)

Definition sampleRow (i : string) (h : string) (bias : string) (date : string)
    (cluster : option string) (e : option EmbeddingText) : ArticleRow :=
  {| id := i; source_id := Some "src"%string; source_name := Some "Source"%string;
     bias_rating := Some bias; factuality := Some "High"%string; headline := Some h;
     url := Some ("https://example.org/" ++ i)%string; pub_date := Some date;
     fetched_at := Some date; summary := Some "summary"%string; image_url := None;
     cluster_id := cluster; embedding := e; entities := None |}.

Definition sampleArticle (i : string) (h : string) (time : option float) (v : vector)
  : Article.t :=
  {| Article.row := sampleRow i h "Center" "2026-01-01T00:00:00.000Z" None (Some (JsonArray v));
     Article.pubDate := time;
     Article.embedding := Some v;
     Article.entities := None |}.

(** Scenario times: [T], [T] plus one hour and [T] plus 49 hours, in
    milliseconds. *)
Definition T0 : float := 1700000000000%float.
Definition T1h : float := 1700003600000%float.
Definition T49h : float := 1700176400000%float.

Definition A1 : Article.t :=
  sampleArticle "a1" "Parliament passes bill X" (Some T0) [1; 0]%float.
Definition A1' : Article.t :=
  sampleArticle "a1b" "  PARLIAMENT passes Bill X " (Some T1h) [1; 0]%float.
Definition A3 : Article.t :=
  sampleArticle "a3" "Parliament passes bill X" (Some T49h) [1; 0]%float.

(** The same two reports as a spread of their rows leaves them: without a
    [pubDate] property, their time being the reading of the clock. *)
Definition R1 : Article.t :=
  sampleArticle "a1" "Parliament passes bill X" None [1; 0]%float.
Definition R1' : Article.t :=
  sampleArticle "a1b" "  PARLIAMENT passes Bill X " None [1; 0]%float.

Definition tickingClock (k : nat) : float := (T0 + JS.of_nat k)%float.

(** ** The store *)

(** Oldest first by [pub_date]: no row is followed, anywhere later in the
    list, by a row with a strictly earlier date. *)
Definition notNewer (r1 r2 : ArticleRow) : Prop :=
  match pub_date r1, pub_date r2 with
  | Some d1, Some d2 => String.leb d1 d2 = true
  | _, _ => True
  end.

Definition oldestFirst (rows : list ArticleRow) : Prop := StronglySorted notNewer rows.

(** The columns of a row that the upsert is not to touch on a conflict. *)
Definition sameOtherColumns (r r' : ArticleRow) : Prop :=
  id r' = id r ∧ source_id r' = source_id r ∧ source_name r' = source_name r ∧
  bias_rating r' = bias_rating r ∧ factuality r' = factuality r ∧ url r' = url r ∧
  pub_date r' = pub_date r ∧ summary r' = summary r ∧ cluster_id r' = cluster_id r ∧
  embedding r' = embedding r ∧ entities r' = entities r.

Definition emptyStore : Store := {| news_articles := []; news_clusters := ∅ |}.

Definition sampleDBArticle (i h date : string) (image : option string) : DBArticle.t :=
  {| DBArticle.id := i; DBArticle.sourceId := Some "src"%string;
     DBArticle.sourceName := Some "Source"%string;
     DBArticle.biasRating := Some "Center"%string;
     DBArticle.factuality := Some "High"%string;
     DBArticle.headline := Some h;
     DBArticle.url := Some ("https://example.org/" ++ i)%string;
     DBArticle.pubDate := Some date; DBArticle.fetchedAt := Some date;
     DBArticle.summary := Some "summary"%string; DBArticle.imageUrl := image;
     DBArticle.clusterId := None; DBArticle.embedding := None;
     DBArticle.entities := None |}.

(** A feed ingested newest item first, as feeds list them. *)
Definition newerItem : DBArticle.t :=
  sampleDBArticle "n2" "Budget vote tonight" "2026-01-02T10:00:00.000Z" None.
Definition olderItem : DBArticle.t :=
  sampleDBArticle "n1" "Budget debate opens" "2026-01-01T10:00:00.000Z" None.

Definition ingestedStore : Store := storeAfter emptyStore [newerItem; olderItem].

(** A stored article with an image, and its re-fetch without one. *)
Definition storedWithImage : ArticleRow :=
  excludedRow
    (sampleDBArticle "n3" "Court ruling due" "2026-01-01T08:00:00.000Z"
       (Some "https://example.org/n3.jpg"%string)).
Definition refetched : DBArticle.t :=
  sampleDBArticle "n3" "Court ruling delivered" "2026-01-01T09:00:00.000Z" None.

(** ** The labeler *)

(** The answer has the shape the prompt asks for: an object with the three
    fields. *)
Definition schemaOk (data : JsonData) : bool :=
  match data with
  | JsonObject (Some _) (Some _) (Some _) => true
  | _ => false
  end.

(** A request that fails in the sense of the specification: in transport,
    in parsing, or by the schema of the parsed answer. *)
Definition generationFails (g : Generation) : bool :=
  match g with
  | CallThrows | ParseThrows => true
  | Parsed data => negb (schemaOk data)
  end.

Definition singleton (a : Article.t) (time : float) : MicroCluster := newCluster a time.

(** A model that answers [{}]: valid JSON, but without any of the three
    fields. *)
Definition emptyObjectAi (_ : nat) : Generation := Parsed (JsonObject None None None).

(** A model that answers the JSON string ["oops"]: valid JSON, but not an
    object. *)
Definition oopsAi (_ : nat) : Generation := Parsed JsonOther.

(** A model whose first request fails in transport and whose later
    requests succeed. *)
Definition goodAnswer : JsonData :=
  JsonObject (Some "Parliament passes bill X"%string)
             (Some "The bill passed."%string) (Some "Politics"%string).

Definition flakyAi (n : nat) : Generation :=
  match n with
  | O => CallThrows
  | S _ => Parsed goodAnswer
  end.

(** ** The split transaction *)

Definition sampleIds (prefix : string) (k : nat) : string * string :=
  match k with
  | O => (prefix ++ "1", "2026-01-02T12:00:00.000Z")
  | 1%nat => (prefix ++ "2", "2026-01-02T12:00:00.001Z")
  | 2%nat => (prefix ++ "3", "2026-01-02T12:00:00.002Z")
  | 3%nat => (prefix ++ "4", "2026-01-02T12:00:00.003Z")
  | S (S (S (S k'))) =>
      (prefix ++ "5" ++ String.string_of_list_ascii (repeat "x"%char k'),
       "2026-01-02T12:00:01.000Z")
  end%string.

Definition splitIds : nat → string * string := sampleIds "cluster-split-".

Definition labeledOf (h : string) (members : list Article.t) : Labeled.t :=
  {| Labeled.headline := Some h; Labeled.summary := Some "summary"%string;
     Labeled.category := Some "Politics"%string; Labeled.articles := members |}.

Definition sampleClusterRow (n : nat) (h created : string) (total : nat) : ClusterRow :=
  {| rowid := n; cl_headline := h; cl_summary := Some "summary"%string;
     cl_category := Some "General"%string; main_image_url := None;
     created_at := created;
     stats :=
       {| totalSources := total;
          biasDistribution :=
            {| BiasDistribution.left := 0; BiasDistribution.center := 100;
               BiasDistribution.right := 0 |};
          blindspot := Blindspot.None |} |}.

(** The store after another run has split the cluster [c1] of two
    articles: [c1] is gone and the articles belong to the replacements
    that run inserted. *)
Definition alreadySplitStore : Store :=
  {| news_articles :=
       [sampleRow "a1" "Parliament passes bill X" "Center" "2026-01-01T10:00:00.000Z"
          (Some "cluster-split-A"%string) (Some (JsonArray [1; 0]%float));
        sampleRow "a2" "Monsoon arrives early" "Center" "2026-01-01T11:00:00.000Z"
          (Some "cluster-split-B"%string) (Some (JsonArray [0; 1]%float))];
     news_clusters :=
       {[ "cluster-split-A"%string :=
            sampleClusterRow 1 "Parliament passes bill X" "2026-01-02T11:59:59.000Z" 1;
          "cluster-split-B"%string :=
            sampleClusterRow 2 "Monsoon arrives early" "2026-01-02T11:59:59.001Z" 1 ]} |}.

Definition twoSubClusters : list Labeled.t :=
  [labeledOf "Parliament passes bill X"
     [sampleArticle "a1" "Parliament passes bill X" None [1; 0]%float];
   labeledOf "Monsoon arrives early"
     [sampleArticle "a2" "Monsoon arrives early" None [0; 1]%float]].

(** ** The statistics, as the specification words them *)

(** The members whose bias rating contains Left, and among the others
    those whose bias rating contains Right. *)
Definition leftCount (members : list Article.t) : nat :=
  length (filter (λ a, hasBias "Left" a = true) members).

Definition rightCount (members : list Article.t) : nat :=
  length (filter (λ a, hasBias "Left" a = false ∧ hasBias "Right" a = true) members).

(** [round(num / den)] for a positive [den]: the nearest integer, a half
    going up. *)
Definition roundHalfUp (num den : Z) : Z := (2 * num + den) / (2 * den).

Definition specLeftPct (members : list Article.t) : Z :=
  roundHalfUp (100 * Z.of_nat (leftCount members)) (Z.of_nat (length members)).

Definition specRightPct (members : list Article.t) : Z :=
  roundHalfUp (100 * Z.of_nat (rightCount members)) (Z.of_nat (length members)).

Definition specBlindspot (leftPct rightPct : Z) : Blindspot.t :=
  if (rightPct <? 15) && (50 <? leftPct) then Blindspot.Right
  else if (leftPct <? 15) && (50 <? rightPct) then Blindspot.Left
  else Blindspot.None.

Definition specStats (members : list Article.t) : Stats :=
  let leftPct := specLeftPct members in
  let rightPct := specRightPct members in
  {| totalSources := length members;
     biasDistribution :=
       {| BiasDistribution.left := JS.of_Z leftPct;
          BiasDistribution.center := JS.of_Z (100 - leftPct - rightPct);
          BiasDistribution.right := JS.of_Z rightPct |};
     blindspot := specBlindspot leftPct rightPct |}.

(** What the floating-point expression [Math.round((count / total) * 100)]
    comes to for the totals of a run: the exact rounding, except for 23 of
    40, where the product is just below 57.5. *)
Definition percentOf (count total : nat) : Z :=
  if bool_decide (count = 23 ∧ total = 40)%nat then 57
  else roundHalfUp (100 * Z.of_nat count) (Z.of_nat total).

Definition roundedStats (members : list Article.t) : Stats :=
  let leftPct := percentOf (leftCount members) (length members) in
  let rightPct := percentOf (rightCount members) (length members) in
  {| totalSources := length members;
     biasDistribution :=
       {| BiasDistribution.left := JS.of_Z leftPct;
          BiasDistribution.center := JS.of_Z (100 - leftPct - rightPct);
          BiasDistribution.right := JS.of_Z rightPct |};
     blindspot := specBlindspot leftPct rightPct |}.

(** The agreement of the floating-point percentage with [percentOf],
    checked count by count for a given total. *)
Definition percentageAgrees (total count : nat) : bool :=
  Leibniz.eqb (percentage count total) (JS.of_Z (percentOf count total)).

Definition percentageTable (maxTotal : nat) : bool :=
  forallb (λ total, forallb (percentageAgrees total) (seq 0 (S total))) (seq 1 maxTotal).

(** The arithmetic and the comparisons of the statistics on two whole
    percentages agree with those on integers. *)
Definition arithmeticAgrees (l r : nat) : bool :=
  let fl := JS.of_Z (Z.of_nat l) in
  let fr := JS.of_Z (Z.of_nat r) in
  Leibniz.eqb (100 - fl - fr)%float (JS.of_Z (100 - Z.of_nat l - Z.of_nat r)) &&
  Leibniz.eqb (fl + (100 - fl - fr) + fr)%float 100%float &&
  Bool.eqb (fl <? 15)%float (Z.of_nat l <? 15) &&
  Bool.eqb (50 <? fl)%float (50 <? Z.of_nat l).

Definition arithmeticTable (bound : nat) : bool :=
  forallb (λ l, forallb (arithmeticAgrees l) (seq 0 bound)) (seq 0 bound).

(** The total number of members of a list of clusters. *)
Definition totalMembers (clusters : list MicroCluster) : nat :=
  sum_list_with (λ c, length (articles c)) clusters.

(** A cluster of 40 reports, 23 of them from outlets rated Left. *)
Definition numbered (bias : string) (k : nat) : Article.t :=
  {| Article.row :=
       sampleRow (String.string_of_list_ascii (repeat "i"%char (S k)) ++ bias)
         "Parliament passes bill X" bias "2026-01-01T00:00:00.000Z" None
         (Some (JsonArray [1; 0]%float));
     Article.pubDate := None;
     Article.embedding := Some [1; 0]%float;
     Article.entities := None |}.

Definition fortyReports : list Article.t :=
  map (numbered "Left") (seq 0 23) ++ map (numbered "Center") (seq 0 17).

(** The fourth scenario of the specification: ten members, seven Left,
    one Center, two Center Right. *)
Definition tenReports : list Article.t :=
  map (numbered "Left") (seq 0 7) ++ [numbered "Center" 0] ++
  map (numbered "Center Right") (seq 0 2).

(** ** Referential integrity *)

(** Every article's [cluster_id] is null or the key of a stored cluster. *)
Definition references (s : Store) (r : ArticleRow) : bool :=
  match cluster_id r with
  | None => true
  | Some c => bool_decide (is_Some (news_clusters s !! c))
  end.

Definition referentialIntegrity (s : Store) : Prop :=
  Forall (λ r, references s r = true) (news_articles s).

(** A cluster [c1] of six articles on four unrelated subjects: four have
    pairwise orthogonal embeddings, one has no stored embedding and one has
    an embedding text that does not parse. *)
Definition memberRow (i h : string) (e : option EmbeddingText) : ArticleRow :=
  sampleRow i h "Center" "2026-01-02T09:00:00.000Z" (Some "c1"%string) e.

Definition incoherentStore : Store :=
  {| news_articles :=
       [memberRow "a1" "Parliament passes bill X" (Some (JsonArray [1; 0; 0; 0]%float));
        memberRow "a2" "Monsoon arrives early" (Some (JsonArray [0; 1; 0; 0]%float));
        memberRow "a3" "Cup final goes to extra time" (Some (JsonArray [0; 0; 1; 0]%float));
        memberRow "a4" "Rupee steady against dollar" (Some (JsonArray [0; 0; 0; 1]%float));
        memberRow "a5" "Metro line opens" None;
        memberRow "a6" "Film festival begins" (Some Unparsable)];
     news_clusters :=
       {[ "c1"%string := sampleClusterRow 1 "Day in review" "2026-01-02T10:00:00.000Z" 6 ]} |}.

Definition sampleEnv : Env :=
  {| clock := tickingClock;
     ai := λ _, Parsed goodAnswer;
     fresh := splitIds;
     embedder := None;
     nerModel := None;
     cutoffDate := "2025-12-30T12:00:00.000Z";
     oneDayAgo := "2026-01-01T12:00:00.000Z";
     enrichmentSettles := true;
     enrichmentStored := λ _, true |}.

Definition startOf (s : Store) : World := {| db := s; calls := 0; minted := 0; ticks := 0 |}.

(** The store after the coherence check has run on [incoherentStore]. *)
Definition afterSplit : Store := db (refineClusters sampleEnv (startOf incoherentStore)).

(** ** A run of the pipeline on forty reports of one story *)

Definition fortyRows : list ArticleRow := map Article.row fortyReports.

Definition runEnv : Env :=
  {| clock := tickingClock;
     ai := λ _, Parsed goodAnswer;
     fresh := sampleIds "cluster-";
     embedder := Some (λ _, Some [1; 0]%float);
     nerModel := None;
     cutoffDate := "2025-12-30T12:00:00.000Z";
     oneDayAgo := "2026-01-01T12:00:00.000Z";
     enrichmentSettles := true;
     enrichmentStored := λ _, true |}.

Definition afterRun : World * Response :=
  processPipeline runEnv (startOf {| news_articles := fortyRows; news_clusters := ∅ |}).

(** Two stored reports with the same headline, published 58 hours
    apart. *)
Definition earlyRow : ArticleRow :=
  sampleRow "e1" "Parliament passes bill X" "Center" "2025-12-31T00:00:00.000Z" None
    (Some (JsonArray [1; 0]%float)).
Definition lateRow : ArticleRow :=
  sampleRow "e2" "Parliament passes bill X" "Left" "2026-01-02T10:00:00.000Z" None
    (Some (JsonArray [1; 0]%float)).

(** * Further vocabulary *)

(** ** The clusterer *)

(** The members of all the clusters, cluster after cluster. *)
Definition allMembers (clusters : list MicroCluster) : list Article.t :=
  concat (map articles clusters).

(** The articles the clusterer works on: those with an embedding. *)
Definition validArticlesOf (articles0 : list Article.t) : list Article.t :=
  filter (λ a, is_Some (Article.embedding a)) articles0.

(** The similarity of an article to the centroid of a cluster. *)
Definition centroidSim (article : Article.t) (cluster : MicroCluster) : float :=
  cosineSimilarity (Article.embedding article) (Some (centroid cluster)).

(** The centroid of a cluster has the dimension of the embedding of its
    first member. *)
Definition centroidFits (cluster : MicroCluster) : Prop :=
  match articles cluster with
  | first :: _ => length (centroid cluster) = length (default [] (Article.embedding first))
  | [] => False
  end.

(** A second report of the first scenario of the specification, with
    another headline and a similarity of 0.8 to [A1]. *)
Definition A2 : Article.t :=
  sampleArticle "a2" "Parliament clears bill X on second reading" (Some T1h)
    [0.8; 0.6]%float.

(** A report on another subject, orthogonal to [A1]. *)
Definition B1 : Article.t :=
  sampleArticle "b1" "Monsoon arrives early" (Some T1h) [0; 1]%float.

(** A cluster that the scan passes over without a match below the
    threshold: out of the window, or without a duplicate and with a
    similarity under 0.55. *)
Definition tooFar (article : Article.t) (time : float) (c : MicroCluster) : Prop :=
  outOfWindow time c = true ∨
  (duplicateMatch (articles c) article = Some false ∧
   (CLUSTERING_THRESHOLD <=? centroidSim article c)%float = false).

(** A cluster that loses to a similarity [s]: out of the window, or
    without a duplicate and strictly less similar than [s]. *)
Definition losesTo (article : Article.t) (time : float) (s : float) (c : MicroCluster)
  : Prop :=
  outOfWindow time c = true ∨
  (duplicateMatch (articles c) article = Some false ∧ (centroidSim article c <? s)%float = true).

(** A cluster that does not beat a similarity [s]: out of the window, or
    without a duplicate and not strictly more similar than [s]. *)
Definition doesNotBeat (article : Article.t) (time : float) (s : float) (c : MicroCluster)
  : Prop :=
  outOfWindow time c = true ∨
  (duplicateMatch (articles c) article = Some false ∧ (s <? centroidSim article c)%float = false).


(** Text of the ASCII range: every code unit is below 128.  Such a text
    is the same sequence of characters whether it is read by its code
    units or by the bytes of its UTF-8 encoding, so what is stated of it
    does not depend on how a headline is written down. *)
Definition asciiText (s : string) : bool :=
  forallb (λ c, (nat_of_ascii c <? 128)%nat) (list_ascii_of_string s).

Definition asciiHeadline (a : Article.t) : Prop :=
  match headline a with
  | Some h => asciiText h = true
  | None => True
  end.

Definition asciiHeadlines (clusters : list MicroCluster) : Prop :=
  Forall (λ c, Forall asciiHeadline (articles c)) clusters.

(** Three clusters that a run has built from [B1], [A1] and [A3], in
    that order: [A3] has the headline and the vector of [A1] and came 49
    hours later, so it did not join the cluster of [A1]. *)
Definition threeClusters : list MicroCluster :=
  [newCluster B1 T1h; newCluster A1 T0; newCluster A3 T49h].

(** The headline ÉLECTION EN INDE in capitals and in small letters: É is
    the code unit 201 and é the code unit 233. *)
Definition headlineInCapitals : string :=
  String (ascii_of_nat 201) "LECTION EN INDE".
Definition headlineInSmall : string :=
  String (ascii_of_nat 233) "lection en inde".

(** ** The labeler and the enricher *)

(** The label that the request of index [n] gives a cluster with the
    members [first :: rest]. *)
Definition labelOf (ai : nat → Generation) (n : nat) (first : Article.t)
    (rest : list Article.t) : Labeled.t :=
  match ai n with
  | Parsed data => spreadLabel data (first :: rest)
  | CallThrows | ParseThrows => fallbackLabel first (first :: rest)
  end.

(** The text of an article that is embedded and tagged:
    [`${article.headline}. ${article.summary}`]. *)
Definition fullTextOf (a : Article.t) : string :=
  (interpolate (headline a) ++ ". " ++ interpolate (summary a))%string.

(** The entities found in a text: none when the tagger is disabled or
    throws. *)
Definition entityListOf (nerModel : option (string → option (list string)))
    (text : string) : list string :=
  match nerModel with
  | Some ner => default [] (ner text)
  | None => []
  end.

(** The article with a vector, normalized, and an entity list written
    onto it. *)
Definition analysed (a : Article.t) (v : vector) (ents : list string) : Article.t :=
  {| Article.row := Article.row a;
     Article.pubDate := Article.pubDate a;
     Article.embedding := Some (normalizeVector v);
     Article.entities := Some ents |}.

(** The fusion of the vector of the text with the vector of the
    entities. *)
Definition fused (textVector entityVector : vector) : vector :=
  imap (λ i val, (val * TEXT_WEIGHT + default nan (entityVector !! i) * ENTITY_WEIGHT)%float)
       textVector.

(** A member without a usable image: no image URL, or an empty one. *)
Definition noImage (a : Article.t) : Prop :=
  image_url a = None ∨ image_url a = Some EmptyString.

(** An embedding model that knows one text only. *)
Definition pickyEmbedder (text : string) : option vector :=
  if bool_decide (text = "Parliament passes bill X. summary"%string)
  then Some [3; 4]%float else None.

Definition withImage (a : Article.t) (u : option string) : Article.t :=
  {| Article.row :=
       {| id := id a; source_id := source_id a; source_name := source_name a;
          bias_rating := bias_rating a; factuality := factuality a;
          headline := headline a; url := url a; pub_date := pub_date a;
          fetched_at := fetched_at a; summary := summary a; image_url := u;
          cluster_id := cluster_id a; embedding := embedding a; entities := entities a |};
     Article.pubDate := Article.pubDate a;
     Article.embedding := Article.embedding a;
     Article.entities := Article.entities a |}.

(** ** The tables *)

(** The uniqueness constraints of [news_articles]: the primary key [id],
    and [url] among the rows where it is not null. *)
Definition tableOk (rows : list ArticleRow) : Prop :=
  NoDup (map id rows) ∧ NoDup (omap url rows).


(** The older item of the feed fetched again under a new headline, and
    an item that the store has not seen. *)
Definition olderItemAgain : DBArticle.t :=
  sampleDBArticle "n1" "Budget debate resumes" "2026-01-02T12:00:00.000Z" None.
Definition unseenItem : DBArticle.t :=
  sampleDBArticle "n4" "Rail strike called off" "2026-01-02T12:30:00.000Z" None.

(** A store that holds [storedWithImage] alone. *)
Definition imageStore : Store :=
  {| news_articles := [storedWithImage]; news_clusters := ∅ |}.

(** ** The transactions *)

(** The ids of the member articles of a labeled cluster. *)
Definition memberIds (c : Labeled.t) : list string :=
  map (λ a : Article.t, id a) (Labeled.articles c).

(** A row without what the analysis writes: its cluster, its embedding
    and its entities. *)
Definition stripAnalysis (r : ArticleRow) : ArticleRow :=
  {| id := id r; source_id := source_id r; source_name := source_name r;
     bias_rating := bias_rating r; factuality := factuality r;
     headline := headline r; url := url r; pub_date := pub_date r;
     fetched_at := fetched_at r; summary := summary r; image_url := image_url r;
     cluster_id := None; embedding := None; entities := None |}.

(** The store after the forty reports have been clustered and
    committed. *)
Definition committedStore : Store := db (fst afterRun).

(** The store after the two sub-clusters have been committed on top of
    [alreadySplitStore] by the transaction of the pipeline. *)
Definition recommitted : Store :=
  default alreadySplitStore (commitClusters splitIds 0 twoSubClusters alreadySplitStore).1.

(** A cluster [c1] of three articles, of which the replacement clusters
    [twoSubClusters] hold only the first two, before and after its
    split. *)
Definition partlyCoveredStore : Store :=
  {| news_articles :=
       [memberRow "a1" "Parliament passes bill X" (Some (JsonArray [1; 0]%float));
        memberRow "a2" "Monsoon arrives early" (Some (JsonArray [0; 1]%float));
        memberRow "a5" "Metro line opens" None];
     news_clusters :=
       {[ "c1"%string := sampleClusterRow 1 "Day in review" "2026-01-02T10:00:00.000Z" 3 ]} |}.

Definition partlySplit : Store :=
  (splitTransaction splitIds 0 "c1" twoSubClusters partlyCoveredStore).1.

(** Two unclustered reports on unrelated subjects, and a run in which the
    generative model labels the first cluster and answers [{}] for the
    second, whose [INSERT] then fails on the [NOT NULL] headline. *)
Definition twoTopicStore : Store :=
  {| news_articles :=
       [sampleRow "t1" "Parliament passes bill X" "Center" "2026-01-01T10:00:00.000Z"
          None None;
        sampleRow "t2" "Monsoon arrives early" "Left" "2026-01-01T11:00:00.000Z"
          None None];
     news_clusters := ∅ |}.

Definition topicEmbedder (text : string) : option vector :=
  if bool_decide (text = "Parliament passes bill X. summary"%string) then Some [1; 0]%float
  else Some [0; 1]%float.

Definition rollbackEnv : Env :=
  {| clock := tickingClock;
     ai := λ n, match n with
                | O => Parsed goodAnswer
                | S _ => Parsed (JsonObject None None None)
                end;
     fresh := sampleIds "cluster-";
     embedder := Some topicEmbedder;
     nerModel := None;
     cutoffDate := "2025-12-30T12:00:00.000Z";
     oneDayAgo := "2026-01-01T12:00:00.000Z";
     enrichmentSettles := true;
     enrichmentStored := λ _, true |}.

(** A store of forty unclustered reports, for a run without an embedding
    model. *)
Definition fortyStore : Store := {| news_articles := fortyRows; news_clusters := ∅ |}.

(** Eight reports of one story, one from an outlet rated Left and seven
    from outlets rated Right. *)
Definition eightReports : list Article.t :=
  [numbered "Left" 0] ++ map (numbered "Right") (seq 0 7).

(** *** The entity tagger *)

(** The word pieces of a run of tokens, glued as the decoder glues them. *)
Definition glue (tokens : list Token.t) : string :=
  foldr (λ token rest, (removeFirstHashes (Token.word token) ++ rest)%string)
        EmptyString tokens.

Definition begins (token : Token.t) : Prop := String.prefix "B-" (Token.entity token) = true.
Definition continues (token : Token.t) : Prop := String.prefix "I-" (Token.entity token) = true.
Definition outside (token : Token.t) : Prop :=
  String.prefix "B-" (Token.entity token) = false
  ∧ String.prefix "I-" (Token.entity token) = false.

(** The pieces of the name Washington between two untagged words. *)
Definition washingtonTokens : list Token.t :=
  [ {| Token.word := "in"; Token.entity := "O" |};
    {| Token.word := "Wash"; Token.entity := "B-LOC" |};
    {| Token.word := "##ing"; Token.entity := "I-LOC" |};
    {| Token.word := "##ton"; Token.entity := "I-LOC" |};
    {| Token.word := "today"; Token.entity := "O" |} ].

(** An embedding model that knows the text of [A1] and the name
    Washington, and a tagger that finds Washington in the text of [A1] and
    Delhi in every other text. *)
Definition placeEmbedder (text : string) : option vector :=
  if bool_decide (text = "Parliament passes bill X. summary"%string) then Some [3; 4]%float
  else if bool_decide (text = "Cup final goes to extra time. summary"%string)
  then Some [0; 5]%float
  else if bool_decide (text = "Washington"%string) then Some [4; 3]%float
  else None.

Definition placeTagger (text : string) : option (list Token.t) :=
  if bool_decide (text = "Parliament passes bill X. summary"%string)
  then Some washingtonTokens
  else Some [ {| Token.word := "Delhi"; Token.entity := "B-LOC" |} ].

(** A report whose text the model embeds and whose entity it does not. *)
Definition cupReport : Article.t :=
  sampleArticle "c9" "Cup final goes to extra time" (Some T1h) [0; 0]%float.

(** *** Requests to the backend *)

(** The attempt ends in the [catch] of [fetchWithRetry]. *)
Definition errorOf (outcome : Http.Outcome) : option Http.Error :=
  match attempt outcome with
  | inr e => Some e
  | inl _ => None
  end.

(** The delays of [k] retries: 500, 1000, 2000, ... milliseconds. *)
Definition backoff (k : nat) : list Z := map (λ j, 500 * 2 ^ Z.of_nat j) (seq 0 k).

Definition totalWait (waited : list Z) : Z := foldr Z.add 0 waited.

Definition replyOf (status : Z) (payload : string) : Http.Reply :=
  {| Http.status := status; Http.json := Some payload |}.

(** A backend that is behind a restarting proxy for two requests and
    answers the third. *)
Definition warmingUp (i : nat) : Http.Outcome :=
  match i with
  | 0%nat => Http.Rejects "Failed to fetch"
  | 1%nat => Http.Responds (replyOf 502 "Bad Gateway")
  | _ => Http.Responds (replyOf 200 "{}")
  end.

(** A backend that never answers. *)
Definition unreachable (i : nat) : Http.Outcome := Http.Rejects "Failed to fetch".

(** The attempt of [triggerPipeline] got a response that is [ok]. *)
Definition answersOk (outcome : Http.Outcome) : bool :=
  match outcome with
  | Http.Responds res => Http.ok res
  | Http.Rejects _ => false
  end.

(** The attempt of [triggerPipeline] got a response with a status below
    500 that is not [ok]. *)
Definition refuses (outcome : Http.Outcome) : bool :=
  match outcome with
  | Http.Responds res => negb (Http.ok res) && (Http.status res <? 500)
  | Http.Rejects _ => false
  end.

(** *** Ingestion *)

(** The polynomial hash of the code units, [31 * a + c] from 0, without
    wrap-around. *)
Definition polynomialHash (units : list Z) : Z := foldl (λ a c, 31 * a + c) 0 units.

Fixpoint noGt (s : string) : bool :=
  match s with
  | EmptyString => true
  | String c s' => negb (Ascii.eqb c ">") && noGt s'
  end.

(** No [<] of the text is followed, anywhere later, by a [>]: the text
    holds nothing the pattern [<[^>]*>] matches. *)
Fixpoint noTag (s : string) : bool :=
  match s with
  | EmptyString => true
  | String c s' => (negb (Ascii.eqb c "<") || noGt s') && noTag s'
  end.

(** The number of attempts before the [k]-th that ended in the [catch]
    of [triggerPipeline]: a rejected request or a status of 500 or
    more. *)
Fixpoint caughtBefore (fetch : nat → Http.Outcome) (k : nat) : nat :=
  match k with
  | O => O
  | S k' => (caughtBefore fetch k' + if refuses (fetch k') then 0 else 1)%nat
  end.

(** The code units of two URLs that differ in one path segment. *)
Definition unitsOf (s : string) : list Z :=
  map (λ c, Z.of_nat (nat_of_ascii c)) (list_ascii_of_string s).

(** * Properties *)

(** ** The vector helpers *)

Section VectorMath.

Local Open Scope float_scope.

Lemma truthy_spec (x : float) :
  JS.truthy x = true → (x =? 0) = false ∧ JS.isNaN x = false.
Proof.
  unfold JS.truthy, JS.isNaN. intros H.
  apply andb_true_iff in H as [H0 Hx].
  apply negb_true_iff in H0. rewrite Hx. by split.
Qed.

(** Whatever the two magnitudes are, the divisor is a truthy number. *)
Lemma cosine_divisor_truthy (magA magB : float) :
  JS.truthy (cosine_divisor magA magB) = true.
Proof.
  unfold cosine_divisor, JS.or.
  destruct (JS.truthy (PrimFloat.sqrt magA * PrimFloat.sqrt magB)) eqn:E; [exact E | reflexivity].
Qed.

Lemma cosineSimilarity_null_l (vecB : option vector) : cosineSimilarity None vecB = 0.
Proof. reflexivity. Qed.

Lemma cosineSimilarity_null_r (vecA : option vector) : cosineSimilarity vecA None = 0.
Proof. by destruct vecA. Qed.

Lemma cosineSimilarity_length (a b : vector) :
  length a ≠ length b → cosineSimilarity (Some a) (Some b) = 0.
Proof. intros H. unfold cosineSimilarity. by case_decide. Qed.

Lemma cosineSimilarity_quotient (a b : vector) :
  length a = length b →
  ∃ dot magA magB,
    cosine_loop a b (0, 0, 0) = (dot, magA, magB) ∧
    cosineSimilarity (Some a) (Some b) = dot / cosine_divisor magA magB.
Proof.
  intros H. unfold cosineSimilarity. case_decide; [|done].
  destruct (cosine_loop a b (0, 0, 0)) as [[dot magA] magB]. by exists dot, magA, magB.
Qed.

Lemma sum_of_squares_zero (n : nat) :
  foldl (fun sum val => sum + val * val) 0 (replicate n 0) = 0.
Proof.
  induction n as [|n IH]; [reflexivity|].
  cbn [replicate foldl]. change (0 + 0 * 0) with 0. exact IH.
Qed.

Lemma normalizeVector_zero (n : nat) :
  normalizeVector (replicate n 0) = replicate n 0.
Proof.
  unfold normalizeVector, magnitude. rewrite sum_of_squares_zero.
  change (JS.or (PrimFloat.sqrt 0) 1) with 1.
  induction n as [|n IH]; [reflexivity|].
  cbn [replicate map]. rewrite IH. by change (0 / 1) with 0.
Qed.

End VectorMath.

(** C10 (counterexample).  Two one-element vectors of the same length
    whose squares overflow: the dot product and the divisor are both
    infinite, and [cosineSimilarity] returns [NaN], which is not finite. *)
Lemma cosineSimilarity_overflow_not_finite :
  JS.isFinite (cosineSimilarity (Some [1e200%float]) (Some [1e200%float])) = false ∧
  JS.isNaN (cosineSimilarity (Some [1e200%float]) (Some [1e200%float])) = true.
Proof. split; reflexivity. Qed.

(** C10 (amended).  [cosineSimilarity] returns 0 when either vector is
    null or undefined or when the lengths differ; otherwise it returns the
    dot product divided by a divisor that is never zero and never [NaN],
    a zero product of the magnitudes being replaced by 1.
    [normalizeVector] maps the zero vector to itself. *)
Theorem vector_math_guarded :
  (∀ vecB, cosineSimilarity None vecB = 0%float) ∧
  (∀ vecA, cosineSimilarity vecA None = 0%float) ∧
  (∀ a b, length a ≠ length b → cosineSimilarity (Some a) (Some b) = 0%float) ∧
  (∀ a b, length a = length b →
     ∃ dot magA magB,
       cosine_loop a b (0, 0, 0)%float = (dot, magA, magB) ∧
       cosineSimilarity (Some a) (Some b) = (dot / cosine_divisor magA magB)%float ∧
       (cosine_divisor magA magB =? 0)%float = false ∧
       JS.isNaN (cosine_divisor magA magB) = false) ∧
  (∀ magA magB,
     (PrimFloat.sqrt magA * PrimFloat.sqrt magB =? 0)%float = true →
     cosine_divisor magA magB = 1%float) ∧
  (∀ n, normalizeVector (replicate n 0%float) = replicate n 0%float).
Proof.
  split_and!.
  - apply cosineSimilarity_null_l.
  - apply cosineSimilarity_null_r.
  - apply cosineSimilarity_length.
  - intros a b Hlen.
    destruct (cosineSimilarity_quotient a b Hlen) as (dot & magA & magB & Hloop & Hcos).
    exists dot, magA, magB. split_and!; [done | done | |];
      apply (truthy_spec _ (cosine_divisor_truthy magA magB)).
  - intros magA magB Hz. unfold cosine_divisor, JS.or, JS.truthy. by rewrite Hz.
  - apply normalizeVector_zero.
Qed.

(** Vectors of different lengths, a zero vector against another vector,
    and the zero vector of dimension 384. *)
Lemma vector_math_guarded_witness :
  cosineSimilarity (Some [1; 0]%float) (Some [1%float]) = 0%float ∧
  cosine_divisor 0%float 4%float = 1%float ∧
  cosineSimilarity (Some [0; 0]%float) (Some [0; 2]%float) = (0 / 1)%float ∧
  normalizeVector (replicate 384 0%float) = replicate 384 0%float.
Proof.
  destruct vector_math_guarded as (_ & _ & Hlen & Hquot & Hzero & Hnorm).
  split_and!; [apply Hlen; cbn; lia | apply Hzero; reflexivity | | apply Hnorm].
  destruct (Hquot [0; 0]%float [0; 2]%float eq_refl)
    as (dot & magA & magB & Hloop & -> & _).
  injection Hloop as <- <- <-. rewrite Hzero; reflexivity.
Defined.

(** ** The clusterer *)

Section Clusterer.

Variable article : Article.t.
Variable time : float.

(** Clusters out of the window are skipped without being looked at. *)
Lemma scanClusters_out_of_window clusters i bestIdx maxSim :
  Forall (λ c, outOfWindow time c = true) clusters →
  scanClusters clusters i article time bestIdx maxSim = Some (Scanned bestIdx maxSim).
Proof.
  intros Hall. revert i.
  induction Hall as [|c clusters Hc _ IH]; intros i; [reflexivity|].
  cbn [scanClusters]. unfold outOfWindow in Hc. rewrite Hc. apply IH.
Qed.

(** The scan stops at the first cluster in the window whose members
    contain a duplicate, whatever the clusters after it are. *)
Lemma scanClusters_first_duplicate pre cluster post i bestIdx maxSim :
  Forall (λ c, outOfWindow time c = true ∨ duplicateMatch (articles c) article = Some false)
         pre →
  outOfWindow time cluster = false →
  duplicateMatch (articles cluster) article = Some true →
  scanClusters (pre ++ cluster :: post) i article time bestIdx maxSim
  = Some (IsDuplicate (i + length pre)).
Proof.
  intros Hpre Hin Hdup. revert i bestIdx maxSim.
  induction Hpre as [|c pre Hc _ IH]; intros i bestIdx maxSim.
  - cbn [app scanClusters length]. unfold outOfWindow in Hin. rewrite Hin, Hdup.
    by rewrite Nat.add_0_r.
  - cbn [app scanClusters length]. rewrite Nat.add_succ_r, <- Nat.add_succ_l.
    fold (outOfWindow time c).
    destruct (outOfWindow time c) eqn:Hw; [apply IH|].
    destruct Hc as [Hc|Hc]; [done|]. rewrite Hc.
    destruct (_ <? _)%float; apply IH.
Qed.

(** With headlines that are not null, [some] answers whether a member
    passes the duplicate check. *)
Lemma duplicateMatch_existsb members :
  is_Some (headline article) →
  Forall (λ m : Article.t, is_Some (headline m)) members →
  duplicateMatch members article = Some (existsb (isDuplicateOf article) members).
Proof.
  intros [h Hh] Hall.
  induction Hall as [|m members [e He] _ IH]; [reflexivity|].
  cbn [duplicateMatch existsb].
  assert (isDuplicateOf article m
          = bool_decide (trim (toLowerCase e) = trim (toLowerCase h))
            || (DUPLICATE_THRESHOLD <=?
                  cosineSimilarity (Article.embedding article) (Article.embedding m))%float)
    as -> by (unfold isDuplicateOf; by rewrite He, Hh).
  unfold sameHeadline. rewrite He, Hh. cbn.
  destruct (bool_decide _); [reflexivity|]. cbn.
  destruct (_ <=? _)%float; [reflexivity|]. exact IH.
Qed.

(** A duplicate is pushed onto the members of the first matching cluster
    and nothing else changes: the centroid and the latest time of that
    cluster stay, and so do the other clusters. *)
Lemma processArticle_duplicate pre cluster post :
  Forall (λ c, outOfWindow time c = true ∨ duplicateMatch (articles c) article = Some false)
         pre →
  outOfWindow time cluster = false →
  duplicateMatch (articles cluster) article = Some true →
  processArticle (pre ++ cluster :: post) article time
  = Some (pre ++ {| centroid := centroid cluster;
                    articles := articles cluster ++ [article];
                    latestTime := latestTime cluster |} :: post).
Proof.
  intros Hpre Hin Hdup. unfold processArticle.
  rewrite (scanClusters_first_duplicate _ _ _ _ _ _ Hpre Hin Hdup). cbn.
  f_equal. replace (length pre) with (length pre + 0)%nat by lia.
  by rewrite alter_app_r.
Qed.

End Clusterer.

(** The loop body on such an article: no cluster is looked at and a
    singleton is pushed. *)
Lemma processArticle_out_of_window
    (microClusters : list MicroCluster) (article : Article.t) (time : float) :
  Forall (λ c, outOfWindow time c = true) microClusters →
  processArticle microClusters article time
  = Some (microClusters ++ [newCluster article time]).
Proof.
  intros Hall. unfold processArticle.
  by rewrite (scanClusters_out_of_window _ _ _ _ _ _ Hall).
Qed.

Lemma clusterLoop_app clock (l1 l2 : list Article.t) :
  ∀ k microClusters,
  clusterLoop clock k (l1 ++ l2) microClusters
  = match clusterLoop clock k l1 microClusters with
    | Some microClusters' => clusterLoop clock (k + length l1) l2 microClusters'
    | None => None
    end.
Proof.
  induction l1 as [|a l1 IH]; intros k microClusters.
  - cbn. by rewrite Nat.add_0_r.
  - cbn [app clusterLoop length].
    destruct (processArticle _ _ _) as [microClusters'|]; cbn; [|done].
    rewrite IH. by rewrite Nat.add_succ_r.
Qed.

(** The time check on the time that the clusterer takes for an article,
    which is its [pubDate] property when it has one and the clock
    otherwise.  After any articles [pre] have been clustered, an article
    with an embedding for which that time is more than 48 hours away from
    the latest time of every cluster built so far starts a new cluster of
    its own: the check skips every cluster before any headline is
    compared. *)
Lemma time_window_isolation
    (clock : nat → float) (pre : list Article.t) (article : Article.t)
    (microClusters : list MicroCluster) (vec : vector) :
  clusterArticles clock pre = Some microClusters →
  Article.embedding article = Some vec →
  Forall (λ c, outOfWindow (articleTime (clock (validCount pre)) article) c = true)
         microClusters →
  clusterArticles clock (pre ++ [article])
  = Some (microClusters ++
            [{| centroid := vec;
                articles := [article];
                latestTime := articleTime (clock (validCount pre)) article |}]).
Proof.
  unfold clusterArticles, validCount. intros Hpre Hvec Hall.
  rewrite filter_app, clusterLoop_app, Hpre.
  rewrite (filter_cons_True _ article []) by (by rewrite Hvec).
  rewrite filter_nil. cbn [clusterLoop Nat.add].
  rewrite (processArticle_out_of_window _ _ _ Hall). cbn.
  unfold newCluster. by rewrite Hvec.
Qed.

(** The second scenario of the specification: the same headline, 49 hours
    later. *)
Lemma time_window_isolation_witness :
  clusterArticles tickingClock ([A1] ++ [A3])
  = Some ([newCluster A1 T0] ++
            [{| centroid := [1; 0]%float; articles := [A3]; latestTime := T49h |}]).
Proof.
  apply (time_window_isolation tickingClock [A1] A3 [newCluster A1 T0] [1; 0]%float).
  - reflexivity.
  - reflexivity.
  - constructor; [reflexivity | constructor].
Defined.

(** The outer loop on that scenario: two clusters despite the identical
    headlines. *)
Example clusterArticles_time_window_split :
  clusterArticles tickingClock [A1; A3]
  = Some [newCluster A1 T0; newCluster A3 T49h].
Proof. vm_compute. reflexivity. Qed.

(** C2.  The duplicate merge on the third scenario of the specification:
    [A1'] has the headline of [A1] up to case and spaces, the same vector,
    and is one hour newer.  It joins the cluster of [A1] and the centroid
    stays, but the latest time of the cluster stays at the time of [A1]
    instead of advancing to the newer time.  The same happens for articles
    without a [pubDate] property, timed by the clock. *)
Theorem duplicate_merge_keeps_latestTime :
  clusterArticles tickingClock [A1; A1']
  = Some [{| centroid := [1; 0]%float; articles := [A1; A1']; latestTime := T0 |}] ∧
  (T0 <? articleTime (tickingClock 1) A1')%float = true ∧
  clusterArticles tickingClock [R1; R1']
  = Some [{| centroid := [1; 0]%float; articles := [R1; R1'];
             latestTime := tickingClock 0 |}] ∧
  (tickingClock 0 <? articleTime (tickingClock 1) R1')%float = true.
Proof. split_and!; vm_compute; reflexivity. Qed.

(** ** The store *)

(** C3 (counterexample).  A feed ingested newest item first: both rows are
    unclustered and recent, and the selection returns them in the order of
    the table, the newer one first, not oldest first. *)
Lemma selectUnclustered_not_oldest_first :
  selectUnclustered (news_articles ingestedStore) "2025-12-31T00:00:00.000Z"
  = [excludedRow newerItem; excludedRow olderItem] ∧
  ¬ oldestFirst
      (selectUnclustered (news_articles ingestedStore) "2025-12-31T00:00:00.000Z").
Proof.
  split; [reflexivity|].
  intros Hsorted. inversion Hsorted as [|r rest _ Hhead]; subst.
  inversion Hhead as [|r' rest' Hle _]; subst.
  vm_compute in Hle. discriminate Hle.
Qed.

(** C3 (amended).  The selection returns only rows whose [cluster_id] is
    null and whose [pub_date] is after the cutoff, at most 50 of them, in
    the order in which the table holds them (no ordering by date is
    applied). *)
Theorem selectUnclustered_spec (scan : list ArticleRow) (cutoffDate : string) :
  Forall (λ r, cluster_id r = None ∧
               ∃ d, pub_date r = Some d ∧ String.ltb cutoffDate d = true)
         (selectUnclustered scan cutoffDate) ∧
  (length (selectUnclustered scan cutoffDate) ≤ 50)%nat ∧
  selectUnclustered scan cutoffDate `sublist_of` scan.
Proof.
  unfold selectUnclustered. split_and!.
  - apply Forall_take, Forall_forall. intros r Hr.
    apply list_elem_of_filter in Hr as [Hr _]. unfold unclusteredSince in Hr.
    destruct (cluster_id r); [discriminate|].
    destruct (pub_date r) as [d|]; [|discriminate]. eauto.
  - rewrite length_take. lia.
  - etrans; [apply sublist_take | apply sublist_filter].
Qed.

(** One statement of the upsert.  When the incoming article has the id of
    a stored row, that row gets the incoming [fetched_at] and [headline],
    keeps its [image_url] when it is not null (and takes the incoming one
    otherwise) and keeps every other column; no row is added and the other
    rows stay as they are. *)
Lemma upsert_existing_id
    (rows : list ArticleRow) (a : DBArticle.t) (i : nat) (existing : ArticleRow) :
  rows !! i = Some existing →
  id existing = DBArticle.id a →
  (∃ updated,
     upsertArticle rows a !! i = Some updated ∧
     fetched_at updated = DBArticle.fetchedAt a ∧
     headline updated = DBArticle.headline a ∧
     (∀ u, image_url existing = Some u → image_url updated = Some u) ∧
     (image_url existing = None → image_url updated = DBArticle.imageUrl a) ∧
     sameOtherColumns existing updated) ∧
  length (upsertArticle rows a) = length rows ∧
  (∀ j other, rows !! j = Some other → id other ≠ DBArticle.id a →
              upsertArticle rows a !! j = Some other).
Proof.
  intros Hi Hid. unfold upsertArticle.
  assert (hasId (id (excludedRow a)) rows = true) as ->.
  { unfold hasId. apply existsb_exists. exists existing. split.
    - apply list_elem_of_In. by eapply list_elem_of_lookup_2.
    - by apply bool_decide_eq_true. }
  split_and!.
  - exists (doUpdate existing (excludedRow a)).
    rewrite list_lookup_fmap, Hi. cbn.
    rewrite bool_decide_eq_true_2 by done.
    split_and!; try done; intros; cbn.
    all: match goal with H : image_url _ = _ |- _ => by rewrite H end.
  - apply length_map.
  - intros j other Hj Hne. rewrite list_lookup_fmap, Hj. cbn.
    by rewrite bool_decide_eq_false_2.
Qed.

(** A re-fetch without an image of a stored article that has one: the
    headline and the fetch time are replaced, the image and the
    publication date stay. *)
Lemma upsert_existing_id_witness :
  ∃ updated,
    upsertArticle [storedWithImage] refetched !! 0%nat = Some updated ∧
    fetched_at updated = Some "2026-01-01T09:00:00.000Z"%string ∧
    headline updated = Some "Court ruling delivered"%string ∧
    image_url updated = Some "https://example.org/n3.jpg"%string ∧
    pub_date updated = Some "2026-01-01T08:00:00.000Z"%string ∧
    length (upsertArticle [storedWithImage] refetched) = 1%nat.
Proof.
  destruct (upsert_existing_id [storedWithImage] refetched 0 storedWithImage
              eq_refl eq_refl)
    as ((updated & Hlookup & Hfetched & Hheadline & Himage & _ & Hsame) & Hlength & _).
  exists updated. split_and!; [exact Hlookup | exact Hfetched | exact Hheadline | | | exact Hlength].
  - apply Himage. reflexivity.
  - destruct Hsame as (_ & _ & _ & _ & _ & _ & Hdate & _). exact Hdate.
Defined.


(** ** The labeler *)

(** C5 (counterexample).  The model answers [{}], or the JSON string
    ["oops"]: the parse succeeds, nothing checks the shape of the value,
    and the label returned has no headline, no summary and no category
    instead of those of the fallback. *)
Lemma schema_mismatch_is_not_caught :
  generationFails (emptyObjectAi 0) = true ∧
  fst (processCluster emptyObjectAi 0 (singleton A1 T0))
  = Some {| Labeled.headline := None; Labeled.summary := None;
            Labeled.category := None; Labeled.articles := [A1] |} ∧
  fst (processCluster emptyObjectAi 0 (singleton A1 T0)) ≠ Some (fallbackLabel A1 [A1]) ∧
  generationFails (oopsAi 0) = true ∧
  fst (processCluster oopsAi 0 (singleton A1 T0)) ≠ Some (fallbackLabel A1 [A1]).
Proof. split_and!; (reflexivity || discriminate). Qed.

(** C5 (amended).  For a cluster with at least one member, when the
    request throws or its answer fails to parse as JSON, the label is the
    headline and the summary of the first member with the category
    General; an answer that parses is spread into the label as it is, with
    no check of its shape. *)
Theorem labeler_fallback
    (ai : nat → Generation) (calls : nat) (cluster : MicroCluster)
    (first : Article.t) (rest : list Article.t) :
  articles cluster = first :: rest →
  (ai calls = CallThrows ∨ ai calls = ParseThrows →
   fst (processCluster ai calls cluster)
   = Some {| Labeled.headline := headline first;
             Labeled.summary := summary first;
             Labeled.category := Some "General"%string;
             Labeled.articles := articles cluster |}) ∧
  (∀ data, ai calls = Parsed data →
   fst (processCluster ai calls cluster) = Some (spreadLabel data (articles cluster))).
Proof.
  intros Hmembers. unfold processCluster. rewrite Hmembers. split.
  - by intros [-> | ->].
  - by intros data ->.
Qed.

Lemma labeler_fallback_witness :
  fst (processCluster flakyAi 0 (singleton A1 T0))
  = Some {| Labeled.headline := Some "Parliament passes bill X"%string;
            Labeled.summary := Some "summary"%string;
            Labeled.category := Some "General"%string;
            Labeled.articles := [A1] |}.
Proof.
  apply (labeler_fallback flakyAi 0 (singleton A1 T0) A1 []); [reflexivity | by left].
Defined.

(** C6 (counterexample).  The first request fails in transport and a
    second one would succeed: exactly one request is made and the fallback
    label is returned. *)
Lemma transport_failure_not_retried :
  flakyAi 0 = CallThrows ∧
  flakyAi 1 = Parsed goodAnswer ∧
  processCluster flakyAi 0 (singleton A1 T0) = (Some (fallbackLabel A1 [A1]), 1%nat).
Proof. split_and!; reflexivity. Qed.

(** C6 (amended).  The labeler makes exactly one request per cluster with
    members; when that request fails in transport the fallback label is
    returned at once, without another try. *)
Theorem labeler_single_request
    (ai : nat → Generation) (calls : nat) (cluster : MicroCluster)
    (first : Article.t) (rest : list Article.t) :
  articles cluster = first :: rest →
  snd (processCluster ai calls cluster) = S calls ∧
  (ai calls = CallThrows →
   processCluster ai calls cluster
   = (Some (fallbackLabel first (articles cluster)), S calls)).
Proof.
  intros Hmembers. unfold processCluster. rewrite Hmembers.
  split; [reflexivity | by intros ->].
Qed.

Lemma labeler_single_request_witness :
  snd (processCluster flakyAi 0 (singleton A1 T0)) = 1%nat ∧
  processCluster flakyAi 0 (singleton A1 T0) = (Some (fallbackLabel A1 [A1]), 1%nat).
Proof.
  destruct (labeler_single_request flakyAi 0 (singleton A1 T0) A1 [] eq_refl)
    as [Hcalls Hfallback].
  split; [exact Hcalls | apply Hfallback; reflexivity].
Defined.

(** ** The split transaction *)

(** C4 (counterexample).  Another run has already split the cluster [c1]:
    it is no longer in [news_clusters] when this transaction runs.  The two
    replacement clusters of this run are inserted all the same and both
    articles are reassigned to them, away from the replacements of the
    other run. *)
Lemma split_of_missing_cluster_proceeds :
  news_clusters alreadySplitStore !! "c1"%string = None ∧
  cl_headline <$>
    news_clusters (fst (splitTransaction splitIds 0 "c1" twoSubClusters alreadySplitStore))
      !! "cluster-split-1"%string
  = Some "Parliament passes bill X"%string ∧
  cl_headline <$>
    news_clusters (fst (splitTransaction splitIds 0 "c1" twoSubClusters alreadySplitStore))
      !! "cluster-split-2"%string
  = Some "Monsoon arrives early"%string ∧
  map cluster_id
    (news_articles (fst (splitTransaction splitIds 0 "c1" twoSubClusters alreadySplitStore)))
  = [Some "cluster-split-1"%string; Some "cluster-split-2"%string] ∧
  fst (splitTransaction splitIds 0 "c1" twoSubClusters alreadySplitStore)
  ≠ alreadySplitStore.
Proof.
  do 4 (split; [by vm_compute|]).
  intros Heq. apply (f_equal (λ s, map cluster_id (news_articles s))) in Heq.
  vm_compute in Heq. discriminate Heq.
Qed.

Lemma insertCluster_keeps_key category fr c s s' (k : string) :
  insertCluster category fr c s = Some s' →
  is_Some (news_clusters s !! k) ∨ fr.1 = k →
  is_Some (news_clusters s' !! k).
Proof.
  unfold insertCluster. destruct fr as [clusterId createdAt].
  destruct (Labeled.headline c); [|done].
  destruct (news_clusters s !! clusterId) eqn:Hfree; [done|].
  intros [= <-] Hk. cbn in *.
  destruct (decide (clusterId = k)) as [->|Hne].
  - rewrite lookup_insert_eq. by eexists.
  - rewrite lookup_insert_ne by done. by destruct Hk.
Qed.

(** A committed loop of inserts leaves every generated identifier in
    [news_clusters]. *)
Lemma insertClusters_inserted category fresh labeled :
  ∀ minted s s' minted' (k : string),
  insertClusters category fresh minted labeled s = (Some s', minted') →
  is_Some (news_clusters s !! k) ∨
  (∃ j, (j < length labeled)%nat ∧ (fresh (minted + j)%nat).1 = k) →
  is_Some (news_clusters s' !! k).
Proof.
  induction labeled as [|c labeled IH]; intros minted s s' minted' k Hins Hk.
  - cbn in Hins. injection Hins as <- <-.
    destruct Hk as [Hk | (j & Hj & _)]; [done | cbn in Hj; lia].
  - cbn [insertClusters] in Hins.
    destruct (insertCluster category (fresh minted) c s) as [s1|] eqn:Hone; [|done].
    apply (IH (S minted) s1 s' minted' k Hins).
    destruct Hk as [Hk | (j & Hj & Hfresh)].
    + left. eapply insertCluster_keeps_key; [done | by left].
    + destruct j as [|j].
      * left. eapply insertCluster_keeps_key; [done|]. right.
        by rewrite Nat.add_0_r in Hfresh.
      * right. exists j. cbn in Hj. split; [lia|].
        by rewrite Nat.add_succ_r in Hfresh.
Qed.

(** C4 (amended).  The split transaction makes no check that the old
    cluster exists: when it is missing, the [DELETE] removes nothing and
    the transaction does what the inserts and reassignments alone do; when
    these succeed it commits, with every replacement cluster in
    [news_clusters]. *)
Theorem split_without_existence_check
    (fresh : nat → string * string) (minted : nat) (oldId : string)
    (labeledSubClusters : list Labeled.t) (s : Store) :
  news_clusters s !! oldId = None →
  splitTransaction fresh minted oldId labeledSubClusters s
  = match insertClusters Labeled.category fresh minted labeledSubClusters s with
    | (Some s', minted') => (s', minted')
    | (None, minted') => (s, minted')
    end ∧
  (∀ s' minted',
     insertClusters Labeled.category fresh minted labeledSubClusters s = (Some s', minted') →
     fst (splitTransaction fresh minted oldId labeledSubClusters s) = s' ∧
     ∀ j, (j < length labeledSubClusters)%nat →
          is_Some (news_clusters s' !! (fresh (minted + j)%nat).1)).
Proof.
  intros Hgone.
  assert (splitTransaction fresh minted oldId labeledSubClusters s
          = match insertClusters Labeled.category fresh minted labeledSubClusters s with
            | (Some s', minted') => (s', minted')
            | (None, minted') => (s, minted')
            end) as Hsame.
  { unfold splitTransaction. rewrite (delete_id _ _ Hgone). by destruct s. }
  split; [exact Hsame|].
  intros s' minted' Hins. rewrite Hsame, Hins. split; [done|].
  intros j Hj. eapply insertClusters_inserted; [exact Hins|]. right. by exists j.
Qed.

Lemma split_without_existence_check_witness :
  splitTransaction splitIds 0 "c1" twoSubClusters alreadySplitStore
  = match insertClusters Labeled.category splitIds 0 twoSubClusters alreadySplitStore with
    | (Some s', minted') => (s', minted')
    | (None, minted') => (alreadySplitStore, minted')
    end.
Proof.
  apply (split_without_existence_check splitIds 0 "c1" twoSubClusters alreadySplitStore).
  vm_compute. reflexivity.
Defined.

(** ** The statistics *)

Lemma percentageTable_50 : percentageTable 50 = true.
Proof. vm_cast_no_check (eq_refl true). Qed.

Lemma arithmeticTable_101 : arithmeticTable 101 = true.
Proof. vm_cast_no_check (eq_refl true). Qed.

Lemma percentageTable_sound (maxTotal total count : nat) :
  percentageTable maxTotal = true →
  (1 ≤ total ≤ maxTotal)%nat → (count ≤ total)%nat →
  percentageAgrees total count = true.
Proof.
  unfold percentageTable. intros Htable Htotal Hcount.
  rewrite forallb_forall in Htable.
  specialize (Htable total ltac:(apply in_seq; lia)).
  rewrite forallb_forall in Htable. apply Htable, in_seq. lia.
Qed.

Lemma arithmeticTable_sound (bound l r : nat) :
  arithmeticTable bound = true → (l < bound)%nat → (r < bound)%nat →
  arithmeticAgrees l r = true.
Proof.
  unfold arithmeticTable. intros Htable Hl Hr.
  rewrite forallb_forall in Htable.
  specialize (Htable l ltac:(apply in_seq; lia)).
  rewrite forallb_forall in Htable. apply Htable, in_seq. lia.
Qed.

(** Beyond the 50 articles of a run there are more such cases: 29 of 200
    is 14.5 percent, which the exact rounding takes to 15, while the
    floating-point product is just below 14.5 and rounds to 14. *)
Remark percentage_29_of_200 :
  percentage 29 200 = 14%float ∧ roundHalfUp (100 * 29) 200 = 15.
Proof. split; reflexivity. Qed.

Lemma percentage_percentOf (count total : nat) :
  (1 ≤ total ≤ 50)%nat → (count ≤ total)%nat →
  percentage count total = JS.of_Z (percentOf count total).
Proof.
  intros Htotal Hcount. apply Leibniz.eqb_spec.
  by apply (percentageTable_sound 50 total count percentageTable_50).
Qed.

Lemma roundHalfUp_range (count total : Z) :
  0 ≤ count ≤ total → 0 < total → 0 ≤ roundHalfUp (100 * count) total ≤ 100.
Proof.
  intros Hcount Htotal. unfold roundHalfUp. split.
  - apply Z.div_pos; lia.
  - enough ((2 * (100 * count) + total) / (2 * total) < 101) by lia.
    apply Z.div_lt_upper_bound; lia.
Qed.

Lemma percentOf_range (count total : nat) :
  (count ≤ total)%nat → (0 < total)%nat → 0 ≤ percentOf count total ≤ 100.
Proof.
  intros Hcount Htotal. unfold percentOf. case_bool_decide; [lia|].
  apply roundHalfUp_range; lia.
Qed.

Lemma arithmetic_agrees (l r : Z) :
  0 ≤ l ≤ 100 → 0 ≤ r ≤ 100 →
  (100 - JS.of_Z l - JS.of_Z r)%float = JS.of_Z (100 - l - r) ∧
  (JS.of_Z l + (100 - JS.of_Z l - JS.of_Z r) + JS.of_Z r)%float = 100%float ∧
  (JS.of_Z l <? 15)%float = (l <? 15) ∧
  (50 <? JS.of_Z l)%float = (50 <? l).
Proof.
  intros Hl Hr.
  pose proof (arithmeticTable_sound 101 (Z.to_nat l) (Z.to_nat r) arithmeticTable_101
                ltac:(lia) ltac:(lia)) as Htable.
  unfold arithmeticAgrees in Htable. rewrite !Z2Nat.id in Htable by lia.
  repeat (apply andb_true_iff in Htable as [Htable ?]).
  split_and!; try by apply Leibniz.eqb_spec.
  all: by apply eqb_prop.
Qed.

Lemma blindspotOf_spec (l r : Z) :
  0 ≤ l ≤ 100 → 0 ≤ r ≤ 100 →
  blindspotOf (JS.of_Z l) (JS.of_Z r) = specBlindspot l r.
Proof.
  intros Hl Hr.
  destruct (arithmetic_agrees l r Hl Hr) as (_ & _ & Hl15 & Hl50).
  destruct (arithmetic_agrees r l Hr Hl) as (_ & _ & Hr15 & Hr50).
  unfold blindspotOf, specBlindspot. rewrite Hl15, Hl50, Hr15, Hr50.
  destruct (r <? 15) eqn:?, (50 <? l) eqn:?, (l <? 15) eqn:?, (50 <? r) eqn:?;
    try reflexivity; lia.
Qed.

Lemma triple_eq (a b c a' b' c' : nat) :
  a = a' → b = b' → c = c' → (a, b, c) = (a', b', c').
Proof. by intros -> -> ->. Qed.

(** The counters of the [forEach], from any starting values. *)
Lemma countBias_from (members : list Article.t) (l r c : nat) :
  foldl (fun '(nLeft, nRight, nCenter) a =>
           if hasBias "Left" a then (S nLeft, nRight, nCenter)
           else if hasBias "Right" a then (nLeft, S nRight, nCenter)
           else (nLeft, nRight, S nCenter))
        (l, r, c) members
  = ((l + leftCount members)%nat, (r + rightCount members)%nat,
     (c + (length members - leftCount members - rightCount members))%nat) ∧
  (leftCount members + rightCount members ≤ length members)%nat.
Proof.
  revert l r c. unfold leftCount, rightCount.
  induction members as [|a members IH]; intros l r c.
  - cbn. split; [|lia]. apply triple_eq; lia.
  - cbn [foldl]. rewrite !filter_cons. cbn [length].
    destruct (hasBias "Left" a) eqn:HL; [|destruct (hasBias "Right" a) eqn:HR].
    + rewrite decide_True by done. rewrite decide_False by (intros [? _]; done).
      destruct (IH (S l) r c) as [-> Hle]. cbn [length].
      split; [|lia]. apply triple_eq; lia.
    + rewrite decide_False by done. rewrite decide_True by done.
      destruct (IH l (S r) c) as [-> Hle]. cbn [length].
      split; [|lia]. apply triple_eq; lia.
    + rewrite decide_False by done. rewrite decide_False by (intros [_ ?]; done).
      destruct (IH l r (S c)) as [-> Hle].
      split; [|lia]. apply triple_eq; lia.
Qed.

Lemma countBias_spec (members : list Article.t) :
  countBias members
  = (leftCount members, rightCount members,
     (length members - leftCount members - rightCount members)%nat) ∧
  (leftCount members + rightCount members ≤ length members)%nat.
Proof. apply (countBias_from members 0 0 0). Qed.

(** C7.  Forty members, 23 of them rated Left: 23/40 is 57.5 percent,
    which rounds to 58, but the quotient computed first and then multiplied
    by 100 falls just below 57.5, and the code stores 57 (and 43 for the
    centre instead of 42).  A run of the pipeline on forty such reports of
    one story stores these numbers. *)
Theorem stats_of_23_in_40 :
  length fortyReports = 40%nat ∧
  leftCount fortyReports = 23%nat ∧
  rightCount fortyReports = 0%nat ∧
  specLeftPct fortyReports = 58 ∧
  (JS.of_nat 23 / JS.of_nat 40 * 100 <? 57.5)%float = true ∧
  BiasDistribution.left (biasDistribution (computeStats fortyReports)) = 57%float ∧
  BiasDistribution.center (biasDistribution (computeStats fortyReports)) = 43%float ∧
  computeStats fortyReports ≠ specStats fortyReports ∧
  snd afterRun = Success 1 ∧
  stats <$> news_clusters (db (fst afterRun)) !! "cluster-1"%string
  = Some {| totalSources := 40;
            biasDistribution :=
              {| BiasDistribution.left := 57%float; BiasDistribution.center := 43%float;
                 BiasDistribution.right := 0%float |};
            blindspot := Blindspot.Right |}.
Proof.
  split_and!; try (vm_compute; reflexivity).
  intros Heq. apply (f_equal (λ s, BiasDistribution.left (biasDistribution s))) in Heq.
  vm_compute in Heq. apply (f_equal (λ x, Leibniz.eqb x 57%float)) in Heq.
  vm_compute in Heq. discriminate Heq.
Qed.

(** What the statistics are for a cluster of 1 to 50 members (a run
    selects at most 50 articles): [left] counts the members whose bias rating contains
    Left, [right] those of the others whose rating contains Right, and
    [center] is the rest; the stored percentages are the roundings of
    100·left/N and 100·right/N, except that 23 of 40 gives 57; the centre
    is 100 minus the two, so that the three sum to 100; and the blindspot
    is Right when right < 15 and left > 50, Left when left < 15 and
    right > 50, and None otherwise, on the stored percentages. *)
Lemma computeStats_rounded (members : list Article.t) :
  (1 ≤ length members ≤ 50)%nat →
  countBias members
  = (leftCount members, rightCount members,
     (length members - leftCount members - rightCount members)%nat) ∧
  computeStats members = roundedStats members ∧
  (BiasDistribution.left (biasDistribution (computeStats members))
   + BiasDistribution.center (biasDistribution (computeStats members))
   + BiasDistribution.right (biasDistribution (computeStats members)))%float = 100%float ∧
  (¬ (leftCount members = 23 ∧ length members = 40)%nat →
   ¬ (rightCount members = 23 ∧ length members = 40)%nat →
   computeStats members = specStats members).
Proof.
  intros HN.
  destruct (countBias_spec members) as [Hcount Hle].
  assert (computeStats members = roundedStats members) as Hstats.
  { unfold computeStats, roundedStats. rewrite Hcount.
    rewrite !percentage_percentOf by lia.
    pose proof (percentOf_range (leftCount members) (length members)) as Hl.
    pose proof (percentOf_range (rightCount members) (length members)) as Hr.
    destruct (arithmetic_agrees _ _ (Hl ltac:(lia) ltac:(lia)) (Hr ltac:(lia) ltac:(lia)))
      as (-> & _).
    by rewrite blindspotOf_spec by (apply percentOf_range; lia). }
  split_and!; [done | done | |].
  - rewrite Hstats. cbn.
    pose proof (percentOf_range (leftCount members) (length members)) as Hl.
    pose proof (percentOf_range (rightCount members) (length members)) as Hr.
    destruct (arithmetic_agrees _ _ (Hl ltac:(lia) ltac:(lia)) (Hr ltac:(lia) ltac:(lia)))
      as (Hc & Hsum & _).
    by rewrite <- Hc.
  - intros HnL HnR. rewrite Hstats.
    unfold roundedStats, specStats, specLeftPct, specRightPct, percentOf.
    by rewrite !bool_decide_eq_false_2.
Qed.

(** The fourth scenario of the specification: 7 Left, 1 Center and
    2 Center Right give 70, 10 and 20 percent, and no blindspot. *)
Example computeStats_ten_reports :
  computeStats tenReports
  = {| totalSources := 10;
       biasDistribution :=
         {| BiasDistribution.left := 70%float; BiasDistribution.center := 10%float;
            BiasDistribution.right := 20%float |};
       blindspot := Blindspot.None |}.
Proof.
  destruct (computeStats_rounded tenReports) as (_ & -> & _); [cbn; lia | reflexivity].
Defined.

(** ** The coherence refiner *)

Lemma referentialIntegrity_forallb (s : Store) :
  referentialIntegrity s ↔ forallb (references s) (news_articles s) = true.
Proof.
  unfold referentialIntegrity.
  induction (news_articles s) as [|r rows IH]; cbn.
  - split; [done | constructor].
  - rewrite Forall_cons, andb_true_iff, IH. done.
Qed.

(** C1.  The refiner on a cluster of six articles, two of which have no
    usable embedding.  The four others are incoherent (average similarity
    0.5) and are re-clustered into four clusters; the old cluster is
    deleted and those four articles are reassigned, but the two articles
    that the embedding filter dropped keep pointing at the deleted
    cluster: the store satisfied referential integrity before the
    committed split and does not afterwards. *)
Theorem split_orphans_members_without_embedding :
  referentialIntegrity incoherentStore ∧
  averageSimilarity (parseMembers (news_articles incoherentStore)) = 0.5%float ∧
  news_clusters afterSplit !! "c1"%string = None ∧
  map (λ r, (id r, cluster_id r)) (news_articles afterSplit)
  = [("a1", Some "cluster-split-1"); ("a2", Some "cluster-split-2");
     ("a3", Some "cluster-split-3"); ("a4", Some "cluster-split-4");
     ("a5", Some "c1"); ("a6", Some "c1")]%string ∧
  ¬ referentialIntegrity afterSplit.
Proof.
  split_and!.
  - apply referentialIntegrity_forallb. vm_compute. reflexivity.
  - vm_compute. reflexivity.
  - vm_compute. reflexivity.
  - vm_compute. reflexivity.
  - rewrite referentialIntegrity_forallb. vm_compute. discriminate.
Qed.

(** What lies behind the orphans: a committed split reassigns the members
    of the sub-clusters only.  A row that points at the old cluster and is
    in none of the sub-clusters is left as it is, while the old cluster is
    gone. *)
Lemma insertCluster_other_row category fr c s s' (r : ArticleRow) :
  insertCluster category fr c s = Some s' →
  r ∈ news_articles s →
  id r ∉ map (λ a : Article.t, id a) (Labeled.articles c) →
  r ∈ news_articles s'.
Proof.
  unfold insertCluster. destruct fr as [clusterId createdAt].
  destruct (Labeled.headline c); [|done].
  destruct (news_clusters s !! clusterId); [done|].
  intros [= <-] Hr Hid. cbn. unfold assignCluster.
  apply list_elem_of_fmap. exists r. split; [|done].
  by rewrite bool_decide_eq_false_2.
Qed.

Lemma insertCluster_other_key category fr c s s' (k : string) :
  insertCluster category fr c s = Some s' →
  news_clusters s !! k = None → fr.1 ≠ k →
  news_clusters s' !! k = None.
Proof.
  unfold insertCluster. destruct fr as [clusterId createdAt].
  destruct (Labeled.headline c); [|done].
  destruct (news_clusters s !! clusterId); [done|].
  intros [= <-] Hk Hne. cbn in *. by rewrite lookup_insert_ne.
Qed.

Lemma insertClusters_untouched category fresh labeled :
  ∀ minted s s' minted' (r : ArticleRow) (k : string),
  insertClusters category fresh minted labeled s = (Some s', minted') →
  r ∈ news_articles s →
  Forall (λ c, id r ∉ map (λ a : Article.t, id a) (Labeled.articles c)) labeled →
  news_clusters s !! k = None →
  (∀ j, (j < length labeled)%nat → (fresh (minted + j)%nat).1 ≠ k) →
  r ∈ news_articles s' ∧ news_clusters s' !! k = None.
Proof.
  induction labeled as [|c labeled IH]; intros minted s s' minted' r k Hins Hr Hids Hk Hfresh.
  - cbn in Hins. by injection Hins as <- <-.
  - cbn [insertClusters] in Hins.
    destruct (insertCluster category (fresh minted) c s) as [s1|] eqn:Hone; [|done].
    apply Forall_cons in Hids as [Hid Hids].
    apply (IH (S minted) s1 s' minted' r k Hins).
    + by eapply insertCluster_other_row.
    + done.
    + eapply insertCluster_other_key; [done..|].
      specialize (Hfresh 0%nat). rewrite Nat.add_0_r in Hfresh. apply Hfresh. cbn. lia.
    + intros j Hj. specialize (Hfresh (S j)).
      rewrite Nat.add_succ_r in Hfresh. apply Hfresh. cbn. lia.
Qed.

Lemma split_leaves_orphans
    (fresh : nat → string * string) (minted : nat) (oldId : string)
    (labeledSubClusters : list Labeled.t) (s committed : Store) (minted' : nat)
    (r : ArticleRow) :
  insertClusters Labeled.category fresh minted labeledSubClusters
    {| news_articles := news_articles s; news_clusters := delete oldId (news_clusters s) |}
  = (Some committed, minted') →
  r ∈ news_articles s →
  cluster_id r = Some oldId →
  Forall (λ c, id r ∉ map (λ a : Article.t, id a) (Labeled.articles c)) labeledSubClusters →
  (∀ j, (j < length labeledSubClusters)%nat → (fresh (minted + j)%nat).1 ≠ oldId) →
  fst (splitTransaction fresh minted oldId labeledSubClusters s) = committed ∧
  r ∈ news_articles committed ∧
  references committed r = false.
Proof.
  intros Hins Hr Hold Hids Hfresh. unfold splitTransaction. rewrite Hins.
  split; [done|].
  destruct (insertClusters_untouched _ _ _ _ _ _ _ r oldId Hins) as [Hr' Hgone];
    [done | done | by cbn; rewrite lookup_delete_eq | done |].
  split; [done|]. unfold references. rewrite Hold, Hgone.
  apply bool_decide_eq_false_2. by intros [? ?].
Qed.

(** An article object spread from a row has no [pubDate] property (the
    column is [pub_date]), so the clusterer times it by the clock. *)
Remark rowToArticle_pubDate (r : ArticleRow) (a : Article.t) :
  rowToArticle r = Some a → Article.pubDate a = None.
Proof. unfold rowToArticle. destruct (JSON_parse (embedding r)); by intros [= <-]. Qed.

Remark parseMember_pubDate (r : ArticleRow) (a : Article.t) :
  parseMember r = Some a → Article.pubDate a = None.
Proof. unfold parseMember. destruct (JSON_parse (embedding r)); by intros [= <-]. Qed.

(** C8.  Two stored reports with the same headline whose publication
    dates are 58 hours apart.  The objects that the pipeline spreads from
    the rows carry the column [pub_date] and no [pubDate] property, which
    is the one the clusterer reads: both reports are timed by the clock,
    the time check passes, the headlines are compared, and the second
    report joins the cluster of the first, in whichever order the rows
    come.  The claim puts them in two clusters. *)
Theorem stored_reports_join_across_the_window :
  pub_date earlyRow = Some "2025-12-31T00:00:00.000Z"%string ∧
  pub_date lateRow = Some "2026-01-02T10:00:00.000Z"%string ∧
  ∃ early late,
    rowsToArticles [earlyRow; lateRow] = Some [early; late] ∧
    rowsToArticles [lateRow; earlyRow] = Some [late; early] ∧
    Article.pubDate early = None ∧ Article.pubDate late = None ∧
    clusterArticles tickingClock [early; late]
    = Some [{| centroid := [1; 0]%float; articles := [early; late];
               latestTime := tickingClock 0 |}] ∧
    clusterArticles tickingClock [late; early]
    = Some [{| centroid := [1; 0]%float; articles := [late; early];
               latestTime := tickingClock 0 |}].
Proof.
  split; [reflexivity|]. split; [reflexivity|]. eexists _, _.
  split_and!; [reflexivity | reflexivity | reflexivity | reflexivity
              | vm_compute; reflexivity | vm_compute; reflexivity].
Qed.

(** ** The size of the clusters of a run *)

Section ClusterSizes.

Variable article : Article.t.
Variable time : float.

(** The index at which a scan stops, and the best index it returns, are
    indices of the clusters scanned. *)
Lemma scanClusters_index clusters :
  ∀ i bestIdx maxSim,
  match scanClusters clusters i article time bestIdx maxSim with
  | Some (IsDuplicate j) => (i ≤ j < i + length clusters)%nat
  | Some (Scanned (Some j) _) => bestIdx = Some j ∨ (i ≤ j < i + length clusters)%nat
  | _ => True
  end.
Proof.
  induction clusters as [|c clusters IH]; intros i bestIdx maxSim.
  - cbn. destruct bestIdx; [by left | done].
  - cbn [scanClusters length].
    assert (∀ b m,
      match scanClusters clusters (S i) article time b m with
      | Some (IsDuplicate j) => (i ≤ j < i + S (length clusters))%nat
      | Some (Scanned (Some j) _) =>
          (b = Some j ∨ (i ≤ j < i + S (length clusters))%nat)
      | _ => True
      end) as Hrest.
    { intros b m. specialize (IH (S i) b m).
      destruct (scanClusters clusters (S i) article time b m) as [[j|[j|] ?]|];
        try done; [lia | destruct IH; [by left | right; lia]]. }
    destruct (_ <? _)%float; [apply Hrest|].
    destruct (duplicateMatch (articles c) article) as [[|]|]; [lia | | done].
    destruct (_ <? _)%float; [|apply Hrest].
    specialize (Hrest (Some i) (cosineSimilarity (Article.embedding article) (Some (centroid c)))).
    destruct (scanClusters clusters (S i) article time _ _) as [[j|[j|] ?]|]; try done.
    destruct Hrest as [[= <-] | ?]; right; lia.
Qed.

Lemma totalMembers_app (l1 l2 : list MicroCluster) :
  totalMembers (l1 ++ l2) = (totalMembers l1 + totalMembers l2)%nat.
Proof. apply sum_list_with_app. Qed.

(** Altering the cluster of a valid index by a function that adds one
    member adds one member in all. *)
Lemma totalMembers_alter (f : MicroCluster → MicroCluster) clusters :
  (∀ c, length (articles (f c)) = S (length (articles c))) →
  ∀ j, (j < length clusters)%nat →
  totalMembers (alter f j clusters) = S (totalMembers clusters) ∧
  (Forall (λ c, articles c ≠ []) clusters →
   Forall (λ c, articles c ≠ []) (alter f j clusters)).
Proof.
  intros Hf. induction clusters as [|c clusters IH]; intros j Hj; [cbn in Hj; lia|].
  destruct j as [|j].
  - cbn. unfold totalMembers. cbn. rewrite Hf. split; [lia|].
    intros Hne. apply Forall_cons in Hne as [_ Hne]. constructor; [|done].
    intros Hnil. specialize (Hf c). rewrite Hnil in Hf. done.
  - cbn in Hj. destruct (IH j ltac:(lia)) as [Htotal Hne].
    change (alter f (S j) (c :: clusters)) with (c :: alter f j clusters).
    unfold totalMembers in *. cbn. rewrite Htotal. split; [lia|].
    intros Hall. apply Forall_cons in Hall as [Hc Hall]. constructor; [done | by apply Hne].
Qed.

(** Every iteration adds exactly one member, to a cluster that then has
    at least one. *)
Lemma processArticle_totalMembers microClusters microClusters' :
  processArticle microClusters article time = Some microClusters' →
  totalMembers microClusters' = S (totalMembers microClusters) ∧
  (Forall (λ c, articles c ≠ []) microClusters →
   Forall (λ c, articles c ≠ []) microClusters').
Proof.
  unfold processArticle.
  pose proof (scanClusters_index microClusters 0 None (-1)%float) as Hidx.
  destruct (scanClusters microClusters 0 article time None (-1)%float)
    as [[j|[j|] maxSim]|]; cbn; [| | |done].
  - intros [= <-]. apply totalMembers_alter; [|lia].
    intros c. cbn. rewrite length_app. cbn. lia.
  - intros [= <-]. destruct (_ <=? _)%float.
    + apply totalMembers_alter; [|destruct Hidx; [done | lia]].
      intros c. cbn. rewrite length_app. cbn. lia.
    + rewrite totalMembers_app. unfold totalMembers at 2. cbn. split; [lia|].
      intros Hall. apply Forall_app. split; [done|]. by repeat constructor.
  - intros [= <-]. rewrite totalMembers_app. unfold totalMembers at 2. cbn. split; [lia|].
    intros Hall. apply Forall_app. split; [done|]. by repeat constructor.
Qed.

End ClusterSizes.

Lemma clusterLoop_totalMembers clock validArticles :
  ∀ k microClusters result,
  clusterLoop clock k validArticles microClusters = Some result →
  totalMembers result = (totalMembers microClusters + length validArticles)%nat ∧
  (Forall (λ c, articles c ≠ []) microClusters → Forall (λ c, articles c ≠ []) result).
Proof.
  induction validArticles as [|a validArticles IH]; intros k microClusters result.
  - cbn. intros [= <-]. split; [lia | done].
  - cbn [clusterLoop length].
    destruct (processArticle microClusters a _) as [microClusters'|] eqn:Hstep; cbn; [|done].
    intros Hrest. destruct (IH _ _ _ Hrest) as [Htotal Hne].
    destruct (processArticle_totalMembers _ _ _ _ Hstep) as [Hone Hne1].
    split; [lia | auto].
Qed.

Lemma members_le_total (cluster : MicroCluster) clusters :
  cluster ∈ clusters → (length (articles cluster) ≤ totalMembers clusters)%nat.
Proof.
  intros Hin. by apply (sum_list_with_in _ (λ c, length (articles c))).
Qed.

(** The clusterer loses no article with an embedding and invents none:
    every cluster has at least one member and at most as many as there
    were articles. *)
Lemma clusterArticles_sizes clock (articles0 : list Article.t) clusters cluster :
  clusterArticles clock articles0 = Some clusters →
  cluster ∈ clusters →
  (1 ≤ length (articles cluster) ≤ length articles0)%nat ∧
  totalMembers clusters = validCount articles0.
Proof.
  unfold clusterArticles. intros Hrun Hin.
  destruct (clusterLoop_totalMembers _ _ _ _ _ Hrun) as [Htotal Hne].
  specialize (Hne ltac:(constructor)).
  pose proof (members_le_total _ _ Hin) as Hle.
  pose proof (length_filter (λ a, is_Some (Article.embedding a)) articles0) as Hfilter.
  rewrite Forall_forall in Hne. specialize (Hne _ Hin).
  unfold totalMembers at 2 in Htotal. cbn in Htotal. unfold validCount.
  split; [|lia]. split; [|lia].
  destruct (articles cluster); [done | cbn; lia].
Qed.

Lemma rowsToArticles_length rows :
  ∀ articles0, rowsToArticles rows = Some articles0 → length articles0 = length rows.
Proof.
  induction rows as [|r rows IH]; intros articles0; cbn.
  - by intros [= <-].
  - destruct (rowToArticle r); [|done]. destruct (rowsToArticles rows); [|done].
    intros [= <-]. cbn. by rewrite (IH _ eq_refl).
Qed.

(** The labels keep the members of the clusters they label. *)
Lemma generateLabels_articles ai clusters :
  ∀ calls (l : Labeled.t),
  l ∈ (generateLabels ai calls clusters).1 →
  ∃ cluster, cluster ∈ clusters ∧ Labeled.articles l = articles cluster.
Proof.
  induction clusters as [|c clusters IH]; intros calls l; cbn [generateLabels].
  - cbn. by intros ?%elem_of_nil.
  - destruct (processCluster ai calls c) as [result calls'] eqn:Hone.
    specialize (IH calls' l).
    destruct (generateLabels ai calls' clusters) as [labeled calls''].
    cbn in *. intros Hin.
    assert (l ∈ labeled ∨ result = Some l) as [Hl | ->].
    { destruct result; [apply elem_of_cons in Hin as [->|]|]; auto. }
    + destruct (IH Hl) as (cluster & Hc & Heq). exists cluster. split; [by right | done].
    + exists c. split; [by left|].
      unfold processCluster in Hone. destruct (articles c) as [|first rest] eqn:Hmembers;
        [done|]. injection Hone as <- _.
      destruct (ai calls) as [| |[h s0 k|]]; by rewrite <- Hmembers.
Qed.

(** So every cluster that a run of the pipeline labels has 1 to 50
    members, and its statistics are those of [roundedStats]. *)
Lemma run_stats_rounded
    (clock : nat → float) (ai : nat → Generation) (calls : nat)
    (embedder : option (string → option vector))
    (nerModel : option (string → option (list string)))
    (rows : list ArticleRow) (cutoffDate : string)
    (articles0 enriched : list Article.t) (rawClusters : list MicroCluster)
    (l : Labeled.t) :
  rowsToArticles (selectUnclustered rows cutoffDate) = Some articles0 →
  enrichArticles embedder nerModel articles0 = Some enriched →
  clusterArticles clock enriched = Some rawClusters →
  l ∈ (generateLabels ai calls rawClusters).1 →
  (1 ≤ length (Labeled.articles l) ≤ 50)%nat ∧
  computeStats (Labeled.articles l) = roundedStats (Labeled.articles l).
Proof.
  intros Hrows Henrich Hcluster Hl.
  destruct (generateLabels_articles _ _ _ _ Hl) as (cluster & Hin & ->).
  destruct (clusterArticles_sizes _ _ _ _ Hcluster Hin) as [Hsize _].
  assert (length enriched ≤ 50)%nat as Hfifty.
  { unfold enrichArticles in Henrich. destruct embedder; [|done].
    injection Henrich as <-. rewrite length_map, (rowsToArticles_length _ _ Hrows).
    unfold selectUnclustered. rewrite length_take. lia. }
  assert (1 ≤ length (articles cluster) ≤ 50)%nat as Hbound by lia.
  split; [exact Hbound|]. by apply computeStats_rounded.
Qed.

(** * Further properties *)

(** ** The clusterer: what becomes of every article *)

Lemma allMembers_app (l1 l2 : list MicroCluster) :
  allMembers (l1 ++ l2) = allMembers l1 ++ allMembers l2.
Proof. unfold allMembers. by rewrite map_app, concat_app. Qed.

Lemma allMembers_alter (f : MicroCluster → MicroCluster) (a : Article.t) clusters :
  (∀ c, articles (f c) = articles c ++ [a]) →
  ∀ j, (j < length clusters)%nat →
  allMembers (alter f j clusters) ≡ₚ allMembers clusters ++ [a].
Proof.
  intros Hf. induction clusters as [|c clusters IH]; intros j Hj; [cbn in Hj; lia|].
  destruct j as [|j].
  - cbn. unfold allMembers. cbn. rewrite Hf, <- !app_assoc.
    apply Permutation_app_head, Permutation_app_comm.
  - change (alter f (S j) (c :: clusters)) with (c :: alter f j clusters).
    unfold allMembers in *. cbn. rewrite <- app_assoc.
    apply Permutation_app_head, IH. cbn in Hj. lia.
Qed.

Lemma processArticle_allMembers microClusters (article : Article.t) time microClusters' :
  processArticle microClusters article time = Some microClusters' →
  allMembers microClusters' ≡ₚ allMembers microClusters ++ [article].
Proof.
  unfold processArticle.
  pose proof (scanClusters_index article time microClusters 0 None (-1)%float) as Hidx.
  destruct (scanClusters microClusters 0 article time None (-1)%float)
    as [[j|[j|] maxSim]|]; cbn; [| | |done].
  - intros [= <-]. apply allMembers_alter; [done | lia].
  - intros [= <-]. destruct (_ <=? _)%float.
    + apply allMembers_alter; [done | destruct Hidx; [done | lia]].
    + rewrite allMembers_app. unfold allMembers at 2. cbn. by rewrite ?app_nil_r.
  - intros [= <-]. rewrite allMembers_app. unfold allMembers at 2. cbn. by rewrite ?app_nil_r.
Qed.

Lemma clusterLoop_allMembers clock validArticles :
  ∀ k microClusters result,
  clusterLoop clock k validArticles microClusters = Some result →
  allMembers result ≡ₚ allMembers microClusters ++ validArticles.
Proof.
  induction validArticles as [|a validArticles IH]; intros k microClusters result.
  - cbn. intros [= <-]. by rewrite app_nil_r.
  - cbn [clusterLoop].
    destruct (processArticle microClusters a _) as [microClusters'|] eqn:Hstep; cbn; [|done].
    intros Hrest. rewrite (IH _ _ _ Hrest), (processArticle_allMembers _ _ _ _ Hstep).
    by rewrite <- app_assoc.
Qed.

(** X1.  The clusters partition the articles that have an embedding:
    taken together, the members of the clusters are exactly those
    articles, each one once; an article without an embedding is in no
    cluster, and no cluster is empty. *)
Theorem clusterArticles_partition
    (clock : nat → float) (articles0 : list Article.t) (clusters : list MicroCluster) :
  clusterArticles clock articles0 = Some clusters →
  allMembers clusters ≡ₚ validArticlesOf articles0 ∧
  Forall (λ c, articles c ≠ []) clusters.
Proof.
  unfold clusterArticles. intros Hrun. split.
  - by rewrite (clusterLoop_allMembers _ _ _ _ _ Hrun).
  - by apply (clusterLoop_totalMembers _ _ _ _ _ Hrun).
Qed.

Lemma clusterArticles_partition_witness :
  allMembers [newCluster A1 T0; newCluster A3 T49h] ≡ₚ validArticlesOf [A1; A3] ∧
  Forall (λ c, articles c ≠ []) [newCluster A1 T0; newCluster A3 T49h].
Proof.
  apply (clusterArticles_partition tickingClock [A1; A3]). vm_compute. reflexivity.
Defined.

(** ** The clusterer: centroids *)

Lemma length_normalizeVector (vec : vector) : length (normalizeVector vec) = length vec.
Proof. unfold normalizeVector. apply length_map. Qed.

Lemma length_weightedVectorAdd (a : vector) (vecB : option vector) wA wB (r : vector) :
  weightedVectorAdd (Some a) vecB wA wB = Some r → length r = length a.
Proof.
  destruct vecB as [b|]; cbn; intros [= <-]; [apply length_imap | done].
Qed.

Lemma centroidFits_merge (article : Article.t) time cluster :
  centroidFits cluster → centroidFits (mergeArticle article time cluster).
Proof.
  unfold centroidFits, mergeArticle. cbn [articles centroid].
  destruct (articles cluster) as [|first rest]; [done|]. cbn [app]. intros <-.
  destruct (weightedVectorAdd (Some (centroid cluster)) (Article.embedding article)
              0.8%float 0.2%float) as [v|] eqn:Hadd; [|done].
  rewrite length_normalizeVector. exact (length_weightedVectorAdd _ _ _ _ _ Hadd).
Qed.

Lemma centroidFits_push (article : Article.t) cluster :
  centroidFits cluster → centroidFits (pushArticle article cluster).
Proof.
  unfold centroidFits, pushArticle. cbn. by destruct (articles cluster).
Qed.

Lemma processArticle_centroidFits microClusters (article : Article.t) time microClusters' :
  processArticle microClusters article time = Some microClusters' →
  Forall centroidFits microClusters → Forall centroidFits microClusters'.
Proof.
  unfold processArticle.
  destruct (scanClusters microClusters 0 article time None (-1)%float)
    as [[j|[j|] maxSim]|]; cbn; [| | |done]; intros [= <-] Hall.
  - apply Forall_alter; [done|]. intros c _ Hc. by apply centroidFits_push.
  - destruct (_ <=? _)%float.
    + apply Forall_alter; [done|]. intros c _ Hc. by apply centroidFits_merge.
    + apply Forall_app. split; [done|]. repeat constructor.
  - apply Forall_app. split; [done|]. repeat constructor.
Qed.

(** X2.  Every cluster the clusterer returns has a centroid of the
    dimension of the embedding of its first member: neither a duplicate
    merge nor a semantic merge changes the dimension of a centroid. *)
Theorem clusterArticles_centroid_dimension
    (clock : nat → float) (articles0 : list Article.t) (clusters : list MicroCluster) :
  clusterArticles clock articles0 = Some clusters →
  Forall centroidFits clusters.
Proof.
  unfold clusterArticles.
  assert (∀ valid k microClusters result,
            clusterLoop clock k valid microClusters = Some result →
            Forall centroidFits microClusters → Forall centroidFits result) as Hloop.
  { induction valid as [|a valid IH]; intros k microClusters result; cbn [clusterLoop].
    - by intros [= <-].
    - destruct (processArticle microClusters a _) as [microClusters'|] eqn:Hstep; cbn; [|done].
      intros Hrest Hall. eapply IH; [exact Hrest|].
      by eapply processArticle_centroidFits. }
  intros Hrun. eapply Hloop; [exact Hrun | constructor].
Qed.

Lemma clusterArticles_centroid_dimension_witness :
  Forall centroidFits [mergeArticle A2 T1h (newCluster A1 T0)].
Proof.
  apply (clusterArticles_centroid_dimension tickingClock [A1; A2]).
  vm_compute. reflexivity.
Defined.

(** ** The clusterer: where an article goes *)

Section Placement.

Variable article : Article.t.
Variable time : float.

Lemma scanClusters_tooFar clusters :
  Forall (tooFar article time) clusters →
  ∀ i bestIdx maxSim,
  (CLUSTERING_THRESHOLD <=? maxSim)%float = false →
  ∃ bestIdx' maxSim',
    scanClusters clusters i article time bestIdx maxSim = Some (Scanned bestIdx' maxSim') ∧
    (CLUSTERING_THRESHOLD <=? maxSim')%float = false.
Proof.
  induction 1 as [|c clusters Hc _ IH]; intros i bestIdx maxSim Hmax.
  - by exists bestIdx, maxSim.
  - cbn [scanClusters]. fold (outOfWindow time c).
    destruct Hc as [-> | [Hdup Hsim]]; [by apply IH|].
    destruct (outOfWindow time c); [by apply IH|]. rewrite Hdup.
    fold (centroidSim article c).
    destruct (maxSim <? centroidSim article c)%float; by apply IH.
Qed.

Lemma scanClusters_losers (s : float) pre rest :
  Forall (losesTo article time s) pre →
  ∀ i bestIdx maxSim,
  (maxSim <? s)%float = true →
  ∃ bestIdx' maxSim',
    scanClusters (pre ++ rest) i article time bestIdx maxSim
    = scanClusters rest (i + length pre) article time bestIdx' maxSim' ∧
    (maxSim' <? s)%float = true.
Proof.
  induction 1 as [|c pre Hc _ IH]; intros i bestIdx maxSim Hmax.
  - exists bestIdx, maxSim. cbn. by rewrite Nat.add_0_r.
  - cbn [app scanClusters length]. rewrite Nat.add_succ_r, <- Nat.add_succ_l.
    fold (outOfWindow time c).
    destruct Hc as [-> | [Hdup Hsim]]; [by apply IH|].
    destruct (outOfWindow time c); [by apply IH|]. rewrite Hdup.
    fold (centroidSim article c).
    destruct (maxSim <? centroidSim article c)%float; by apply IH.
Qed.

Lemma scanClusters_no_better (s : float) post :
  Forall (doesNotBeat article time s) post →
  ∀ i bestIdx,
  scanClusters post i article time bestIdx s = Some (Scanned bestIdx s).
Proof.
  induction 1 as [|c post Hc _ IH]; intros i bestIdx; [done|].
  cbn [scanClusters]. fold (outOfWindow time c).
  destruct Hc as [-> | [Hdup Hsim]]; [by apply IH|].
  destruct (outOfWindow time c); [by apply IH|]. rewrite Hdup.
  fold (centroidSim article c). rewrite Hsim. by apply IH.
Qed.

End Placement.

(** X3.  With headlines in ASCII, an article that is out of the window
    of, or below the threshold of 0.55 and not a duplicate for, every
    cluster built so far starts a new cluster of its own, whose centroid
    is its embedding and whose latest time is its time. *)
Theorem processArticle_new_cluster
    (microClusters : list MicroCluster) (article : Article.t) (time : float) :
  asciiHeadline article → asciiHeadlines microClusters →
  Forall (tooFar article time) microClusters →
  processArticle microClusters article time
  = Some (microClusters ++
            [{| centroid := default [] (Article.embedding article);
                articles := [article];
                latestTime := time |}]).
Proof.
  intros _ _ Hall. unfold processArticle.
  destruct (scanClusters_tooFar article time _ Hall 0 None (-1)%float eq_refl)
    as (bestIdx & maxSim & -> & Hlow).
  cbn -[CLUSTERING_THRESHOLD]. destruct bestIdx; [by rewrite Hlow | done].
Qed.

(** A report on another subject, after a report and its repetition 49
    hours later. *)
Lemma processArticle_new_cluster_witness :
  processArticle [newCluster A1 T0; newCluster A3 T49h] B1 T1h
  = Some ([newCluster A1 T0; newCluster A3 T49h] ++
            [{| centroid := [0; 1]%float; articles := [B1]; latestTime := T1h |}]).
Proof.
  apply (processArticle_new_cluster [newCluster A1 T0; newCluster A3 T49h] B1 T1h).
  - reflexivity.
  - repeat constructor.
  - repeat constructor; right; split; reflexivity.
Defined.

(** X4.  The semantic merge.  With headlines in ASCII, when the article
    is a duplicate of no
    cluster in the window, and the cluster [best] is in the window with a
    similarity of at least 0.55 that is strictly greater than that of
    every earlier candidate and not exceeded by any later one (on a tie
    the earlier cluster wins), the article is pushed onto [best], the
    centroid of [best] becomes the normalized 0.8/0.2 combination and its
    latest time the later of the two times; the other clusters stay. *)
Theorem processArticle_semantic_merge
    (pre post : list MicroCluster) (best : MicroCluster)
    (article : Article.t) (vec : vector) (time : float) :
  asciiHeadline article → asciiHeadlines (pre ++ best :: post) →
  Article.embedding article = Some vec →
  Forall (losesTo article time (centroidSim article best)) pre →
  outOfWindow time best = false →
  duplicateMatch (articles best) article = Some false →
  (-1 <? centroidSim article best)%float = true →
  (CLUSTERING_THRESHOLD <=? centroidSim article best)%float = true →
  Forall (doesNotBeat article time (centroidSim article best)) post →
  processArticle (pre ++ best :: post) article time
  = Some (pre ++
          {| centroid :=
               normalizeVector
                 (imap (λ i val, (val * 0.8 + default nan (vec !! i) * 0.2)%float)
                       (centroid best));
             articles := articles best ++ [article];
             latestTime := if (latestTime best <? time)%float then time
                           else latestTime best |} :: post).
Proof.
  intros _ _ Hvec Hpre Hin Hdup Hpos Hthr Hpost. unfold processArticle.
  destruct (scanClusters_losers article time _ pre (best :: post) Hpre 0 None (-1)%float Hpos)
    as (bestIdx & maxSim & -> & Hmax).
  cbn [scanClusters]. fold (outOfWindow time best). rewrite Hin, Hdup.
  fold (centroidSim article best). rewrite Hmax.
  rewrite (scanClusters_no_better article time _ post Hpost).
  cbn -[CLUSTERING_THRESHOLD]. rewrite Hthr.
  f_equal. replace (length pre) with (length pre + 0)%nat by lia.
  rewrite alter_app_r. cbn. unfold mergeArticle. by rewrite Hvec.
Qed.

(** The first scenario of the specification among other clusters: the
    second report is at 0.6 from the cluster of [B1], which comes first
    and is above the threshold too, and at 0.8 from the clusters of [A1]
    and of [A3]; it joins the cluster of [A1], the earlier of the two. *)
Lemma processArticle_semantic_merge_witness :
  processArticle ([newCluster B1 T1h] ++ newCluster A1 T0 :: [newCluster A3 T49h]) A2 T1h
  = Some ([newCluster B1 T1h] ++
          {| centroid :=
               normalizeVector
                 (imap (λ i val, (val * 0.8 + default nan ([0.8; 0.6]%float !! i) * 0.2)%float)
                       [1; 0]%float);
             articles := [A1] ++ [A2];
             latestTime := if (T0 <? T1h)%float then T1h else T0 |}
          :: [newCluster A3 T49h]).
Proof.
  apply (processArticle_semantic_merge [newCluster B1 T1h] [newCluster A3 T49h]
           (newCluster A1 T0) A2 [0.8; 0.6]%float T1h).
  - reflexivity.
  - repeat constructor.
  - reflexivity.
  - repeat constructor; right; split; reflexivity.
  - reflexivity.
  - reflexivity.
  - reflexivity.
  - reflexivity.
  - repeat constructor; right; split; reflexivity.
Defined.

(** X5.  Duplicate absorption.  With headlines in ASCII, none of them
    null, an
    article that has the headline of a member of a cluster in the window
    (up to case and surrounding spaces), or a similarity of at least 0.90
    to one, joins the first such cluster whatever its similarity to the
    centroid; that cluster keeps its centroid, and the other clusters
    stay. *)
Theorem duplicate_absorption
    (pre post : list MicroCluster) (cluster : MicroCluster)
    (article : Article.t) (time : float) :
  asciiHeadline article → asciiHeadlines (pre ++ [cluster]) →
  is_Some (headline article) →
  Forall (λ c, Forall (λ m : Article.t, is_Some (headline m)) (articles c))
         (pre ++ [cluster]) →
  Forall (λ c, outOfWindow time c = true ∨
               existsb (isDuplicateOf article) (articles c) = false) pre →
  outOfWindow time cluster = false →
  existsb (isDuplicateOf article) (articles cluster) = true →
  processArticle (pre ++ cluster :: post) article time
  = Some (pre ++ {| centroid := centroid cluster;
                    articles := articles cluster ++ [article];
                    latestTime := latestTime cluster |} :: post).
Proof.
  intros _ _ Hh Hheads Hpre Hin Hdup.
  apply Forall_app in Hheads as [Hheads_pre Hheads_c].
  apply Forall_cons in Hheads_c as [Hheads_c _].
  apply processArticle_duplicate; [|done|].
  - clear Hin Hdup Hheads_c.
    induction Hpre as [|c pre Hc _ IH]; [constructor|].
    apply Forall_cons in Hheads_pre as [Hc_heads Hheads_pre].
    constructor; [|by apply IH].
    destruct Hc as [Hout | Hnone]; [by left | right].
    by rewrite (duplicateMatch_existsb article c.(articles) Hh Hc_heads), Hnone.
  - by rewrite (duplicateMatch_existsb article _ Hh Hheads_c), Hdup.
Qed.

(** The third scenario of the specification among other clusters: the
    repetition passes the cluster of [B1], which is in the window and
    holds no duplicate, and joins the cluster of [A1], although the
    cluster of [A3] after it holds the same headline and is in the window
    too. *)
Lemma duplicate_absorption_witness :
  processArticle ([newCluster B1 T1h] ++ newCluster A1 T0 :: [newCluster A3 T49h]) A1' T1h
  = Some ([newCluster B1 T1h] ++
          {| centroid := [1; 0]%float; articles := [A1] ++ [A1']; latestTime := T0 |}
          :: [newCluster A3 T49h]).
Proof.
  apply (duplicate_absorption [newCluster B1 T1h] [newCluster A3 T49h]
           (newCluster A1 T0) A1' T1h).
  - reflexivity.
  - repeat constructor.
  - by eexists.
  - repeat constructor; by eexists.
  - constructor; [right; reflexivity | constructor].
  - reflexivity.
  - reflexivity.
Defined.

(** Headlines outside ASCII: ÉLECTION EN INDE in capitals and in small
    letters are the same headline once lowered, and a no-break space
    around a headline is trimmed like a space. *)
Example sameHeadline_accented :
  sameHeadline (sampleArticle "f1" headlineInSmall None [1; 0]%float)
               (sampleArticle "f2" headlineInCapitals None [0; 1]%float)
  = Some true.
Proof. vm_compute. reflexivity. Qed.

Example trim_no_break_space :
  trim (String (ascii_of_nat 160) ("Budget " ++ String (ascii_of_nat 160) " "))
  = "Budget"%string.
Proof. vm_compute. reflexivity. Qed.

(** ** The labeler *)

Lemma generateLabels_spec ai clusters :
  ∀ calls,
  map Labeled.articles (generateLabels ai calls clusters).1
  = filter (λ members, members ≠ []) (map articles clusters) ∧
  (generateLabels ai calls clusters).2
  = (calls + length (generateLabels ai calls clusters).1)%nat ∧
  (∀ j l, (generateLabels ai calls clusters).1 !! j = Some l →
          ∃ first rest, Labeled.articles l = first :: rest ∧
                        l = labelOf ai (calls + j) first rest).
Proof.
  induction clusters as [|c clusters IH]; intros calls; cbn [generateLabels].
  - cbn. split_and!; [done | lia | by intros j l ?].
  - unfold processCluster. destruct (articles c) as [|first rest] eqn:Hmembers.
    + specialize (IH calls). destruct (generateLabels ai calls clusters) as [labeled calls'].
      cbn [fst snd map] in *. rewrite Hmembers, filter_cons_False by (by intros ?). exact IH.
    + specialize (IH (S calls)).
      destruct (generateLabels ai (S calls) clusters) as [labeled calls'].
      cbn [fst snd map length] in *. destruct IH as (Hmap & Hcalls & Hlabels).
      rewrite Hmembers, filter_cons_True by done. split_and!.
      * f_equal; [|done]. by destruct (ai calls) as [| |[? ? ?|]].
      * lia.
      * intros [|j] l; cbn.
        -- intros [= <-]. exists first, rest. rewrite Nat.add_0_r. unfold labelOf.
           by destruct (ai calls) as [| |[? ? ?|]].
        -- intros Hl. destruct (Hlabels j l Hl) as (f & r & Hf & Heq).
           exists f, r. split; [done|]. by rewrite Nat.add_succ_r.
Qed.

(** X6.  [generateLabels] returns one label per cluster with members, in
    the order of the clusters, each carrying the members of its cluster;
    it makes one request per label and none for an empty cluster, and the
    label of index [j] is made from the answer to the request of index
    [calls + j]: the answer spread, or the fallback when the request or
    the parse failed. *)
Theorem generateLabels_one_per_cluster
    (ai : nat → Generation) (calls : nat) (clusters : list MicroCluster) :
  map Labeled.articles (generateLabels ai calls clusters).1
  = filter (λ members, members ≠ []) (map articles clusters) ∧
  (generateLabels ai calls clusters).2
  = (calls + length (generateLabels ai calls clusters).1)%nat ∧
  (∀ j l, (generateLabels ai calls clusters).1 !! j = Some l →
          ∃ first rest, Labeled.articles l = first :: rest ∧
                        l = labelOf ai (calls + j) first rest).
Proof. apply generateLabels_spec. Qed.

(** ** The image of a cluster *)

Lemma bestImage_spec (members : list Article.t) :
  match bestImage members with
  | Some u =>
      ∃ pre a post, members = pre ++ a :: post ∧ Forall noImage pre ∧
                    image_url a = Some u ∧ u ≠ EmptyString
  | None => Forall noImage members
  end.
Proof.
  induction members as [|a members IH]; cbn; [constructor|].
  destruct (image_url a) as [u|] eqn:Himg.
  - case_bool_decide as Hu.
    + subst u. destruct (bestImage members) as [v|].
      * destruct IH as (pre & b & post & -> & Hpre & Hb & Hv).
        exists (a :: pre), b, post. split_and!; try done. constructor; [by right | done].
      * constructor; [by right | done].
    + exists [], a, members. split_and!; try done; constructor.
  - destruct (bestImage members) as [v|].
    + destruct IH as (pre & b & post & -> & Hpre & Hb & Hv).
      exists (a :: pre), b, post. split_and!; try done. constructor; [by left | done].
    + constructor; [by left | done].
Qed.

(** X7.  The main image of a cluster is the image URL of the first member
    that has one that is neither null nor empty; there is none exactly
    when no member has such a URL. *)
Theorem bestImage_first_usable (members : list Article.t) :
  (∀ u, bestImage members = Some u →
        ∃ pre a post, members = pre ++ a :: post ∧ Forall noImage pre ∧
                      image_url a = Some u ∧ u ≠ EmptyString) ∧
  (bestImage members = None ↔ Forall noImage members).
Proof.
  pose proof (bestImage_spec members) as Hspec. split.
  - intros u Hu. by rewrite Hu in Hspec.
  - split.
    + intros Hnone. by rewrite Hnone in Hspec.
    + intros Hall. destruct (bestImage members) as [u|]; [|done].
      destruct Hspec as (pre & a & post & -> & _ & Ha & Hu).
      apply Forall_app in Hall as [_ Hall]. apply Forall_cons in Hall as [[Hnone|Hempty] _].
      * by rewrite Ha in Hnone.
      * rewrite Ha in Hempty. by injection Hempty.
Qed.

Lemma bestImage_first_usable_witness :
  ∃ pre a post,
    [withImage A1 None; withImage A2 (Some EmptyString);
     withImage A3 (Some "https://example.org/a3.jpg"%string);
     withImage B1 (Some "https://example.org/b1.jpg"%string)]
    = pre ++ a :: post ∧
    Forall noImage pre ∧
    image_url a = Some "https://example.org/a3.jpg"%string ∧
    "https://example.org/a3.jpg"%string ≠ EmptyString.
Proof.
  destruct (bestImage_first_usable
              [withImage A1 None; withImage A2 (Some EmptyString);
               withImage A3 (Some "https://example.org/a3.jpg"%string);
               withImage B1 (Some "https://example.org/b1.jpg"%string)]) as [Hsome _].
  apply Hsome. reflexivity.
Defined.

(** ** The enricher *)

Lemma enrichArticle_frame embedder nerModel (a : Article.t) :
  Article.row (enrichArticle embedder nerModel a) = Article.row a ∧
  Article.pubDate (enrichArticle embedder nerModel a) = Article.pubDate a.
Proof.
  unfold enrichArticle.
  destruct (embedder _) as [textVector|]; [|done].
  match goal with
  | |- context [match ?ev with Some _ => _ | None => a end] => destruct ev as [entityVector|]
  end; done.
Qed.

(** What the body of the loop makes of one article, case by case. *)
Lemma enrichArticle_cases embedder nerModel (a : Article.t) :
  let ents := entityListOf nerModel (fullTextOf a) in
  let e := enrichArticle embedder nerModel a in
  (embedder (fullTextOf a) = None → e = a) ∧
  (ents ≠ [] → embedder (join " " ents) = None → e = a) ∧
  (∀ textVector,
     embedder (fullTextOf a) = Some textVector → ents = [] →
     e = analysed a textVector []) ∧
  (∀ textVector entityVector,
     embedder (fullTextOf a) = Some textVector → ents ≠ [] →
     embedder (join " " ents) = Some entityVector →
     e = analysed a (fused textVector entityVector) ents).
Proof.
  cbn zeta. unfold enrichArticle, entityListOf, fullTextOf.
  destruct (embedder (interpolate (headline a) ++ ". " ++ interpolate (summary a))%string)
    as [textVector|] eqn:Htext.
  - destruct nerModel as [ner|].
    + destruct (default [] (ner (interpolate (headline a) ++ ". "
                                   ++ interpolate (summary a))%string))
        as [|ent ents] eqn:Hents.
      * split_and!; [done | done | by intros ? [= <-] _ | done].
      * destruct (embedder (join " " (ent :: ents))) as [entityVector|] eqn:Hentity.
        -- split_and!; [done | done | done | by intros ? ? [= <-] _ [= <-]].
        -- split_and!; [done | done | done | done].
    + split_and!; [done | done | by intros ? [= <-] _ | done].
  - split_and!; [done | | done | done].
    destruct nerModel as [ner|]; [|done].
    destruct (default [] (ner _)) as [|ent ents]; [done|].
    by destruct (embedder (join " " (ent :: ents))).
Qed.

(** X8.  Enrichment keeps the articles, their order and their stored
    columns: every article comes back at its place with the same row and
    the same [pubDate].  It comes back untouched when the embedding of its
    text throws, and when entities were found and their embedding throws.
    Otherwise it carries the entities found and a normalized vector: that
    of its text when no entity was found (the tagger being disabled or
    having thrown included), and the 0.7/0.3 fusion of the vector of the
    text with the vector of the entities when some were. *)
Theorem enrichArticles_frame
    (embedder : string → option vector)
    (nerModel : option (string → option (list string)))
    (articles0 enriched : list Article.t) :
  enrichArticles (Some embedder) nerModel articles0 = Some enriched →
  map Article.row enriched = map Article.row articles0 ∧
  map Article.pubDate enriched = map Article.pubDate articles0 ∧
  Forall2 (λ a e,
             let ents := entityListOf nerModel (fullTextOf a) in
             (embedder (fullTextOf a) = None → e = a) ∧
             (ents ≠ [] → embedder (join " " ents) = None → e = a) ∧
             (∀ textVector,
                embedder (fullTextOf a) = Some textVector → ents = [] →
                e = analysed a textVector []) ∧
             (∀ textVector entityVector,
                embedder (fullTextOf a) = Some textVector → ents ≠ [] →
                embedder (join " " ents) = Some entityVector →
                e = analysed a (fused textVector entityVector) ents))
          articles0 enriched.
Proof.
  cbn. intros [= <-].
  induction articles0 as [|a articles0 (IHrow & IHdate & IHall)]; cbn.
  - split_and!; [done | done | constructor].
  - destruct (enrichArticle_frame embedder nerModel a) as (Hrow & Hdate).
    rewrite Hrow, Hdate, IHrow, IHdate. split_and!; [done | done |].
    constructor; [apply enrichArticle_cases | done].
Qed.

(** Three reports.  The tagger finds Washington in the first, whose
    vector is the fusion of [[3; 4]] with [[4; 3]]; the text of the second
    is rejected by the embedding model; the entity found in the third is
    rejected, and the vector of its text is dropped with it. *)
Lemma enrichArticles_frame_witness :
  map Article.row
    (map (enrichArticle placeEmbedder (Some (taggerModel placeTagger))) [A1; B1; cupReport])
  = map Article.row [A1; B1; cupReport] ∧
  enrichArticle placeEmbedder (Some (taggerModel placeTagger)) A1
  = analysed A1 (fused [3; 4]%float [4; 3]%float) ["Washington"%string] ∧
  enrichArticle placeEmbedder (Some (taggerModel placeTagger)) B1 = B1 ∧
  enrichArticle placeEmbedder (Some (taggerModel placeTagger)) cupReport = cupReport.
Proof.
  destruct (enrichArticles_frame placeEmbedder (Some (taggerModel placeTagger))
              [A1; B1; cupReport]
              (map (enrichArticle placeEmbedder (Some (taggerModel placeTagger)))
                   [A1; B1; cupReport])
              eq_refl) as (Hrows & _ & Hall).
  split; [exact Hrows|].
  apply Forall2_cons in Hall as [(_ & _ & _ & HA1) Hall].
  apply Forall2_cons in Hall as [(HB1 & _) Hall].
  apply Forall2_cons in Hall as [(_ & Hcup & _) _].
  split_and!.
  - apply (HA1 [3; 4]%float [4; 3]%float); [reflexivity | discriminate | reflexivity].
  - apply HB1. reflexivity.
  - apply Hcup; [discriminate | reflexivity].
Defined.

(** ** The upsert *)

Lemma hasId_true (i : string) (rows : list ArticleRow) :
  hasId i rows = true ↔ ∃ r, r ∈ rows ∧ id r = i.
Proof.
  unfold hasId. rewrite existsb_exists. split; intros (r & Hr & Hi); exists r.
  - apply list_elem_of_In in Hr. by apply bool_decide_eq_true in Hi.
  - apply list_elem_of_In in Hr. by rewrite bool_decide_eq_true.
Qed.

Lemma hasId_false (i : string) (rows : list ArticleRow) :
  hasId i rows = false ↔ i ∉ map id rows.
Proof.
  rewrite <- not_true_iff_false, hasId_true, list_elem_of_fmap.
  split; intros Hno (r & H1 & H2); apply Hno; by exists r.
Qed.

Lemma urlTaken_true (u : option string) (rows : list ArticleRow) :
  urlTaken u rows = true ↔ is_Some u ∧ ∃ r, r ∈ rows ∧ url r = u.
Proof.
  unfold urlTaken. destruct u as [u|].
  - rewrite existsb_exists. split.
    + intros (r & Hr & Hu). apply list_elem_of_In in Hr. apply bool_decide_eq_true in Hu.
      split; [by eexists | by exists r].
    + intros (_ & r & Hr & Hu). exists r. apply list_elem_of_In in Hr.
      by rewrite bool_decide_eq_true.
  - split; [done | by intros [[? ?] _]].
Qed.

Lemma doUpdate_id (r e : ArticleRow) : id (doUpdate r e) = id r.
Proof. reflexivity. Qed.

Lemma doUpdate_again (r e : ArticleRow) : doUpdate (doUpdate r e) e = doUpdate r e.
Proof. unfold doUpdate, COALESCE. cbn. by destruct (image_url r), (image_url e). Qed.

Lemma doUpdate_self (e : ArticleRow) : doUpdate e e = e.
Proof. destruct e as [? ? ? ? ? ? ? ? ? ? img ? ? ?]. unfold doUpdate, COALESCE. cbn. destruct img; reflexivity. Qed.

(** The function the update maps over the rows. *)
Lemma upsertArticle_cases (rows : list ArticleRow) (a : DBArticle.t) :
  (hasId (DBArticle.id a) rows = true ∧
   upsertArticle rows a
   = map (λ r, if bool_decide (id r = DBArticle.id a) then doUpdate r (excludedRow a) else r)
         rows) ∨
  (hasId (DBArticle.id a) rows = false ∧ urlTaken (DBArticle.url a) rows = true ∧
   upsertArticle rows a = rows) ∨
  (hasId (DBArticle.id a) rows = false ∧ urlTaken (DBArticle.url a) rows = false ∧
   upsertArticle rows a = rows ++ [excludedRow a]).
Proof.
  unfold upsertArticle. cbn [id url excludedRow].
  destruct (hasId (DBArticle.id a) rows); [by left | right].
  destruct (urlTaken (DBArticle.url a) rows); [by left | by right].
Qed.

Lemma upsertArticle_keeps (rows : list ArticleRow) (a : DBArticle.t) (r : ArticleRow) :
  r ∈ rows →
  ∃ r', r' ∈ upsertArticle rows a ∧ id r' = id r ∧ url r' = url r.
Proof.
  intros Hr.
  destruct (upsertArticle_cases rows a) as [[_ ->] | [(_ & _ & ->) | (_ & _ & ->)]].
  - eexists. split; [by apply list_elem_of_fmap_2|]. by case_bool_decide.
  - by exists r.
  - exists r. split; [|done]. apply elem_of_app. by left.
Qed.

Lemma breaksUnique_true (rows : list ArticleRow) (a : DBArticle.t) :
  breaksUnique rows a = true ↔
  (DBArticle.id a ∉ map id rows) ∧ is_Some (DBArticle.url a)
  ∧ ∃ r, r ∈ rows ∧ url r = DBArticle.url a.
Proof.
  unfold breaksUnique.
  rewrite andb_true_iff, negb_true_iff, hasId_false, urlTaken_true. tauto.
Qed.

(** A statement that does not break the uniqueness of [url] leaves a row
    with the id of its article. *)
Lemma upsertArticle_stores (rows : list ArticleRow) (a : DBArticle.t) :
  breaksUnique rows a = false →
  ∃ r, r ∈ upsertArticle rows a ∧ id r = DBArticle.id a.
Proof.
  unfold breaksUnique. intros Hok.
  destruct (upsertArticle_cases rows a)
    as [[Hid ->] | [(Hid & Hurl & _) | (_ & _ & ->)]].
  - apply hasId_true in Hid as (r & Hr & Hi).
    eexists. split; [by apply list_elem_of_fmap_2|]. by case_bool_decide.
  - by rewrite Hid, Hurl in Hok.
  - exists (excludedRow a). split; [|done]. apply elem_of_app. right. by left.
Qed.

Lemma runStatements_app (l1 l2 : list DBArticle.t) :
  ∀ rows,
  runStatements rows (l1 ++ l2) = runStatements rows l1 ≫= λ rows1, runStatements rows1 l2.
Proof.
  induction l1 as [|a l1 IH]; intros rows; cbn; [done|].
  destruct (breaksUnique rows a); [done | apply IH].
Qed.

Lemma runStatements_keeps (incoming : list DBArticle.t) :
  ∀ (rows rows' : list ArticleRow) (r : ArticleRow),
  runStatements rows incoming = Some rows' →
  r ∈ rows →
  ∃ r', r' ∈ rows' ∧ id r' = id r ∧ url r' = url r.
Proof.
  induction incoming as [|a incoming IH]; intros rows rows' r Hrun Hr; cbn in Hrun.
  - injection Hrun as <-. by exists r.
  - destruct (breaksUnique rows a); [done|].
    destruct (upsertArticle_keeps rows a r Hr) as (r1 & Hr1 & Hid & Hurl).
    destruct (IH _ _ _ Hrun Hr1) as (r' & Hr' & Hid' & Hurl').
    exists r'. split; [done|]. split; congruence.
Qed.

Lemma runStatements_stores (incoming : list DBArticle.t) :
  ∀ (rows rows' : list ArticleRow) (a : DBArticle.t),
  runStatements rows incoming = Some rows' →
  a ∈ incoming →
  ∃ r, r ∈ rows' ∧ id r = DBArticle.id a.
Proof.
  induction incoming as [|a0 incoming IH]; intros rows rows' a Hrun Ha;
    [by apply elem_of_nil in Ha|].
  cbn in Hrun. destruct (breaksUnique rows a0) eqn:Hok; [done|].
  apply elem_of_cons in Ha as [-> | Ha]; [|by eapply IH].
  destruct (upsertArticle_stores rows a0 Hok) as (r & Hr & Hi).
  destruct (runStatements_keeps incoming _ _ _ Hrun Hr) as (r' & Hr' & Hi' & _).
  exists r'. split; [done | congruence].
Qed.

(** The statements run as long as none breaks the uniqueness of [url]. *)
Lemma runStatements_Some (incoming : list DBArticle.t) :
  ∀ (rows rows' : list ArticleRow),
  runStatements rows incoming = Some rows' →
  ∀ pre a post rows1,
    incoming = pre ++ a :: post →
    runStatements rows pre = Some rows1 →
    breaksUnique rows1 a = false.
Proof.
  intros rows rows' Hrun pre a post rows1 -> Hpre.
  rewrite runStatements_app, Hpre in Hrun. cbn in Hrun.
  by destruct (breaksUnique rows1 a).
Qed.

Lemma runStatements_None (incoming : list DBArticle.t) :
  ∀ (rows : list ArticleRow),
  runStatements rows incoming = None →
  ∃ pre a post rows1,
    incoming = pre ++ a :: post ∧
    runStatements rows pre = Some rows1 ∧
    breaksUnique rows1 a = true.
Proof.
  induction incoming as [|a incoming IH]; intros rows Hrun; [done|].
  cbn in Hrun. destruct (breaksUnique rows a) eqn:Hbreaks.
  - by exists [], a, incoming, rows.
  - destruct (IH _ Hrun) as (pre & b & post & rows1 & -> & Hpre & Hb).
    exists (a :: pre), b, post, rows1. split_and!; [done | | done].
    cbn. by rewrite Hbreaks.
Qed.

(** X9.  The transaction of the ingestion endpoint is all or nothing.
    When it commits, every incoming article is stored under its id, every
    row stored before is still there with its id and its URL, no statement
    broke the uniqueness of [url], and [news_clusters] is not touched.
    Otherwise nothing is stored and the process has ended at the first
    [INSERT] of a new id whose URL a row holds at that moment, be it a row
    stored before or one inserted earlier in the batch. *)
Theorem upsertArticles_outcome (s : Store) (incoming : list DBArticle.t) :
  match upsertArticles s incoming with
  | Some s' =>
      (∀ a, a ∈ incoming → ∃ r, r ∈ news_articles s' ∧ id r = DBArticle.id a) ∧
      (∀ r, r ∈ news_articles s →
         ∃ r', r' ∈ news_articles s' ∧ id r' = id r ∧ url r' = url r) ∧
      (∀ pre a post rows1,
         incoming = pre ++ a :: post →
         runStatements (news_articles s) pre = Some rows1 →
         breaksUnique rows1 a = false) ∧
      news_clusters s' = news_clusters s
  | None =>
      storeAfter s incoming = s ∧
      ∃ pre a post rows1,
        incoming = pre ++ a :: post ∧
        runStatements (news_articles s) pre = Some rows1 ∧
        (DBArticle.id a ∉ map id rows1) ∧
        is_Some (DBArticle.url a) ∧
        ∃ r, r ∈ rows1 ∧ url r = DBArticle.url a
  end.
Proof.
  unfold storeAfter, upsertArticles.
  destruct (runStatements (news_articles s) incoming) as [rows'|] eqn:Hrun; cbn.
  - split_and!; [| | |done].
    + intros a Ha. by eapply runStatements_stores.
    + intros r Hr. by eapply runStatements_keeps.
    + by eapply runStatements_Some.
  - split; [done|].
    destruct (runStatements_None _ _ Hrun) as (pre & a & post & rows1 & -> & Hpre & Hb).
    exists pre, a, post, rows1.
    apply breaksUnique_true in Hb as (Hnew & Hsome & Hrow). by split_and!.
Qed.

(** X10.  The upsert is idempotent: running the statement a second time
    with the same article changes nothing more. *)
Theorem upsertArticle_idempotent (rows : list ArticleRow) (a : DBArticle.t) :
  upsertArticle (upsertArticle rows a) a = upsertArticle rows a.
Proof.
  set (f := λ r : ArticleRow,
         if bool_decide (id r = DBArticle.id a) then doUpdate r (excludedRow a) else r).
  assert (∀ r, f (f r) = f r) as Hff.
  { intros r. unfold f. destruct (bool_decide (id r = DBArticle.id a)) eqn:Hr; [|by rewrite Hr].
    change (id (doUpdate r (excludedRow a))) with (id r). rewrite Hr. apply doUpdate_again. }
  destruct (upsertArticle_cases rows a) as [[Hid ->] | [(Hid & Hurl & ->) | (Hid & Hurl & ->)]].
  - fold f.
    destruct (upsertArticle_cases (map f rows) a) as [[_ ->] | [(Hid' & _) | (Hid' & _)]].
    + fold f. rewrite <- list_fmap_compose. apply list_fmap_ext. intros _ r _. apply Hff.
    + exfalso. apply not_true_iff_false in Hid'. apply Hid', hasId_true.
      apply hasId_true in Hid as (r & Hr & Hi). exists (f r).
      split; [by apply list_elem_of_fmap_2|]. unfold f. by case_bool_decide.
    + exfalso. apply not_true_iff_false in Hid'. apply Hid', hasId_true.
      apply hasId_true in Hid as (r & Hr & Hi). exists (f r).
      split; [by apply list_elem_of_fmap_2|]. unfold f. by case_bool_decide.
  - destruct (upsertArticle_cases rows a) as [[Hid' _] | [(_ & _ & ->) | (_ & Hurl' & _)]];
      [congruence | done | congruence].
  - destruct (upsertArticle_cases (rows ++ [excludedRow a]) a)
      as [[_ ->] | [(Hid' & _) | (Hid' & _)]].
    + fold f. rewrite map_app. cbn. f_equal.
      * rewrite <- (list_fmap_id rows) at 2. apply list_fmap_ext. intros i r Hr.
        unfold f. rewrite bool_decide_eq_false_2; [done|].
        intros Hi. apply hasId_false in Hid. apply Hid, list_elem_of_fmap.
        exists r. split; [done|]. by eapply list_elem_of_lookup_2.
      * unfold f. rewrite bool_decide_eq_true_2 by done. by rewrite doUpdate_self.
    + exfalso. apply not_true_iff_false in Hid'. apply Hid', hasId_true.
      exists (excludedRow a). split; [|done]. apply elem_of_app. right. by left.
    + exfalso. apply not_true_iff_false in Hid'. apply Hid', hasId_true.
      exists (excludedRow a). split; [|done]. apply elem_of_app. right. by left.
Qed.

Lemma omap_url_update (a : DBArticle.t) (rows : list ArticleRow) :
  omap url
    (map (λ r, if bool_decide (id r = DBArticle.id a) then doUpdate r (excludedRow a) else r)
         rows)
  = omap url rows ∧
  map id
    (map (λ r, if bool_decide (id r = DBArticle.id a) then doUpdate r (excludedRow a) else r)
         rows)
  = map id rows.
Proof.
  induction rows as [|r rows [IHu IHi]]; [done|]. cbn.
  rewrite IHi. split; [|by case_bool_decide].
  assert (url (if bool_decide (id r = DBArticle.id a)
               then doUpdate r (excludedRow a) else r) = url r) as -> by (by case_bool_decide).
  by rewrite IHu.
Qed.

Lemma upsertArticle_tableOk (rows : list ArticleRow) (a : DBArticle.t) :
  tableOk rows →
  tableOk (upsertArticle rows a) ∧ map id rows `prefix_of` map id (upsertArticle rows a).
Proof.
  intros [Hids Hurls].
  destruct (upsertArticle_cases rows a) as [[_ ->] | [(_ & _ & ->) | (Hid & Hurl & ->)]].
  - destruct (omap_url_update a rows) as [Hu Hi]. unfold tableOk. by rewrite Hu, Hi.
  - done.
  - split; [|rewrite map_app; by apply prefix_app_r].
    unfold tableOk. rewrite map_app, omap_app. split.
    + apply NoDup_app. split_and!; [done | | apply NoDup_singleton].
      intros i Hi ->%list_elem_of_singleton. apply hasId_false in Hid. by apply Hid.
    + change (omap url [excludedRow a])
        with (match DBArticle.url a with Some u => [u] | None => [] end).
      destruct (DBArticle.url a) as [u|] eqn:Hu; [|by rewrite app_nil_r].
      apply NoDup_app. split_and!; [done | | apply NoDup_singleton].
      intros v Hv ->%list_elem_of_singleton.
      apply not_true_iff_false in Hurl. apply Hurl, urlTaken_true.
      split; [by eexists|]. apply list_elem_of_omap in Hv as (r & Hr & Hv).
      exists r. split; [done|]. cbn in Hv. congruence.
Qed.

Lemma runStatements_tableOk (incoming : list DBArticle.t) :
  ∀ (rows rows' : list ArticleRow),
  tableOk rows →
  runStatements rows incoming = Some rows' →
  tableOk rows' ∧ map id rows `prefix_of` map id rows'.
Proof.
  induction incoming as [|a incoming IH]; intros rows rows' Hok Hrun; cbn in Hrun.
  - by injection Hrun as <-.
  - destruct (breaksUnique rows a); [done|].
    destruct (upsertArticle_tableOk rows a Hok) as [Hok1 Hpre1].
    destruct (IH _ _ Hok1 Hrun) as [Hok' Hpre']. split; [done | by etrans].
Qed.

(** X11.  A transaction of the ingestion endpoint that commits keeps the
    uniqueness constraints of the table: if the ids are pairwise distinct
    and so are the URLs that are not null, they still are afterwards; and
    the ids stored before are still there, in the same order, at the head
    of the table. *)
Theorem upsertArticles_constraints (s s' : Store) (incoming : list DBArticle.t) :
  tableOk (news_articles s) →
  upsertArticles s incoming = Some s' →
  tableOk (news_articles s') ∧
  map id (news_articles s) `prefix_of` map id (news_articles s').
Proof.
  unfold upsertArticles. intros Hok Hrun.
  destruct (runStatements (news_articles s) incoming) as [rows'|] eqn:Hrows; [|done].
  injection Hrun as <-. cbn. by eapply runStatements_tableOk.
Qed.

(** On the store of the feed: one item fetched again, and one item
    unseen. *)
Lemma upsertArticles_constraints_witness :
  tableOk (news_articles (storeAfter ingestedStore [olderItemAgain; unseenItem])) ∧
  map id (news_articles ingestedStore)
  `prefix_of`
  map id (news_articles (storeAfter ingestedStore [olderItemAgain; unseenItem])).
Proof.
  apply (upsertArticles_constraints ingestedStore
           (storeAfter ingestedStore [olderItemAgain; unseenItem])
           [olderItemAgain; unseenItem]).
  - split; apply (bool_decide_unpack _); vm_compute; exact I.
  - reflexivity.
Defined.

(** The columns that the update does not set stay the same from statement
    to statement. *)
Lemma sameOtherColumns_refl (r : ArticleRow) : sameOtherColumns r r.
Proof. by repeat split. Qed.

Lemma sameOtherColumns_trans (r1 r2 r3 : ArticleRow) :
  sameOtherColumns r1 r2 → sameOtherColumns r2 r3 → sameOtherColumns r1 r3.
Proof. unfold sameOtherColumns. intros H12 H23. destruct_and!. split_and!; congruence. Qed.

Lemma upsertArticle_row (rows : list ArticleRow) (a : DBArticle.t) (i : nat) (r : ArticleRow) :
  rows !! i = Some r →
  ∃ r', upsertArticle rows a !! i = Some r' ∧
        sameOtherColumns r r' ∧
        (∀ u, image_url r = Some u → image_url r' = Some u) ∧
        (id r ≠ DBArticle.id a → r' = r) ∧
        (id r = DBArticle.id a → r' = doUpdate r (excludedRow a)).
Proof.
  intros Hi.
  destruct (upsertArticle_cases rows a) as [[_ ->] | [(Hid & _ & ->) | (Hid & _ & ->)]].
  - rewrite list_lookup_fmap, Hi. cbn. case_bool_decide as Hr.
    + eexists. split; [done|]. split_and!; [by repeat split | | done | done].
      intros u Hu. cbn. by rewrite Hu.
    + exists r. split; [done|]. split_and!; [apply sameOtherColumns_refl | done..].
  - exists r. split; [done|]. split_and!; [apply sameOtherColumns_refl | done | done |].
    intros Hr. apply not_true_iff_false in Hid. exfalso. apply Hid, hasId_true.
    exists r. split; [by eapply list_elem_of_lookup_2 | done].
  - exists r. split; [by apply lookup_app_l_Some|].
    split_and!; [apply sameOtherColumns_refl | done | done |].
    intros Hr. apply hasId_false in Hid. exfalso. apply Hid, list_elem_of_fmap.
    exists r. split; [done | by eapply list_elem_of_lookup_2].
Qed.

Lemma runStatements_row (incoming : list DBArticle.t) :
  ∀ (rows rows' : list ArticleRow) (i : nat) (r : ArticleRow),
  runStatements rows incoming = Some rows' →
  rows !! i = Some r →
  ∃ r', rows' !! i = Some r' ∧
        sameOtherColumns r r' ∧
        (∀ u, image_url r = Some u → image_url r' = Some u) ∧
        (Forall (λ b, DBArticle.id b ≠ id r) incoming → r' = r).
Proof.
  induction incoming as [|a incoming IH]; intros rows rows' i r Hrun Hi; cbn in Hrun.
  - injection Hrun as <-. exists r. split; [done|].
    split_and!; [apply sameOtherColumns_refl | done | done].
  - destruct (breaksUnique rows a); [done|].
    destruct (upsertArticle_row rows a i r Hi) as (r1 & Hi1 & Hsame1 & Himg1 & Hother1 & _).
    destruct (IH _ _ _ _ Hrun Hi1) as (r' & Hi' & Hsame' & Himg' & Hother').
    exists r'. split; [done|]. split_and!.
    + by eapply sameOtherColumns_trans.
    + intros u Hu. by apply Himg', Himg1.
    + intros [Ha Hrest]%Forall_cons.
      rewrite (Hother1 (λ H, Ha (eq_sym H))) in Hother'. by apply Hother'.
Qed.

(** X30.  The conflict rule for a batch.  In a transaction of the
    ingestion endpoint that commits, a row stored before whose id is that
    of an item of the batch ends up with the [fetched_at] and the
    [headline] of the last such item and keeps its [image_url] when it was
    not null; its other columns and its place in the table stay. *)
Theorem upsertArticles_conflict_rule
    (s s' : Store) (pre post : list DBArticle.t) (a : DBArticle.t)
    (i : nat) (existing : ArticleRow) :
  upsertArticles s (pre ++ a :: post) = Some s' →
  news_articles s !! i = Some existing →
  id existing = DBArticle.id a →
  Forall (λ b, DBArticle.id b ≠ DBArticle.id a) post →
  ∃ updated,
    news_articles s' !! i = Some updated ∧
    fetched_at updated = DBArticle.fetchedAt a ∧
    headline updated = DBArticle.headline a ∧
    (∀ u, image_url existing = Some u → image_url updated = Some u) ∧
    sameOtherColumns existing updated.
Proof.
  unfold upsertArticles. intros Hrun Hi Hid Hpost.
  destruct (runStatements (news_articles s) (pre ++ a :: post)) as [rows'|] eqn:Hrows;
    [|done].
  injection Hrun as <-. cbn.
  rewrite runStatements_app in Hrows.
  destruct (runStatements (news_articles s) pre) as [rows1|] eqn:Hpre; [|done].
  cbn in Hrows. destruct (breaksUnique rows1 a); [done|].
  destruct (runStatements_row pre _ _ _ _ Hpre Hi) as (r1 & Hi1 & Hsame1 & Himg1 & _).
  destruct (upsertArticle_row rows1 a i r1 Hi1) as (r2 & Hi2 & _ & _ & _ & Hhit).
  assert (id r1 = DBArticle.id a) as Hid1.
  { destruct Hsame1 as (Hid1 & _). congruence. }
  rewrite (Hhit Hid1) in Hi2.
  destruct (runStatements_row post _ _ _ _ Hrows Hi2) as (r3 & Hi3 & _ & _ & Hsame3).
  assert (r3 = doUpdate r1 (excludedRow a)) as ->.
  { apply Hsame3. change (id (doUpdate r1 (excludedRow a))) with (id r1).
    by rewrite Hid1. }
  exists (doUpdate r1 (excludedRow a)). split; [done|].
  split_and!; [done | done | |].
  - intros u Hu. cbn. by rewrite (Himg1 u Hu).
  - eapply sameOtherColumns_trans; [exact Hsame1 | by repeat split].
Qed.

(** A stored article with an image is fetched again without one, between
    two other items. *)
Lemma upsertArticles_conflict_rule_witness :
  ∃ updated,
    news_articles (storeAfter imageStore ([newerItem] ++ refetched :: [olderItem])) !! 0%nat
    = Some updated ∧
    fetched_at updated = Some "2026-01-01T09:00:00.000Z"%string ∧
    headline updated = Some "Court ruling delivered"%string ∧
    image_url updated = Some "https://example.org/n3.jpg"%string.
Proof.
  destruct (upsertArticles_conflict_rule imageStore
              (storeAfter imageStore ([newerItem] ++ refetched :: [olderItem]))
              [newerItem] [olderItem] refetched 0 storedWithImage)
    as (updated & Hlookup & Hfetched & Hheadline & Himage & _).
  - reflexivity.
  - reflexivity.
  - reflexivity.
  - repeat constructor; discriminate.
  - exists updated. split_and!; [exact Hlookup | exact Hfetched | exact Hheadline |].
    apply Himage. reflexivity.
Defined.

(** ** The transactions *)

Lemma insertCluster_rows category fr c s s' :
  insertCluster category fr c s = Some s' →
  news_articles s' = assignCluster fr.1 (memberIds c) (news_articles s) ∧
  news_clusters s !! fr.1 = None ∧
  is_Some (news_clusters s' !! fr.1).
Proof.
  unfold insertCluster. destruct fr as [clusterId createdAt].
  destruct (Labeled.headline c); [|done].
  destruct (news_clusters s !! clusterId) eqn:Hfree; [done|].
  intros [= <-]. cbn. split_and!; [done | done |]. rewrite lookup_insert_eq. by eexists.
Qed.

Lemma setClusterId_twice (k k' : option string) (r : ArticleRow) :
  setClusterId k (setClusterId k' r) = setClusterId k r.
Proof. reflexivity. Qed.

Lemma assignCluster_lookup k ids (rows : list ArticleRow) i :
  assignCluster k ids rows !! i
  = (λ r, if bool_decide (id r ∈ ids) then setClusterId (Some k) r else r) <$> rows !! i.
Proof. unfold assignCluster. apply list_lookup_fmap. Qed.

(** What a committed loop of inserts does to the rows, row by row. *)
Lemma insertClusters_rows category fresh labeled :
  ∀ minted s s' minted',
  insertClusters category fresh minted labeled s = (Some s', minted') →
  minted' = (minted + length labeled)%nat ∧
  map (setClusterId None) (news_articles s') = map (setClusterId None) (news_articles s) ∧
  ∀ i r, news_articles s !! i = Some r →
    ∃ r', news_articles s' !! i = Some r' ∧
          (Forall (λ c, id r ∉ memberIds c) labeled → r' = r) ∧
          (Exists (λ c, id r ∈ memberIds c) labeled →
           ∃ j c, labeled !! j = Some c ∧ id r ∈ memberIds c ∧
                  cluster_id r' = Some (fresh (minted + j)%nat).1).
Proof.
  induction labeled as [|c labeled IH]; intros minted s s' minted' Hins.
  - cbn in Hins. injection Hins as <- <-. split_and!; [cbn; lia | done |].
    intros i r Hr. exists r. split_and!; [done | done |]. by intros ?%Exists_nil.
  - cbn [insertClusters] in Hins.
    destruct (insertCluster category (fresh minted) c s) as [s1|] eqn:Hone; [|done].
    destruct (insertCluster_rows _ _ _ _ _ Hone) as (Hrows1 & _ & _).
    destruct (IH _ _ _ _ Hins) as (Hminted & Hframe & Hrows).
    split_and!; [cbn; lia | |].
    + rewrite Hframe, Hrows1. unfold assignCluster. rewrite <- list_fmap_compose.
      apply list_fmap_ext. intros _ r _. cbn. by case_bool_decide.
    + intros i r Hr.
      pose proof (assignCluster_lookup (fresh minted).1 (memberIds c) (news_articles s) i) as H1.
      rewrite <- Hrows1, Hr in H1. cbn in H1.
      destruct (Hrows i _ H1) as (r' & Hr' & Hnone & Hsome).
      exists r'. split; [done|].
      assert (id (if bool_decide (id r ∈ memberIds c)
                  then setClusterId (Some (fresh minted).1) r else r) = id r) as Hid
        by (by case_bool_decide).
      rewrite Hid in Hnone, Hsome.
      destruct (decide (Exists (λ c0, id r ∈ memberIds c0) labeled)) as [Hex | Hnex].
      * split.
        -- intros Hall. apply Forall_cons in Hall as [_ Hall].
           apply Exists_exists in Hex as (c0 & Hc0 & Hin).
           rewrite Forall_forall in Hall. by destruct (Hall c0 Hc0).
        -- intros _. destruct (Hsome Hex) as (j & c0 & Hj & Hin & Hcl).
           exists (S j), c0. split_and!; [done | done |]. by rewrite Nat.add_succ_r.
      * apply not_Exists_Forall in Hnex; [|intros c0; apply _].
        assert (Forall (λ c0, id r ∉ memberIds c0) labeled) as Hall by exact Hnex.
        rewrite (Hnone Hall). split.
        -- intros Hall'. apply Forall_cons in Hall' as [Hc _].
           by rewrite bool_decide_eq_false_2.
        -- intros Hex. apply Exists_cons in Hex as [Hin | Hex].
           ++ exists 0%nat, c. split_and!; [done | done |].
              rewrite bool_decide_eq_true_2 by done. by rewrite Nat.add_0_r.
           ++ exfalso. apply Exists_exists in Hex as (c0 & Hc0 & Hin).
              rewrite Forall_forall in Hall. by destruct (Hall c0 Hc0).
Qed.

Lemma insertClusters_integrity category fresh labeled minted s s' minted' :
  insertClusters category fresh minted labeled s = (Some s', minted') →
  ∀ i r r', news_articles s !! i = Some r → news_articles s' !! i = Some r' →
            references s r = true → references s' r' = true.
Proof.
  intros Hins i r r' Hr Hr' Hok.
  destruct (insertClusters_rows _ _ _ _ _ _ _ Hins) as (_ & _ & Hrows).
  destruct (Hrows i r Hr) as (r1 & Hr1 & Hnone & Hsome).
  assert (r1 = r') as -> by congruence.
  destruct (decide (Exists (λ c0, id r ∈ memberIds c0) labeled)) as [Hex | Hnex].
  - destruct (Hsome Hex) as (j & c0 & Hj & _ & Hcl).
    unfold references. rewrite Hcl. apply bool_decide_eq_true.
    eapply insertClusters_inserted; [exact Hins|]. right. exists j.
    split; [by eapply lookup_lt_Some | done].
  - apply not_Exists_Forall in Hnex; [|intros c0; apply _].
    rewrite (Hnone Hnex). unfold references in *.
    destruct (cluster_id r) as [k|]; [|done].
    apply bool_decide_eq_true in Hok. apply bool_decide_eq_true.
    eapply insertClusters_inserted; [exact Hins | by left].
Qed.

Lemma rows_same_length category fresh labeled minted s s' minted' :
  insertClusters category fresh minted labeled s = (Some s', minted') →
  length (news_articles s') = length (news_articles s).
Proof.
  intros Hins. destruct (insertClusters_rows _ _ _ _ _ _ _ Hins) as (_ & Hframe & _).
  apply (f_equal length) in Hframe. by rewrite !length_map in Hframe.
Qed.

(** X12.  The commit of the pipeline keeps referential integrity: if
    every article pointed at a stored cluster or at none before the
    transaction, the same holds once it has committed. *)
Theorem commitClusters_integrity
    (fresh : nat → string * string) (minted : nat) (labeled : list Labeled.t)
    (s s' : Store) (minted' : nat) :
  referentialIntegrity s →
  commitClusters fresh minted labeled s = (Some s', minted') →
  referentialIntegrity s'.
Proof.
  unfold commitClusters, referentialIntegrity. intros Hok Hins.
  apply Forall_lookup. intros i r' Hr'.
  pose proof (rows_same_length _ _ _ _ _ _ _ Hins) as Hlen.
  destruct (lookup_lt_is_Some_2 (news_articles s) i) as [r Hr].
  { rewrite <- Hlen. by eapply lookup_lt_Some. }
  eapply insertClusters_integrity; [exact Hins | exact Hr | exact Hr' |].
  by eapply Forall_lookup_1 in Hok.
Qed.

Lemma commitClusters_integrity_witness : referentialIntegrity recommitted.
Proof.
  apply (commitClusters_integrity splitIds 0 twoSubClusters alreadySplitStore recommitted 2).
  - apply referentialIntegrity_forallb. vm_compute. reflexivity.
  - vm_compute. reflexivity.
Defined.

(** X13.  A committed commit of the pipeline changes no column of any row
    but [cluster_id], and neither adds nor removes rows.  A row whose id
    is in none of the labeled clusters is left as it is; a row whose id
    is in one gets the identifier generated for a cluster that has it as
    a member; and one identifier is generated per labeled cluster. *)
Theorem commitClusters_assignment
    (fresh : nat → string * string) (minted : nat) (labeled : list Labeled.t)
    (s s' : Store) (minted' : nat) :
  commitClusters fresh minted labeled s = (Some s', minted') →
  minted' = (minted + length labeled)%nat ∧
  map (setClusterId None) (news_articles s') = map (setClusterId None) (news_articles s) ∧
  ∀ i r, news_articles s !! i = Some r →
    ∃ r', news_articles s' !! i = Some r' ∧
          (Forall (λ c, id r ∉ memberIds c) labeled → r' = r) ∧
          (Exists (λ c, id r ∈ memberIds c) labeled →
           ∃ j c, labeled !! j = Some c ∧ id r ∈ memberIds c ∧
                  cluster_id r' = Some (fresh (minted + j)%nat).1).
Proof. apply insertClusters_rows. Qed.

Lemma commitClusters_assignment_witness :
  ∃ r', news_articles recommitted !! 1%nat = Some r' ∧
        ∃ j c, twoSubClusters !! j = Some c ∧ "a2"%string ∈ memberIds c ∧
               cluster_id r' = Some (splitIds (0 + j)%nat).1.
Proof.
  destruct (commitClusters_assignment splitIds 0 twoSubClusters alreadySplitStore
              recommitted 2 ltac:(vm_compute; reflexivity)) as (_ & _ & Hrows).
  destruct (Hrows 1%nat _ eq_refl) as (r' & Hr' & _ & Hsome).
  exists r'. split; [exact Hr'|]. apply Hsome.
  apply Exists_cons_tl, Exists_cons_hd. cbn. left.
Defined.

(** X14.  Which rows a committed split leaves without a cluster to point
    at.  If referential integrity held before and no generated identifier
    is that of the old cluster, then after the commit a row points at a
    missing cluster exactly when it pointed at the old cluster and is a
    member of none of the replacement clusters. *)
Theorem split_orphans_exactly
    (fresh : nat → string * string) (minted : nat) (oldId : string)
    (labeledSubClusters : list Labeled.t) (s committed : Store) (minted' : nat)
    (i : nat) (r r' : ArticleRow) :
  referentialIntegrity s →
  insertClusters Labeled.category fresh minted labeledSubClusters
    {| news_articles := news_articles s; news_clusters := delete oldId (news_clusters s) |}
  = (Some committed, minted') →
  (∀ j, (j < length labeledSubClusters)%nat → (fresh (minted + j)%nat).1 ≠ oldId) →
  news_articles s !! i = Some r →
  news_articles committed !! i = Some r' →
  references committed r' = false ↔
  cluster_id r = Some oldId ∧ Forall (λ c, id r ∉ memberIds c) labeledSubClusters.
Proof.
  intros Hok Hins Hfresh Hr Hr'.
  destruct (insertClusters_rows _ _ _ _ _ _ _ Hins) as (_ & _ & Hrows).
  destruct (Hrows i r Hr) as (r1 & Hr1 & Hnone & Hsome). cbn in Hr1.
  assert (r1 = r') as -> by congruence.
  split.
  - intros Horphan.
    destruct (decide (Exists (λ c0, id r ∈ memberIds c0) labeledSubClusters)) as [Hex | Hnex].
    { destruct (Hsome Hex) as (j & c0 & Hj & _ & Hcl).
      exfalso. apply not_true_iff_false in Horphan. apply Horphan.
      unfold references. rewrite Hcl. apply bool_decide_eq_true.
      eapply insertClusters_inserted; [exact Hins|]. right. exists j.
      split; [by eapply lookup_lt_Some | done]. }
    apply not_Exists_Forall in Hnex; [|intros c0; apply _].
    split; [|exact Hnex]. rewrite (Hnone Hnex) in Horphan.
    unfold referentialIntegrity in Hok. eapply Forall_lookup_1 in Hok; [|exact Hr].
    unfold references in *. destruct (cluster_id r) as [k|]; [|done].
    destruct (decide (k = oldId)) as [-> | Hne]; [done|].
    exfalso. apply not_true_iff_false in Horphan. apply Horphan.
    apply bool_decide_eq_true in Hok. apply bool_decide_eq_true.
    eapply insertClusters_inserted; [exact Hins|]. left. cbn.
    by rewrite lookup_delete_ne.
  - intros [Hold Hall]. rewrite (Hnone Hall).
    destruct (insertClusters_untouched _ _ _ _ _ _ _ r oldId Hins) as [_ Hgone];
      [by eapply list_elem_of_lookup_2 | done | by cbn; rewrite lookup_delete_eq | done |].
    unfold references. rewrite Hold, Hgone. apply bool_decide_eq_false_2. by intros [? ?].
Qed.

Lemma split_orphans_exactly_witness :
  references partlySplit (memberRow "a5" "Metro line opens" None) = false.
Proof.
  apply (split_orphans_exactly splitIds 0 "c1" twoSubClusters partlyCoveredStore
           partlySplit 2 2 (memberRow "a5" "Metro line opens" None)
           (memberRow "a5" "Metro line opens" None)).
  - apply referentialIntegrity_forallb. vm_compute. reflexivity.
  - vm_compute. reflexivity.
  - intros [|[|j]] Hj; [discriminate | discriminate | cbn in Hj; lia].
  - reflexivity.
  - vm_compute. reflexivity.
  - split; [reflexivity|]. repeat constructor; cbn; by intros ?%list_elem_of_singleton.
Defined.

(** ** The refiner and the route: what they leave alone *)

Lemma splitTransaction_frame fresh minted oldId labeled s :
  map (setClusterId None) (news_articles (splitTransaction fresh minted oldId labeled s).1)
  = map (setClusterId None) (news_articles s).
Proof.
  unfold splitTransaction.
  destruct (insertClusters _ _ _ _ _) as [[s'|] minted'] eqn:Hins; cbn [fst]; [|done].
  destruct (insertClusters_rows _ _ _ _ _ _ _ Hins) as (_ & Hframe & _). exact Hframe.
Qed.

Lemma refineCluster_frame env w clusterId w' :
  refineCluster env w clusterId = Some w' →
  map (setClusterId None) (news_articles (db w'))
  = map (setClusterId None) (news_articles (db w)).
Proof.
  unfold refineCluster.
  repeat case_decide; try (by intros [= <-]).
  destruct (_ <? _)%float; [|by intros [= <-]].
  destruct (runClusterer _ _ _) as [newMicroClusters|]; [|done].
  case_decide; [|by intros [= <-]].
  destruct (generateLabels _ _ _) as [labeled calls'].
  pose proof (splitTransaction_frame (fresh env) (minted w) clusterId labeled (db w)) as Hframe.
  destruct (splitTransaction _ _ _ _ _) as [s' minted']. by intros [= <-].
Qed.

Lemma refineLoop_frame env clusterIds :
  ∀ w,
  map (setClusterId None) (news_articles (db (refineLoop env w clusterIds)))
  = map (setClusterId None) (news_articles (db w)).
Proof.
  induction clusterIds as [|k clusterIds IH]; intros w; cbn; [done|].
  destruct (refineCluster env w k) as [w'|] eqn:Hone; [|done].
  by rewrite IH, (refineCluster_frame _ _ _ _ Hone).
Qed.

(** X15.  The coherence check neither adds, removes nor reorders
    articles, and changes no column of any article but [cluster_id]. *)
Theorem refineClusters_frame (env : Env) (w : World) :
  map (setClusterId None) (news_articles (db (refineClusters env w)))
  = map (setClusterId None) (news_articles (db w)).
Proof. apply refineLoop_frame. Qed.

Lemma persistEnrichment_frame enriched :
  ∀ rows,
  map cluster_id (persistEnrichment enriched rows) = map cluster_id rows ∧
  map stripAnalysis (persistEnrichment enriched rows) = map stripAnalysis rows.
Proof.
  unfold persistEnrichment.
  induction enriched as [|a enriched IH]; intros rows; cbn [foldl]; [done|].
  destruct (IH (map (λ r, if bool_decide (id r = id a)
                          then {| id := id r; source_id := source_id r;
                                  source_name := source_name r;
                                  bias_rating := bias_rating r; factuality := factuality r;
                                  headline := headline r; url := url r;
                                  pub_date := pub_date r; fetched_at := fetched_at r;
                                  summary := summary r; image_url := image_url r;
                                  cluster_id := cluster_id r;
                                  embedding := JsonArray <$> Article.embedding a;
                                  entities := Article.entities a |}
                          else r) rows)) as [-> ->].
  rewrite <- !list_fmap_compose.
  split; apply list_fmap_ext; intros _ r _; cbn; by case_bool_decide.
Qed.

Lemma stripAnalysis_frame (rows rows' : list ArticleRow) :
  map (setClusterId None) rows' = map (setClusterId None) rows →
  map stripAnalysis rows' = map stripAnalysis rows.
Proof.
  intros Hframe. apply (f_equal (map stripAnalysis)) in Hframe.
  by rewrite <- !list_fmap_compose in Hframe.
Qed.

(** X16.  A run that answers with an error leaves no trace of clusters,
    whether it failed before its transaction, at the [BEGIN] that met the
    enrichment still open, or inside the transaction, which is then
    rolled back: [news_clusters] and the [cluster_id] of every article are
    as they were before the run. *)
Theorem processPipeline_failure_atomic (env : Env) (w : World) :
  snd (processPipeline env w) = Failure →
  news_clusters (db (fst (processPipeline env w))) = news_clusters (db w) ∧
  map cluster_id (news_articles (db (fst (processPipeline env w))))
  = map cluster_id (news_articles (db w)).
Proof.
  unfold processPipeline. case_decide; [done|].
  destruct (rowsToArticles _) as [articles0|]; [|done].
  destruct (enrichArticles _ _ _) as [enriched|]; [|done].
  destruct (persistEnrichment_frame enriched (news_articles (db w))) as [Hcl _].
  destruct (persistEnrichment_frame
              (filter (λ a, enrichmentStored env a = true) enriched)
              (news_articles (db w))) as [Hcl' _].
  destruct (runClusterer _ _ _) as [rawClusters|]; [|done].
  destruct (generateLabels _ _ _) as [labeled calls'].
  destruct (enrichmentSettles env && negb (calls' =? calls w)%nat); [|done].
  destruct (commitClusters _ _ _ _) as [[s'|] minted']; [done | done].
Qed.

(** Two reports on unrelated subjects make two clusters.  The first is
    inserted and its article assigned; the [INSERT] of the second fails,
    and the [ROLLBACK] undoes the first: two identifiers have been
    generated, the embeddings are stored, and no cluster is. *)
Lemma processPipeline_failure_atomic_witness :
  (news_clusters (db (fst (processPipeline rollbackEnv (startOf twoTopicStore)))) = ∅ ∧
   map cluster_id
     (news_articles (db (fst (processPipeline rollbackEnv (startOf twoTopicStore)))))
   = [None; None]) ∧
  minted (fst (processPipeline rollbackEnv (startOf twoTopicStore))) = 2%nat ∧
  map embedding (news_articles (db (fst (processPipeline rollbackEnv (startOf twoTopicStore)))))
  = [Some (JsonArray [1; 0]%float); Some (JsonArray [0; 1]%float)].
Proof.
  split; [|split; reflexivity].
  apply (processPipeline_failure_atomic rollbackEnv (startOf twoTopicStore)). reflexivity.
Defined.

(** X17.  A run of the pipeline neither adds, removes nor reorders
    articles, and changes no column of any article besides [cluster_id],
    [embedding] and [entities], however it ends. *)
Theorem processPipeline_frame (env : Env) (w : World) :
  map stripAnalysis (news_articles (db (fst (processPipeline env w))))
  = map stripAnalysis (news_articles (db w)).
Proof.
  unfold processPipeline. case_decide.
  { cbn. apply stripAnalysis_frame, refineLoop_frame. }
  destruct (rowsToArticles _) as [articles0|]; [|done].
  destruct (enrichArticles _ _ _) as [enriched|]; [|done].
  destruct (persistEnrichment_frame enriched (news_articles (db w))) as [_ Hstrip].
  destruct (persistEnrichment_frame
              (filter (λ a, enrichmentStored env a = true) enriched)
              (news_articles (db w))) as [_ Hstrip'].
  destruct (runClusterer _ _ _) as [rawClusters|]; [|done].
  destruct (generateLabels _ _ _) as [labeled calls'].
  destruct (enrichmentSettles env && negb (calls' =? calls w)%nat); [|done].
  destruct (commitClusters _ _ _ _) as [[s'|] minted'] eqn:Hcommit; [|done].
  cbn. unfold refineClusters.
  rewrite (stripAnalysis_frame _ _ (refineLoop_frame _ _ _)). cbn.
  destruct (insertClusters_rows _ _ _ _ _ _ _ Hcommit) as (_ & Hframe & _).
  by rewrite (stripAnalysis_frame _ _ Hframe).
Qed.

(** ** The selections *)

(** X18.  When at most 50 articles are waiting, a run picks up all of
    them: every row without a cluster whose date is after the cutoff is
    selected. *)
Theorem selectUnclustered_complete
    (scan : list ArticleRow) (cutoffDate : string) (r : ArticleRow) (d : string) :
  (length (filter (λ r, unclusteredSince cutoffDate r = true) scan) ≤ 50)%nat →
  r ∈ scan →
  cluster_id r = None →
  pub_date r = Some d →
  String.ltb cutoffDate d = true →
  r ∈ selectUnclustered scan cutoffDate.
Proof.
  intros Hfew Hr Hcl Hdate Hafter. unfold selectUnclustered.
  rewrite take_ge by done. apply list_elem_of_filter. split; [|done].
  unfold unclusteredSince. by rewrite Hcl, Hdate.
Qed.

Lemma selectUnclustered_complete_witness :
  excludedRow olderItem
  ∈ selectUnclustered (news_articles ingestedStore) "2025-12-31T00:00:00.000Z".
Proof.
  apply (selectUnclustered_complete (news_articles ingestedStore) "2025-12-31T00:00:00.000Z"
           (excludedRow olderItem) "2026-01-01T10:00:00.000Z").
  - vm_compute. lia.
  - right. left.
  - reflexivity.
  - reflexivity.
  - reflexivity.
Defined.

Lemma ltb_leb (a b : string) : String.ltb a b = true → String.leb a b = true.
Proof. unfold String.ltb, String.leb. by destruct (String.compare a b). Qed.

Lemma ltb_neq (a b : string) : String.ltb a b = true → a ≠ b.
Proof.
  unfold String.ltb. intros Hlt <-.
  pose proof (String.compare_antisym a a) as Hanti.
  by destruct (String.compare a a).
Qed.

Lemma leb_neq_ltb (a b : string) : String.leb a b = true → a ≠ b → String.ltb a b = true.
Proof.
  unfold String.ltb, String.leb. intros Hle Hne.
  destruct (String.compare a b) eqn:Hcmp; [|done|done].
  by apply String.compare_eq_iff in Hcmp.
Qed.

Lemma ltb_trans (a b c : string) :
  String.ltb a b = true → String.ltb b c = true → String.ltb a c = true.
Proof.
  intros Hab Hbc. apply leb_neq_ltb.
  - apply Is_true_true. trans b; apply Is_true_true; by apply ltb_leb.
  - intros <-. apply (ltb_neq _ _ Hab).
    apply String.leb_antisym; by apply ltb_leb.
Qed.

Global Instance newerFirst_trans : Transitive newerFirst.
Proof.
  intros x y z [Hxy | [Hxy Hrxy]] [Hyz | [Hyz Hryz]]; unfold newerFirst.
  - left. by eapply ltb_trans.
  - left. by rewrite <- Hyz.
  - left. by rewrite Hxy.
  - right. split; [congruence | lia].
Qed.

Global Instance newerFirst_total : Total newerFirst.
Proof.
  intros x y. unfold newerFirst, String.ltb.
  rewrite (String.compare_antisym (created_at x.2) (created_at y.2)).
  destruct (String.compare (created_at y.2) (created_at x.2)) eqn:Hcmp; cbn; [|by left; left|by right; left].
  apply String.compare_eq_iff in Hcmp.
  destruct (Nat.le_ge_cases (rowid x.2) (rowid y.2)); [left | right]; right; by split.
Qed.

Lemma StronglySorted_lookup {A} (R : relation A) (l : list A) :
  StronglySorted R l →
  ∀ i j x y, (i < j)%nat → l !! i = Some x → l !! j = Some y → R x y.
Proof.
  induction 1 as [|z l _ IH Hall]; intros i j x y Hij Hi Hj; [done|].
  destruct j as [|j]; [lia|]. cbn in Hj.
  destruct i as [|i]; cbn in Hi.
  - injection Hi as <-. rewrite Forall_forall in Hall.
    apply Hall. by eapply list_elem_of_lookup_2.
  - apply (IH i j); [lia | done | done].
Qed.

(** X19.  The clusters the coherence check selects at its start are
    exactly the stored clusters created after the cutoff of 24 hours, each
    once, and it takes them from the newest to the oldest. *)
Theorem recentClusters_spec (oneDayAgo0 : string) (clusters : gmap string ClusterRow) :
  (∀ k, k ∈ recentClusters oneDayAgo0 clusters ↔
        ∃ row, clusters !! k = Some row ∧ String.ltb oneDayAgo0 (created_at row) = true) ∧
  NoDup (recentClusters oneDayAgo0 clusters) ∧
  (∀ i j k1 k2 row1 row2,
     (i < j)%nat →
     recentClusters oneDayAgo0 clusters !! i = Some k1 →
     recentClusters oneDayAgo0 clusters !! j = Some k2 →
     clusters !! k1 = Some row1 → clusters !! k2 = Some row2 →
     String.leb (created_at row2) (created_at row1) = true).
Proof.
  unfold recentClusters.
  set (selected := map_to_list
                     (filter (λ kv : string * ClusterRow,
                                String.ltb oneDayAgo0 (created_at kv.2) = true) clusters)).
  pose proof (merge_sort_Permutation newerFirst selected) as Hperm.
  assert (∀ k row, (k, row) ∈ merge_sort newerFirst selected →
                   clusters !! k = Some row
                   ∧ String.ltb oneDayAgo0 (created_at row) = true) as Hin.
  { intros k row Hk. rewrite Hperm in Hk. apply elem_of_map_to_list in Hk.
    by apply map_lookup_filter_Some in Hk. }
  split_and!.
  - intros k. rewrite Hperm, list_elem_of_fmap. split.
    + intros ([k' row] & -> & Hk). apply elem_of_map_to_list in Hk.
      apply map_lookup_filter_Some in Hk as [Hrow Hnew]. by exists row.
    + intros (row & Hrow & Hnew). exists (k, row). split; [done|].
      apply elem_of_map_to_list, map_lookup_filter_Some. by split.
  - rewrite Hperm. apply NoDup_fst_map_to_list.
  - intros i j k1 k2 row1 row2 Hij Hi Hj Hrow1 Hrow2.
    rewrite list_lookup_fmap in Hi, Hj.
    destruct (merge_sort newerFirst selected !! i) as [[k1' r1]|] eqn:Hi'; [|done].
    destruct (merge_sort newerFirst selected !! j) as [[k2' r2]|] eqn:Hj'; [|done].
    cbn in Hi, Hj. injection Hi as ->. injection Hj as ->.
    destruct (Hin k1 r1) as [Hr1 _]; [by eapply list_elem_of_lookup_2|].
    destruct (Hin k2 r2) as [Hr2 _]; [by eapply list_elem_of_lookup_2|].
    assert (r1 = row1) as -> by congruence. assert (r2 = row2) as -> by congruence.
    pose proof (StronglySorted_lookup newerFirst _
                  (StronglySorted_merge_sort newerFirst selected)
                  i j _ _ Hij Hi' Hj') as [Hlt | [Heq _]]; cbn in *.
    + by apply ltb_leb.
    + rewrite Heq. apply Is_true_true. reflexivity.
Qed.

(** ** The percentages *)

Lemma percentOf_le_exact (count total : nat) :
  percentOf count total ≤ roundHalfUp (100 * Z.of_nat count) (Z.of_nat total).
Proof.
  unfold percentOf. case_bool_decide as Hc; [|lia]. destruct Hc as [-> ->]. by vm_compute.
Qed.

Lemma roundHalfUp_sum (a b total : Z) :
  0 ≤ a → 0 ≤ b → a + b ≤ total → 0 < total →
  roundHalfUp (100 * a) total + roundHalfUp (100 * b) total ≤ 101.
Proof.
  intros Ha Hb Hsum Htotal. unfold roundHalfUp.
  pose proof (Z.mul_div_le (2 * (100 * a) + total) (2 * total) ltac:(lia)) as Hqa.
  pose proof (Z.mul_div_le (2 * (100 * b) + total) (2 * total) ltac:(lia)) as Hqb.
  set (qa := (2 * (100 * a) + total) / (2 * total)) in *.
  set (qb := (2 * (100 * b) + total) / (2 * total)) in *.
  nia.
Qed.

(** X20.  For a cluster of 1 to 50 members the three stored percentages
    are whole numbers that sum to exactly 100, with left and right between
    0 and 100; the centre, being what is left after the two roundings, is
    between -1 and 100, and both roundings going up can make it -1. *)
Theorem stats_percentages_range (members : list Article.t) :
  (1 ≤ length members ≤ 50)%nat →
  ∃ l c r : Z,
    biasDistribution (computeStats members)
    = {| BiasDistribution.left := JS.of_Z l; BiasDistribution.center := JS.of_Z c;
         BiasDistribution.right := JS.of_Z r |} ∧
    l + c + r = 100 ∧ 0 ≤ l ≤ 100 ∧ 0 ≤ r ≤ 100 ∧ -1 ≤ c ≤ 100.
Proof.
  intros HN.
  destruct (computeStats_rounded members HN) as (_ & -> & _).
  destruct (countBias_spec members) as [_ Hle].
  pose proof (percentOf_range (leftCount members) (length members) ltac:(lia) ltac:(lia)) as Hl.
  pose proof (percentOf_range (rightCount members) (length members) ltac:(lia) ltac:(lia)) as Hr.
  pose proof (percentOf_le_exact (leftCount members) (length members)) as Hl'.
  pose proof (percentOf_le_exact (rightCount members) (length members)) as Hr'.
  pose proof (roundHalfUp_sum (Z.of_nat (leftCount members)) (Z.of_nat (rightCount members))
                (Z.of_nat (length members)) ltac:(lia) ltac:(lia) ltac:(lia) ltac:(lia)) as Hsum.
  eexists _, _, _. split; [reflexivity|]. lia.
Qed.

(** One report rated Left and seven rated Right: 13, 88 and -1. *)
Lemma stats_percentages_range_witness :
  (∃ l c r : Z,
     biasDistribution (computeStats eightReports)
     = {| BiasDistribution.left := JS.of_Z l; BiasDistribution.center := JS.of_Z c;
          BiasDistribution.right := JS.of_Z r |} ∧
     l + c + r = 100 ∧ 0 ≤ l ≤ 100 ∧ 0 ≤ r ≤ 100 ∧ -1 ≤ c ≤ 100) ∧
  biasDistribution (computeStats eightReports)
  = {| BiasDistribution.left := 13%float; BiasDistribution.center := (-1)%float;
       BiasDistribution.right := 88%float |}.
Proof.
  split; [|reflexivity]. apply (stats_percentages_range eightReports). cbn. lia.
Defined.

(** ** Strings *)

Lemma append_nil_r (s : string) : (s ++ "")%string = s.
Proof.
  induction s as [|c s IH]; [done|].
  change (String c (s ++ "")%string = String c s). by rewrite IH.
Qed.

Lemma append_assoc (s1 s2 s3 : string) : (s1 ++ (s2 ++ s3))%string = ((s1 ++ s2) ++ s3)%string.
Proof.
  induction s1 as [|c s1 IH]; [done|].
  change (String c (s1 ++ (s2 ++ s3))%string = String c ((s1 ++ s2) ++ s3)%string).
  by rewrite IH.
Qed.

Lemma length_append (s1 s2 : string) :
  String.length (s1 ++ s2) = (String.length s1 + String.length s2)%nat.
Proof.
  induction s1 as [|c s1 IH]; [done|].
  change (S (String.length (s1 ++ s2)) = S (String.length s1 + String.length s2)).
  by rewrite IH.
Qed.

(** ** The entity tagger *)

Lemma setAdd_NoDup e entities0 : NoDup entities0 → NoDup (setAdd e entities0).
Proof.
  intros Hnd. unfold setAdd. case_bool_decide as He; [done|].
  apply NoDup_app. split_and!; [done| |apply NoDup_singleton].
  intros x Hx ->%list_elem_of_singleton. done.
Qed.

Lemma flushEntity_NoDup e entities0 : NoDup entities0 → NoDup (flushEntity e entities0).
Proof. intros Hnd. destruct e; [done|]. by apply setAdd_NoDup. Qed.

Lemma decodeTokens_NoDup tokens : ∀ entities0 currentEntity,
  NoDup entities0 → NoDup (decodeTokens tokens entities0 currentEntity).1.
Proof.
  induction tokens as [|token rest IH]; intros entities0 currentEntity Hnd; [done|].
  cbn [decodeTokens].
  destruct (_ || _); [by apply IH, flushEntity_NoDup|].
  destruct (String.prefix "I-" _); [by apply IH|by apply IH, flushEntity_NoDup].
Qed.

(** X21 (server/index.js, the entity decoding of [enrichArticles]): the
    entity list of an article never holds an entity twice and never holds
    an entity of fewer than three characters, whatever the tagger
    returned. *)
Theorem extractEntities_shape (tokens : list Token.t) :
  NoDup (extractEntities tokens)
  ∧ Forall (λ e, (2 < String.length e)%nat) (extractEntities tokens).
Proof.
  unfold extractEntities.
  pose proof (decodeTokens_NoDup tokens [] EmptyString (NoDup_nil_2)) as Hnd.
  destruct (decodeTokens tokens [] EmptyString) as [entities0 currentEntity].
  split.
  - by apply NoDup_filter, flushEntity_NoDup.
  - apply Forall_forall. by intros e [He _]%list_elem_of_filter.
Qed.

Lemma begins_not_continues token : continues token → String.prefix "B-" (Token.entity token) = false.
Proof.
  unfold continues. destruct (Token.entity token) as [|c s]; [done|].
  cbn [String.prefix]. destruct (ascii_dec "I" c) as [<-|]; [|done].
  by destruct (ascii_dec "B" "I") as [Heq|]; [discriminate Heq|].
Qed.

Lemma decodeTokens_outside outs : ∀ rest entities0,
  Forall outside outs →
  decodeTokens (outs ++ rest) entities0 EmptyString = decodeTokens rest entities0 EmptyString.
Proof.
  induction outs as [|token outs IH]; intros rest entities0 Hout; [done|].
  apply Forall_cons in Hout as [[HB HI] Hout].
  cbn [app decodeTokens]. rewrite HB, HI. cbn. by apply IH.
Qed.

Lemma decodeTokens_continues conts : ∀ rest entities0 currentEntity,
  Forall continues conts →
  decodeTokens (conts ++ rest) entities0 currentEntity
  = decodeTokens rest entities0 (currentEntity ++ glue conts)%string.
Proof.
  induction conts as [|token conts IH]; intros rest entities0 currentEntity Hcont.
  - cbn. by rewrite append_nil_r.
  - apply Forall_cons in Hcont as [Hc Hcont].
    cbn [app decodeTokens glue foldr].
    rewrite (begins_not_continues _ Hc), Hc. cbn [orb andb].
    destruct currentEntity as [|c s].
    + cbn. by rewrite IH.
    + cbn [String.eqb]. rewrite IH by done.
      by rewrite append_assoc.
Qed.

Lemma decodeTokens_flush outs : ∀ entities0 currentEntity,
  Forall outside outs →
  flushEntity (decodeTokens outs entities0 currentEntity).2
              (decodeTokens outs entities0 currentEntity).1
  = flushEntity currentEntity entities0.
Proof.
  induction outs as [|token outs IH]; intros entities0 currentEntity Hout; [done|].
  apply Forall_cons in Hout as [[HB HI] Hout].
  cbn [decodeTokens]. rewrite HB, HI. cbn [orb andb]. by rewrite IH.
Qed.

(** X22 (server/index.js, the entity decoding of [enrichArticles]): a
    token tagged B- followed by tokens tagged I-, between tokens tagged
    neither way, gives one entity: the word pieces glued together, each
    without its first [##]; it is kept only if it is longer than two
    characters. *)
Theorem extractEntities_span (before : list Token.t) (b : Token.t)
    (conts after : list Token.t) :
  Forall outside before → begins b → Forall continues conts → Forall outside after →
  extractEntities (before ++ b :: conts ++ after)
  = if (2 <? String.length (glue (b :: conts)))%nat then [glue (b :: conts)] else [].
Proof.
  intros Hbefore Hb Hconts Hafter. unfold extractEntities.
  rewrite decodeTokens_outside by done.
  cbn [decodeTokens]. rewrite Hb. cbn [orb flushEntity].
  rewrite decodeTokens_continues by done.
  pose proof (decodeTokens_flush after [] (removeFirstHashes (Token.word b) ++ glue conts)
                Hafter) as Hflush.
  destruct (decodeTokens after [] _) as [entities0 currentEntity].
  cbn [fst snd] in Hflush. rewrite Hflush.
  change (removeFirstHashes (Token.word b) ++ glue conts)%string with (glue (b :: conts)).
  destruct (glue (b :: conts)) as [|c s] eqn:Hglue; [done|].
  cbn [flushEntity]. unfold setAdd. rewrite bool_decide_eq_false_2 by apply not_elem_of_nil.
  cbn [app]. rewrite filter_cons, filter_nil.
  destruct (2 <? String.length (String c s))%nat eqn:Hlen.
  - apply Nat.ltb_lt in Hlen. by rewrite decide_True.
  - apply Nat.ltb_ge in Hlen. rewrite decide_False; [done|lia].
Qed.

Lemma extractEntities_span_witness :
  extractEntities washingtonTokens = ["Washington"%string].
Proof.
  apply (extractEntities_span
           [ {| Token.word := "in"; Token.entity := "O" |} ]
           {| Token.word := "Wash"; Token.entity := "B-LOC" |}
           [ {| Token.word := "##ing"; Token.entity := "I-LOC" |};
             {| Token.word := "##ton"; Token.entity := "I-LOC" |} ]
           [ {| Token.word := "today"; Token.entity := "O" |} ]).
  - repeat constructor.
  - reflexivity.
  - repeat constructor.
  - repeat constructor.
Defined.

(** ** Requests to the backend *)

Lemma totalWait_backoff (k : nat) : totalWait (backoff k) = 500 * (2 ^ Z.of_nat k - 1).
Proof.
  unfold totalWait, backoff. induction k as [|k IH]; [done|].
  rewrite seq_S, map_app, foldr_app. cbn [map foldr Nat.add].
  assert (Hshift : ∀ (l : list Z) x, foldr Z.add x l = foldr Z.add 0 l + x).
  { induction l as [|y l IHl]; intros x; cbn; [lia|]. rewrite IHl. lia. }
  rewrite Hshift, IH, Nat2Z.inj_succ, Z.pow_succ_r by lia. lia.
Qed.

Lemma retryFrom_answer fetch retries res : ∀ k remaining i lastError waited,
  (k < remaining)%nat → (i + k < retries)%nat →
  (∀ j, (j < k)%nat → is_Some (errorOf (fetch (i + j)%nat))) →
  attempt (fetch (i + k)%nat) = inl res →
  retryFrom fetch retries remaining i lastError waited
  = (Http.Returned res, waited ++ map (λ j, 500 * 2 ^ Z.of_nat j) (seq i k)).
Proof.
  induction k as [|k IH]; intros remaining i lastError waited Hk Hi Hfail Hres;
    (destruct remaining as [|remaining]; [lia|]); cbn [retryFrom].
  - rewrite Nat.add_0_r in Hres. rewrite Hres. cbn. by rewrite app_nil_r.
  - destruct (Hfail 0%nat ltac:(lia)) as [e He]. unfold errorOf in He.
    rewrite Nat.add_0_r in He.
    destruct (attempt (fetch i)) as [|e'] eqn:Hat; [done|].
    rewrite (proj2 (Z.ltb_lt _ _)) by lia.
    rewrite (IH remaining (S i)); [|lia|lia| |].
    + cbn [seq map]. by rewrite <- app_assoc.
    + intros j Hj. replace (S i + j)%nat with (i + S j)%nat by lia. apply Hfail. lia.
    + by replace (S i + k)%nat with (i + S k)%nat by lia.
Qed.

Lemma retryFrom_exhausted fetch retries : ∀ remaining i lastError waited,
  (i + remaining)%nat = retries →
  (∀ j, (j < remaining)%nat → is_Some (errorOf (fetch (i + j)%nat))) →
  retryFrom fetch retries remaining i lastError waited
  = (Http.Threw (match remaining with
                 | O => lastError
                 | S n => errorOf (fetch (i + n)%nat)
                 end),
     waited ++ map (λ j, 500 * 2 ^ Z.of_nat j) (seq i (remaining - 1))).
Proof.
  induction remaining as [|remaining IH]; intros i lastError waited Hi Hfail; cbn [retryFrom].
  - cbn. by rewrite app_nil_r.
  - destruct (Hfail 0%nat ltac:(lia)) as [e He]. unfold errorOf in He.
    rewrite Nat.add_0_r in He.
    destruct (attempt (fetch i)) as [|e'] eqn:Hat; [done|].
    destruct remaining as [|remaining].
    + rewrite (proj2 (Z.ltb_ge _ _)) by lia. cbn [retryFrom].
      unfold errorOf. rewrite Nat.add_0_r, Hat. cbn. by rewrite app_nil_r.
    + rewrite (proj2 (Z.ltb_lt _ _)) by lia.
      rewrite (IH (S i)); [|lia|].
      * replace (S i + remaining)%nat with (i + S remaining)%nat by lia.
        replace (S (S remaining) - 1)%nat with (S remaining) by lia.
        replace (S remaining - 1)%nat with remaining by lia.
        cbn [seq map]. by rewrite <- app_assoc.
      * intros j Hj. replace (S i + j)%nat with (i + S j)%nat by lia. apply Hfail. lia.
Qed.

(** X23 (services/dbService.ts, [fetchWithRetry]): when the attempts
    before the [k]-th fail (the request is rejected, or the status is 502,
    503 or 504) and the [k]-th gets any other response, with [k] below the
    number of retries, that response is returned, whatever its status,
    after waits of 500, 1000, ..., 500 * 2^(k-1) ms: 500 * (2^k - 1) ms
    in all. *)
Theorem fetchWithRetry_first_answer (fetch : nat → Http.Outcome) (retries k : nat)
    (res : Http.Reply) :
  (k < retries)%nat →
  (∀ j, (j < k)%nat → is_Some (errorOf (fetch j))) →
  attempt (fetch k) = inl res →
  fetchWithRetry fetch retries = (Http.Returned res, backoff k)
  ∧ totalWait (backoff k) = 500 * (2 ^ Z.of_nat k - 1).
Proof.
  intros Hk Hfail Hres. split; [|apply totalWait_backoff].
  unfold fetchWithRetry. by rewrite (retryFrom_answer fetch retries res k).
Qed.

Lemma fetchWithRetry_first_answer_witness :
  fetchWithRetry warmingUp 5 = (Http.Returned (replyOf 200 "{}"), backoff 2)
  ∧ totalWait (backoff 2) = 500 * (2 ^ Z.of_nat 2 - 1).
Proof.
  apply (fetchWithRetry_first_answer warmingUp 5 2 (replyOf 200 "{}")).
  - lia.
  - intros [|[|j]] Hj; [by eexists|by eexists|lia].
  - reflexivity.
Defined.

(** X24 (services/dbService.ts, [fetchWithRetry]): when every attempt
    fails, the error of the last attempt is thrown, after one wait
    between two attempts and none after the last: 500 * (2^(retries-1) - 1)
    ms in all, 7.5 s for the default of five; with no attempt allowed,
    [undefined] is thrown at once. *)
Theorem fetchWithRetry_exhausted (fetch : nat → Http.Outcome) (retries : nat) :
  (∀ j, (j < retries)%nat → is_Some (errorOf (fetch j))) →
  fetchWithRetry fetch retries
  = (Http.Threw (match retries with
                 | O => None
                 | S n => errorOf (fetch n)
                 end),
     backoff (retries - 1))
  ∧ totalWait (backoff (retries - 1)) = 500 * (2 ^ Z.of_nat (retries - 1) - 1).
Proof.
  intros Hfail. split; [|apply totalWait_backoff].
  unfold fetchWithRetry. by rewrite (retryFrom_exhausted fetch retries retries 0).
Qed.

Lemma fetchWithRetry_exhausted_witness :
  fetchWithRetry unreachable 5
  = (Http.Threw (Some (Http.FetchError "Failed to fetch")), [500; 1000; 2000; 4000])
  ∧ totalWait (backoff 4) = 7500.
Proof.
  apply (fetchWithRetry_exhausted unreachable 5).
  intros j Hj. by eexists.
Defined.

(** X25 (services/analysisService.ts, [triggerPipeline]): when the
    [k]-th of the three attempts is the first to get an [ok] response, the
    answer is the JSON of that response (the failure message if it cannot
    be read), [k + 1] requests were made, and 2 s were waited after each
    earlier attempt that was rejected or got a status of 500 or more, and
    not after one that got another status. *)
Theorem triggerPipeline_first_ok (fetch : nat → Http.Outcome) (k : nat) (res : Http.Reply) :
  (k < 3)%nat →
  (∀ j, (j < k)%nat → answersOk (fetch j) = false) →
  fetch k = Http.Responds res → Http.ok res = true →
  triggerPipeline fetch
  = (match Http.json res with
     | Some payload => PipelineResult payload
     | None => FailedToTrigger
     end,
     replicate (caughtBefore fetch k) 2000, S k).
Proof.
  intros Hk Hbefore Hres Hok. unfold triggerPipeline.
  destruct k as [|[|[|k]]]; [| | |lia].
  - cbn [triggerLoop]. rewrite Hres, Hok. cbn. by rewrite Hok.
  - pose proof (Hbefore 0%nat ltac:(lia)) as H0.
    cbn [triggerLoop caughtBefore]. unfold refuses.
    destruct (fetch 0%nat) as [reason0|res0]; cbn in H0 |- *.
    + rewrite Hres, Hok. cbn. by rewrite Hok.
    + rewrite H0. cbn [negb andb].
      destruct (500 <=? Http.status res0) eqn:H500.
      * rewrite (proj2 (Z.ltb_ge _ _)) by lia.
        rewrite Hres, Hok. cbn. by rewrite Hok.
      * rewrite (proj2 (Z.ltb_lt _ _)) by lia.
        rewrite Hres, Hok. cbn. by rewrite Hok.
  - pose proof (Hbefore 0%nat ltac:(lia)) as H0.
    pose proof (Hbefore 1%nat ltac:(lia)) as H1.
    cbn [triggerLoop caughtBefore]. unfold refuses.
    destruct (fetch 0%nat) as [reason0|res0], (fetch 1%nat) as [reason1|res1];
      cbn in H0, H1 |- *; rewrite ?H0, ?H1; cbn [negb andb];
      repeat match goal with
             | |- context [500 <=? Http.status ?r] =>
                 let H := fresh "H500" in
                 destruct (500 <=? Http.status r) eqn:H;
                 [rewrite (proj2 (Z.ltb_ge (Http.status r) 500)) by lia
                 |rewrite (proj2 (Z.ltb_lt (Http.status r) 500)) by lia]
             end;
      rewrite Hres, Hok; cbn; by rewrite Hok.
Qed.

Lemma triggerPipeline_first_ok_witness :
  triggerPipeline warmingUp = (PipelineResult "{}", [2000; 2000], 3%nat).
Proof.
  apply (triggerPipeline_first_ok warmingUp 2 (replyOf 200 "{}")).
  - lia.
  - intros [|[|j]] Hj; [reflexivity|reflexivity|lia].
  - reflexivity.
  - reflexivity.
Defined.

(** X26 (services/analysisService.ts, [triggerPipeline]): whatever the
    backend does, at most three requests are made and at most two waits
    of 2 s; a result other than the failure message is the JSON of an
    [ok] response to the last request made; and without an [ok] response
    to any of the three requests the answer is the failure message. *)
Theorem triggerPipeline_bounds (fetch : nat → Http.Outcome) :
  let '(result, waited, requests) := triggerPipeline fetch in
  (1 ≤ requests ≤ 3)%nat
  ∧ (∃ n, (n ≤ 2)%nat ∧ waited = replicate n 2000)
  ∧ (∀ payload, result = PipelineResult payload →
       ∃ res, fetch (requests - 1)%nat = Http.Responds res
              ∧ Http.ok res = true ∧ Http.json res = Some payload)
  ∧ ((∀ j, (j < 3)%nat → answersOk (fetch j) = false) →
       result = FailedToTrigger ∧ requests = 3%nat).
Proof.
  unfold triggerPipeline. cbn [triggerLoop].
  destruct (fetch 0%nat) as [reason0|res0] eqn:H0;
    [|destruct (Http.ok res0) eqn:Hok0; [|destruct (500 <=? Http.status res0)]];
    (try destruct (fetch 1%nat) as [reason1|res1] eqn:H1;
     [|destruct (Http.ok res1) eqn:Hok1; [|destruct (500 <=? Http.status res1)]]);
    (try destruct (fetch 2%nat) as [reason2|res2] eqn:H2;
     [|destruct (Http.ok res2) eqn:Hok2; [|destruct (500 <=? Http.status res2)]]);
    cbn [Nat.ltb Nat.leb app]; rewrite ?Hok0, ?Hok1, ?Hok2;
    (split_and!;
     [lia
     |lia
     |first [by exists 0%nat; split; [lia|]
            |by exists 1%nat; split; [lia|]
            |by exists 2%nat; split; [lia|]]
     |intros payload Hpayload; cbn [Nat.sub];
      first [discriminate Hpayload
            |eexists; split_and!; [eassumption|eassumption|];
             by destruct (Http.json _); simplify_eq]
     |intros Hall;
      pose proof (Hall 0%nat ltac:(lia)) as Ha0;
      pose proof (Hall 1%nat ltac:(lia)) as Ha1;
      pose proof (Hall 2%nat ltac:(lia)) as Ha2;
      unfold answersOk in Ha0, Ha1, Ha2;
      try rewrite H0 in Ha0; try rewrite H1 in Ha1; try rewrite H2 in Ha2;
      first [congruence|done]]).
Qed.

(** ** Ingestion *)

Lemma ToInt32_range (z : Z) : - 2 ^ 31 ≤ ToInt32 z < 2 ^ 31.
Proof. unfold ToInt32. pose proof (Z.mod_pos_bound (z + 2 ^ 31) (2 ^ 32)). lia. Qed.

Lemma ToInt32_eq (z : Z) : ToInt32 z = z - ((z + 2 ^ 31) / 2 ^ 32) * 2 ^ 32.
Proof. unfold ToInt32. rewrite Z.mod_eq by lia. lia. Qed.

Lemma ToInt32_shift (z k : Z) : ToInt32 (z + k * 2 ^ 32) = ToInt32 z.
Proof.
  unfold ToInt32. replace (z + k * 2 ^ 32 + 2 ^ 31) with (z + 2 ^ 31 + k * 2 ^ 32) by lia.
  by rewrite Z_mod_plus_full.
Qed.

Lemma ToInt32_congruent (x y k m : Z) :
  ToInt32 x = ToInt32 y → ToInt32 (k + m * x) = ToInt32 (k + m * y).
Proof.
  intros Hxy. rewrite !ToInt32_eq in Hxy.
  replace (k + m * x)
    with (k + m * y + (m * ((x + 2 ^ 31) / 2 ^ 32 - (y + 2 ^ 31) / 2 ^ 32)) * 2 ^ 32) by lia.
  apply ToInt32_shift.
Qed.

Lemma ToInt32_idem (z : Z) : ToInt32 (ToInt32 z) = ToInt32 z.
Proof.
  rewrite (ToInt32_eq z) at 1. set (q := (z + 2 ^ 31) / 2 ^ 32).
  replace (z - q * 2 ^ 32) with (z + - q * 2 ^ 32) by lia. apply ToInt32_shift.
Qed.

Lemma hashStep_eq (a b : Z) : hashStep a b = ToInt32 (31 * a + b).
Proof.
  unfold hashStep. rewrite Z.land_diag.
  rewrite (ToInt32_eq (ToInt32 a * 2 ^ 5)), (ToInt32_eq a).
  set (q1 := (a + 2 ^ 31) / 2 ^ 32).
  set (q2 := ((a - q1 * 2 ^ 32) * 2 ^ 5 + 2 ^ 31) / 2 ^ 32).
  replace ((a - q1 * 2 ^ 32) * 2 ^ 5 - q2 * 2 ^ 32 - a + b)
    with (31 * a + b + (- 32 * q1 - q2) * 2 ^ 32) by lia.
  apply ToInt32_shift.
Qed.

Lemma foldl_hashStep (units : list Z) : ∀ h,
  foldl hashStep (ToInt32 h) units = ToInt32 (foldl (λ a c, 31 * a + c) h units).
Proof.
  induction units as [|c units IH]; intros h; [done|].
  cbn [foldl]. rewrite hashStep_eq.
  replace (31 * ToInt32 h + c) with (c + 31 * ToInt32 h) by lia.
  rewrite (ToInt32_congruent (ToInt32 h) h c 31) by apply ToInt32_idem.
  replace (c + 31 * h) with (31 * h + c) by lia. apply IH.
Qed.

Lemma foldl_polynomial (units : list Z) : ∀ h,
  foldl (λ a c, 31 * a + c) h units
  = polynomialHash units + 31 ^ Z.of_nat (length units) * h.
Proof.
  unfold polynomialHash.
  induction units as [|c units IH] using rev_ind; intros h; [cbn; lia|].
  rewrite !foldl_app, length_app, Nat2Z.inj_add, Z.pow_add_r by lia.
  cbn [foldl length]. rewrite IH. change (Z.of_nat 1) with 1. lia.
Qed.

Lemma hashCode_polynomial (units : list Z) : hashCode units = ToInt32 (polynomialHash units).
Proof. apply (foldl_hashStep units 0). Qed.

(** X27 (constants.ts, [generateId]): the number that [generateId]
    prints in base 36 is the polynomial hash of the code units of the URL
    (31 * a + c, from 0) wrapped once to a signed 32-bit integer: wrapping
    at every step, as the code does, changes nothing. *)
Theorem generateId_hash (units : list Z) :
  hashCode units = ToInt32 (polynomialHash units)
  ∧ - 2 ^ 31 ≤ hashCode units < 2 ^ 31.
Proof.
  split; [apply hashCode_polynomial|].
  rewrite hashCode_polynomial. apply ToInt32_range.
Qed.

(** X28 (constants.ts, [generateId]): the id does not identify the URL:
    two URLs that differ in a segment of the same length and the same
    hash get the same id. *)
Theorem generateId_collision (front u1 u2 rest : list Z) :
  length u1 = length u2 → hashCode u1 = hashCode u2 →
  generateId (front ++ u1 ++ rest) = generateId (front ++ u2 ++ rest).
Proof.
  intros Hlen Hhash. unfold generateId. f_equal.
  - f_equal. unfold hashCode. rewrite !foldl_app. f_equal.
    change (foldl hashStep 0 front) with (hashCode front).
    rewrite (hashCode_polynomial front), !foldl_hashStep, !foldl_polynomial, <- Hlen.
    rewrite !(Z.add_comm (polynomialHash _)).
    rewrite <- (Z.mul_1_l (polynomialHash u1)), <- (Z.mul_1_l (polynomialHash u2)).
    apply ToInt32_congruent.
    by rewrite <- !hashCode_polynomial.
  - by rewrite !length_app, Hlen.
Qed.

Lemma generateId_collision_witness :
  generateId (unitsOf "https://example.in/Aa/1") = generateId (unitsOf "https://example.in/BB/1").
Proof.
  apply (generateId_collision (unitsOf "https://example.in/") (unitsOf "Aa") (unitsOf "BB")
           (unitsOf "/1")); reflexivity.
Defined.

Lemma noGt_append (s t : string) : noGt (s ++ t) = noGt s && noGt t.
Proof.
  induction s as [|c s IH]; [done|].
  change (negb (Ascii.eqb c ">") && noGt (s ++ t) = negb (Ascii.eqb c ">") && noGt s && noGt t).
  rewrite IH. by destruct (negb _).
Qed.

Lemma noGt_noTag (s : string) : noGt s = true → noTag s = true.
Proof.
  induction s as [|c s IH]; [done|]. cbn [noGt noTag].
  intros [_ Hs]%andb_true_iff. rewrite Hs, IH by done. by rewrite orb_true_r.
Qed.

Lemma stripFrom_noTag (s : string) :
  noTag (stripFrom s None) = true
  ∧ ∀ held, noGt held = true → noTag (stripFrom s (Some held)) = true.
Proof.
  induction s as [|c s [IHnone IHheld]]; cbn [stripFrom].
  - split; [done|]. apply noGt_noTag.
  - split.
    + destruct (Ascii.eqb c "<") eqn:Hc; [by apply IHheld; rewrite (proj1 (Ascii.eqb_eq _ _) Hc)|].
      cbn [noTag]. by rewrite Hc, IHnone.
    + intros held Hheld. destruct (Ascii.eqb c ">") eqn:Hc; [done|].
      apply IHheld. rewrite noGt_append, Hheld. cbn [noGt]. by rewrite Hc.
Qed.

Lemma noTag_trimStart (s : string) : noTag s = true → noTag (trimStart s) = true.
Proof.
  induction s as [|c s IH]; [done|]. cbn [trimStart]. intros Hs.
  destruct (is_space c); [|done]. apply IH.
  cbn [noTag] in Hs. by apply andb_true_iff in Hs as [_ Hs].
Qed.

Lemma noGt_trimEnd (s : string) : noGt s = true → noGt (trimEnd s) = true.
Proof.
  induction s as [|c s IH]; [done|]. cbn [trimEnd noGt].
  intros [Hc Hs]%andb_true_iff. specialize (IH Hs).
  destruct (trimEnd s) as [|c' r]; [destruct (is_space c); [done|]|]; cbn [noGt] in *;
    by rewrite Hc.
Qed.

Lemma noTag_trimEnd (s : string) : noTag s = true → noTag (trimEnd s) = true.
Proof.
  induction s as [|c s IH]; [done|]. cbn [trimEnd noTag].
  intros [Hc Hs]%andb_true_iff. specialize (IH Hs).
  destruct (trimEnd s) as [|c' r] eqn:Hr.
  - destruct (is_space c); [done|]. cbn [noTag noGt]. by rewrite orb_true_r.
  - change (noTag (String c (String c' r)))
      with ((negb (Ascii.eqb c "<") || noGt (String c' r)) && noTag (String c' r)).
    rewrite IH, andb_true_r.
    apply orb_true_iff in Hc as [Hc|Hc]; [by rewrite Hc|].
    apply noGt_trimEnd in Hc. rewrite Hr in Hc. by rewrite Hc, orb_true_r.
Qed.

Lemma noGt_substring (s : string) : ∀ n,
  noGt s = true → noGt (String.substring 0 n s) = true.
Proof.
  induction s as [|c s IH]; intros [|n] Hs; try done.
  cbn [String.substring noGt] in *. apply andb_true_iff in Hs as [Hc Hs].
  by rewrite Hc, IH.
Qed.

Lemma noTag_substring (s : string) : ∀ n,
  noTag s = true → noTag (String.substring 0 n s) = true.
Proof.
  induction s as [|c s IH]; intros [|n] Hs; try done.
  cbn [String.substring noTag] in *. apply andb_true_iff in Hs as [Hc Hs].
  rewrite IH, andb_true_r by done.
  apply orb_true_iff in Hc as [Hc|Hc]; [by rewrite Hc|].
  by rewrite noGt_substring, orb_true_r.
Qed.

Lemma noTag_append (s t : string) :
  noTag s = true → noGt t = true → noTag (s ++ t) = true.
Proof.
  intros Hs Ht. induction s as [|c s IH]; [by apply noGt_noTag|].
  change (noTag (String c (s ++ t)) = true). cbn [noTag] in *.
  apply andb_true_iff in Hs as [Hc Hs]. rewrite IH, andb_true_r by done.
  apply orb_true_iff in Hc as [Hc|Hc]; [by rewrite Hc|].
  by rewrite noGt_append, Hc, Ht, orb_true_r.
Qed.

Lemma length_substring (s : string) : ∀ n, (String.length (String.substring 0 n s) ≤ n)%nat.
Proof.
  induction s as [|c s IH]; intros [|n]; cbn [String.substring String.length]; try lia.
  specialize (IH n). lia.
Qed.

(** X29 (constants.ts, the [summary] of an ingested article): the
    summary holds no tag, that is no [<] with a [>] anywhere after it,
    whatever the description held, and it is at most 203 characters
    long. *)
Theorem summaryOf_shape (description : string) :
  noTag (summaryOf description) = true
  ∧ (String.length (summaryOf description) ≤ 203)%nat.
Proof.
  unfold summaryOf. split.
  - apply noTag_append; [|done].
    apply noTag_substring, noTag_trimEnd, noTag_trimStart, stripFrom_noTag.
  - rewrite length_append.
    pose proof (length_substring (trim (stripTags description)) 200).
    change (String.length "...") with 3%nat. lia.
Qed.
